(** * Breakdown analysis of GPU traces (hta/analyzers/breakdown_analysis.py)

    A shallow embedding of the interval-analysis core of
    [BreakdownAnalysis]: the sweep-line overlap classifier, the top-K
    aggregation with its "others" bucket, the temporal breakdown, the per-stream
    idle-time classification and the association of kernels with user
    annotations.

    Conventions of the embedding.
    - A pandas DataFrame is a list of rows; a derived column that is a function
      of the row is a function on rows.
    - Integer columns are [Z].  Columns that pandas holds as float64 because
      they contain NaN are [option Z] ([None] is NaN); quotients are the type
      [fnum] below, with the IEEE results of a division by zero written out and
      finite values kept as exact rationals.
    - [sort_values] is modelled by a stable insertion sort.  pandas' default
      sort is not stable; the results below that depend on the order are
      proved for every sorted permutation where that matters. *)

From stdpp Require Import base gmap strings.
From Stdlib Require Import ZArith QArith Qround List Lia Permutation Sorted Bool.
From Stdlib Require Import DecimalString OrdersEx.
Import ListNotations.
Local Open Scope string_scope.
Local Open Scope list_scope.
Local Open Scope Z_scope.

(* ===================================================================== *)
(** * Table operations *)
(* ===================================================================== *)

Module Pandas.

Section Rows.
Context {A : Type}.

(** [df.sort_values(by=key)]: ascending, earlier rows first among ties. *)
Fixpoint insert_by (key : A -> Z) (x : A) (l : list A) : list A :=
  match l with
  | [] => [x]
  | y :: l' => if key y <? key x then y :: insert_by key x l' else x :: l
  end.

Fixpoint sort_values (key : A -> Z) (l : list A) : list A :=
  match l with
  | [] => []
  | x :: l' => insert_by key x (sort_values key l')
  end.

(** [df.sort_values(by=[...])] on several columns, [ltb] being the strict
    order of the rows on them. *)
Fixpoint insert_ltb (ltb : A -> A -> bool) (x : A) (l : list A) : list A :=
  match l with
  | [] => [x]
  | y :: l' => if ltb y x then y :: insert_ltb ltb x l' else x :: l
  end.

Fixpoint sort_by (ltb : A -> A -> bool) (l : list A) : list A :=
  match l with
  | [] => []
  | x :: l' => insert_ltb ltb x (sort_by ltb l')
  end.

(** [df.sort_values(by=key, ascending=False)]. *)
Definition sort_values_desc (key : A -> Z) (l : list A) : list A :=
  sort_values (fun x => - key x) l.

(** [s.shift(-1)]: every value is replaced by the next one, the last by NaN. *)
Definition shift_up (l : list A) : list (option A) :=
  match l with
  | [] => []
  | _ :: l' => map Some l' ++ [None]
  end.

(** [s.shift(1)]: every value is replaced by the previous one, the first by NaN. *)
Definition shift_down (l : list A) : list (option A) :=
  match l with
  | [] => []
  | _ :: _ => None :: map Some (removelast l)
  end.

(** [s.unique()]: distinct values in order of first appearance. *)
Fixpoint unique_from (eqb : A -> A -> bool) (seen : list A) (l : list A) : list A :=
  match l with
  | [] => []
  | x :: l' =>
      if existsb (eqb x) seen then unique_from eqb seen l'
      else x :: unique_from eqb (x :: seen) l'
  end.

Definition unique (eqb : A -> A -> bool) (l : list A) : list A :=
  unique_from eqb [] l.

(** [df.groupby(by=[key])[col]]: one group per distinct key, keys in
    ascending order, the values of a group in row order. *)
Fixpoint group_add (k : string) (v : A) (gs : list (string * list A))
  : list (string * list A) :=
  match gs with
  | [] => [(k, [v])]
  | (k', vs) :: gs' =>
      match String_as_OT.compare k k' with
      | Eq => (k', v :: vs) :: gs'
      | Lt => (k, [v]) :: gs
      | Gt => (k', vs) :: group_add k v gs'
      end
  end.

Fixpoint groupby (rows : list (string * A)) : list (string * list A) :=
  match rows with
  | [] => []
  | (k, v) :: rows' => group_add k v (groupby rows')
  end.
End Rows.

(** [s.cumsum()] *)
Fixpoint cumsum_from (acc : Z) (l : list Z) : list Z :=
  match l with
  | [] => []
  | x :: l' => (acc + x) :: cumsum_from (acc + x) l'
  end.

Definition cumsum (l : list Z) : list Z := cumsum_from 0 l.

(** [s.sum()] on an integer column. *)
Definition sum (l : list Z) : Z := fold_right Z.add 0 l.

(** An int64 value after an overflow: the integer modulo [2^64], in
    [[-2^63, 2^63)]. *)
Definition wrap64 (z : Z) : Z := (z + 2 ^ 63) mod 2 ^ 64 - 2 ^ 63.

(** The sum of a group of an int64 column: int64 addition wraps. *)
Definition sum64 (l : list Z) : Z := wrap64 (sum l).

(** The multiple of [m] nearest to [a >= 0], as a number of steps: halves
    go to the even neighbour. *)
Definition round_half_even (a m : Z) : Z :=
  let q := a / m in
  let r := a mod m in
  if 2 * r <? m then q
  else if m <? 2 * r then q + 1
  else if Z.even q then q else q + 1.

(** The float64 nearest to an integer: 53 bits of the magnitude are kept,
    the rest is rounded. *)
Definition f64 (z : Z) : Z :=
  let a := Z.abs z in
  let e := Z.log2 a - 52 in
  if e <=? 0 then z
  else Z.sgn z * (round_half_even a (2 ^ e) * 2 ^ e).

(** [s.sum()] on a float column: NaN is skipped. *)
Definition nansum (l : list (option Z)) : Z :=
  fold_right (fun o acc => match o with Some x => x + acc | None => acc end) 0 l.

(** A float cell that may come from a division: the IEEE result of a
    division by zero, or a finite value kept as an exact rational. *)
Inductive fnum := NaN | PosInf | NegInf | Fin (q : Q).

(** [a / b] on integer-valued floats, the divisor being [+0.0] when zero. *)
Definition fdiv (a b : Z) : fnum :=
  if b =? 0 then
    if a =? 0 then NaN else if 0 <? a then PosInf else NegInf
  else Fin (Qred (inject_Z a / inject_Z b)).

(** [100 * x] on a float cell. *)
Definition fscale100 (x : fnum) : fnum :=
  match x with
  | Fin q => Fin (100 * q)
  | other => other
  end.

(** Rounding to the nearest integer, halves to the even neighbour. *)
Definition rint (q : Q) : Z :=
  let f := Qfloor q in
  match Qcompare (q - inject_Z f) (1 # 2) with
  | Lt => f
  | Gt => f + 1
  | Eq => if Z.even f then f else f + 1
  end.

(** [round(x, 2)] on a finite value: scale, round to an integer, scale back. *)
Definition round2 (q : Q) : Q := Qred (inject_Z (rint (q * 100)) / 100).

(** [round(x, 2)] on a float cell: NaN and the infinities stay. *)
Definition fround2 (x : fnum) : fnum :=
  match x with
  | Fin q => Fin (round2 q)
  | other => other
  end.

(** [x < y] on exact rationals. *)
Definition Qlt_bool (x y : Q) : bool := negb (Qle_bool y x).

(** [s.max()] and [s.min()] on an integer column that is not empty. *)
Definition max (l : list Z) : Z :=
  match l with
  | [] => 0
  | x :: l' => fold_right Z.max x l'
  end.

Definition min (l : list Z) : Z :=
  match l with
  | [] => 0
  | x :: l' => fold_right Z.min x l'
  end.

(** [s.mean()] on an integer column that is not empty, as an exact rational. *)
Definition mean (l : list Z) : Q :=
  Qred (inject_Z (sum l) / inject_Z (Z.of_nat (length l))).

(** A standard deviation, kept as the variance it is the square root of. *)
Inductive stddev := Sqrt (variance : Q).

(** [s.std()]: the sample standard deviation, NaN (here [None]) for fewer
    than two values. *)
Definition std (l : list Z) : option stddev :=
  match l with
  | [] | [_] => None
  | _ =>
      let m := mean l in
      let sq := fold_right (fun x acc => (inject_Z x - m) * (inject_Z x - m) + acc)%Q 0%Q l in
      Some (Sqrt (Qred (sq / inject_Z (Z.of_nat (length l) - 1))))
  end.

(** [s.quantile(q)] with linear interpolation, for [0 <= q <= 1]; NaN (here
    [None]) on an empty column. *)
Definition quantile (l : list Z) (q : Q) : option Q :=
  match sort_values (fun x => x) l with
  | [] => None
  | (x0 :: _) as v =>
      let pos := (q * inject_Z (Z.of_nat (length v) - 1))%Q in
      let lo := Qfloor pos in
      let a := nth (Z.to_nat lo) v x0 in
      let b := nth (Z.to_nat (lo + 1)) v a in
      Some (Qred (inject_Z a + (pos - inject_Z lo) * (inject_Z b - inject_Z a)))
  end.

(** A cell of a frame with integer and float columns. *)
Inductive cell := Int (z : Z) | Float (x : fnum).

(** Insertion-ordered Python dict as an association list. *)
Section Dict.
Context {K V : Type} (eqb : K -> K -> bool).

Fixpoint dict_get (k : K) (d : list (K * V)) : option V :=
  match d with
  | [] => None
  | (k', v) :: d' => if eqb k k' then Some v else dict_get k d'
  end.

Fixpoint dict_set (k : K) (v : V) (d : list (K * V)) : list (K * V) :=
  match d with
  | [] => [(k, v)]
  | (k', v') :: d' =>
      if eqb k k' then (k, v) :: d' else (k', v') :: dict_set k v d'
  end.
End Dict.

End Pandas.

(* ===================================================================== *)
(** * hta.utils.utils *)
(* ===================================================================== *)

Module Utils.

(** A row of a merged frame: columns [ts] and [end]. *)
Record interval := mkInterval { ts : Z; end_ : Z }.

(** Modelled from the spec: the scan of [merge_kernel_intervals]
    (hta/utils/utils.py is not part of the sources at hand).  Section 4.1:
    the current merged interval's end is extended with [max(end, next.end)]
    whenever [next.start <= current.end]; otherwise the current interval is
    closed and a new one opened. *)
Fixpoint merge_scan (cur : interval) (l : list interval) : list interval :=
  match l with
  | [] => [cur]
  | nxt :: l' =>
      if ts nxt <=? end_ cur
      then merge_scan {| ts := ts cur; end_ := Z.max (end_ cur) (end_ nxt) |} l'
      else cur :: merge_scan nxt l'
  end.

(** Modelled from the spec: [merge_kernel_intervals] on a frame of
    [[start, end)] intervals (section 4.1): sort by start, then scan; the
    empty frame stays empty. *)
Definition merge_intervals (l : list interval) : list interval :=
  match Pandas.sort_values ts l with
  | [] => []
  | x :: l' => merge_scan x l'
  end.

(** [KernelType] and the names its members print as. *)
Inductive KernelType := COMPUTATION | COMMUNICATION | MEMORY.

Definition KernelType_name (k : KernelType) : string :=
  match k with
  | COMPUTATION => "COMPUTATION"
  | COMMUNICATION => "COMMUNICATION"
  | MEMORY => "MEMORY"
  end.

(** [IdleTimeType].  The values of its members are not in the sources at
    hand; the frames below are keyed by the lower-case member name, which is
    what [get_idle_time_breakdown] renames the values to, in the order the
    members are declared. *)
Inductive IdleTimeType := HOST_WAIT | KERNEL_WAIT | OTHER.

Definition IdleTimeType_name (c : IdleTimeType) : string :=
  match c with
  | HOST_WAIT => "host_wait"
  | KERNEL_WAIT => "kernel_wait"
  | OTHER => "other"
  end.

End Utils.

(* ===================================================================== *)
(** * Traces *)
(* ===================================================================== *)

(** A row of a rank's trace frame, with the columns the analyses read. *)
Module Ev.
Record Event := mkEvent {
  index : Z;
  cat : Z;
  name : Z;
  pid : Z;
  tid : Z;
  ts : Z;
  dur : Z;
  stream : Z;
  index_correlation : Z
}.
End Ev.
Abbreviation Event := Ev.Event.

Definition interval_of (e : Event) : Utils.interval :=
  {| Utils.ts := Ev.ts e; Utils.end_ := Ev.ts e + Ev.dur e |}.

(** Modelled from the spec: [merge_kernel_intervals] applied to a frame of
    kernels; an event spans [[start, end)] with [end = start + duration]
    (section 3), and the intervals are merged as in section 4.1. *)
Definition merge_kernel_intervals (kernel_df : list Event) : list Utils.interval :=
  Utils.merge_intervals (map interval_of kernel_df).

(** The symbol table: [sym_index] (and [get_sym_id_map()]) maps a name to its
    id, [get_sym_table()] lists the names by id. *)
Record SymbolTable := mkSymbolTable {
  sym_index : gmap string Z;
  sym_table : list string
}.

Record Trace := mkTrace {
  symbol_table : SymbolTable;
  traces : list (Z * list Event)
}.

(** Modelled from the spec: [Trace.get_trace(rank)] (hta/common/trace.py is not
    part of the sources at hand).  A trace maps a rank to its events
    (section 3); a rank that is not in the trace has none to return. *)
Definition get_trace (t : Trace) (rank : Z) : option (list Event) :=
  Pandas.dict_get Z.eqb rank (traces t).

(** [sym_id_map.get(name, default)] *)
Definition sym_id_get (t : Trace) (name : string) (default : Z) : Z :=
  match sym_index (symbol_table t) !! name with
  | Some id => id
  | None => default
  end.


(* ===================================================================== *)
(** * Calls that log, raise or return *)
(* ===================================================================== *)

Module Call.

Inductive level := INFO | WARNING.

Record log_record := mkLog { lvl : level; msg : string }.

(** How a call ends: with an exception, or with a value. *)
Inductive outcome (A : Type) :=
| Raised (exc : string)
| Returned (a : A).
Arguments Raised {A} exc.
Arguments Returned {A} a.

(** A call: the records it logs, in order, and how it ends. *)
Definition M (A : Type) : Type := list log_record * outcome A.

Definition ret {A} (a : A) : M A := ([], Returned a).

Definition raise {A} (exc : string) : M A := ([], Raised exc).

Definition bind {A B} (m : M A) (f : A -> M B) : M B :=
  match m with
  | (l, Raised e) => (l, Raised e)
  | (l, Returned a) => let '(l', r) := f a in (l ++ l', r)
  end.

Definition log (lv : level) (s : string) : M unit :=
  ([{| lvl := lv; msg := s |}], Returned tt).

(** [str(n)] for an integer. *)
Definition str (n : Z) : string := NilZero.string_of_int (Z.to_int n).

End Call.

Notation "'let*' x ':=' m 'in' k" := (Call.bind m (fun x => k))
  (at level 10, x name, m at level 100, k at level 200).
Notation "'do*' m 'in' k" := (Call.bind m (fun _ => k))
  (at level 10, m at level 100, k at level 200).


(* ===================================================================== *)
(** * Integer time points covered by a set of intervals *)
(* ===================================================================== *)

Module Cover.
Import Utils.

(** [t] lies in [[ts, end)]. *)
Definition contains (iv : interval) (t : Z) : bool :=
  (ts iv <=? t) && (t <? end_ iv).

(** [t] lies in one of the intervals. *)
Definition covered (ivs : list interval) (t : Z) : bool :=
  existsb (fun iv => contains iv t) ivs.

(** The number of the [n] time points from [lo] on that satisfy [f]. *)
Fixpoint count_from (f : Z -> bool) (lo : Z) (n : nat) : Z :=
  match n with
  | O => 0
  | S n' => (if f lo then 1 else 0) + count_from f (lo + 1) n'
  end.

(** The number of time points of [[lo, hi)] that satisfy [f]. *)
Definition measure (f : Z -> bool) (lo hi : Z) : Z :=
  count_from f lo (Z.to_nat (hi - lo)).

Definition min_list (d : Z) (l : list Z) : Z := fold_right Z.min d l.
Definition max_list (d : Z) (l : list Z) : Z := fold_right Z.max d l.

Definition first_ts (ivs : list interval) : Z :=
  match ivs with
  | [] => 0
  | iv :: _ => min_list (ts iv) (map ts ivs)
  end.

Definition last_end (ivs : list interval) : Z :=
  match ivs with
  | [] => 0
  | iv :: _ => max_list (end_ iv) (map end_ ivs)
  end.

(** The length of the union of the intervals: the number of time points,
    between the earliest start and the latest end, that lie in one of them. *)
Definition union_length (ivs : list interval) : Z :=
  measure (covered ivs) (first_ts ivs) (last_end ivs).

(** A merged frame: every interval has [ts <= end], the intervals are in
    ascending order and none starts before the one before it has ended. *)
Fixpoint premerged_from (prev_end : Z) (ivs : list interval) : Prop :=
  match ivs with
  | [] => True
  | iv :: ivs' => prev_end <= ts iv /\ ts iv <= end_ iv /\ premerged_from (end_ iv) ivs'
  end.

Definition premerged (ivs : list interval) : Prop :=
  match ivs with
  | [] => True
  | iv :: ivs' => ts iv <= end_ iv /\ premerged_from (end_ iv) ivs'
  end.

End Cover.

(* ===================================================================== *)
(** * BreakdownAnalysis *)
(* ===================================================================== *)

Module BreakdownAnalysis.
Import Utils.

(* --------------------------------------------------------------------- *)
(** ** [_get_gpu_kernel_type_time] *)

(** A row of [overlap_kernel_type_df]: [status] holds the signed flag that
    replaced "ts" / "end", [time] the timestamp. *)
Record sweep_row := mkSweepRow { status : Z; time : Z }.

(** [kernel_t_df.melt(var_name="status", value_name="time")
       .replace({"ts": value, "end": -value})]:
    the [ts] column first, then the [end] column. *)
Definition melt (value : Z) (kernel_t_df : list interval) : list sweep_row :=
  map (fun iv => {| status := value; time := Utils.ts iv |}) kernel_t_df
  ++ map (fun iv => {| status := - value; time := end_ iv |}) kernel_t_df.

(** One turn of the loop over [enumerate(kernel_type_to_analysis)], on the
    merged frame of the category. *)
Definition add_kernel_type
    (st : list (string * Z) * list sweep_row)
    (it : nat * (string * list interval))
  : list (string * Z) * list sweep_row :=
  let '(kernel_t_mapping, overlap_kernel_type_df) := st in
  let '(idx, (kernel_type, kernel_t_df)) := it in
  let value := Z.shiftl 1 (Z.of_nat idx) in
  (Pandas.dict_set String.eqb kernel_type value kernel_t_mapping,
   Pandas.sort_values time (overlap_kernel_type_df ++ melt value kernel_t_df)).

Definition enumerate {A} (l : list A) : list (nat * A) :=
  combine (seq 0 (length l)) l.

(** The label of one running value: the names of the categories whose flag
    is set in it, in mapping order, joined by " overlapping ". *)
Definition running_label (kernel_t_mapping : list (string * Z)) (u_running : Z)
    (running_mapping : list (Z * string)) : list (Z * string) :=
  fold_left
    (fun rm '(k_t, v_t) =>
       if Z.land u_running v_t =? 0 then rm
       else match Pandas.dict_get Z.eqb u_running rm with
            | None => Pandas.dict_set Z.eqb u_running k_t rm
            | Some old =>
                Pandas.dict_set Z.eqb u_running (old ++ " overlapping " ++ k_t)%string rm
            end)
    kernel_t_mapping running_mapping.

Definition build_running_mapping (kernel_t_mapping : list (string * Z))
    (unique_running : list Z) : list (Z * string) :=
  fold_left
    (fun rm u_running =>
       if 0 <? u_running then running_label kernel_t_mapping u_running rm else rm)
    unique_running [].

(** A row of the frame after the columns [running], [next_time] and
    [kernel_type] have been added. *)
Record segment := mkSegment {
  seg_time : Z;
  running : Z;
  next_time : option Z;
  seg_kernel_type : string
}.

(** The frame with [running = status.cumsum()], [next_time = time.shift(-1)]
    and [kernel_type = ""]. *)
Definition segments (df : list sweep_row) : list segment :=
  map (fun '(r, run, nt) =>
         {| seg_time := time r; running := run; next_time := nt;
            seg_kernel_type := "" |})
      (combine (combine df (Pandas.cumsum (map status df)))
               (Pandas.shift_up (map time df))).

(** [df.loc[df["running"].eq(running), "kernel_type"] = label] *)
Definition set_kernel_type (running0 : Z) (label : string) (df : list segment)
  : list segment :=
  map (fun s => if running s =? running0
                then {| seg_time := seg_time s; running := running s;
                        next_time := next_time s; seg_kernel_type := label |}
                else s) df.

(** [(next_time - time).astype(int)]: [next_time] is a float64 column (the
    shift leaves a NaN in it), so the time stamp it holds and the int64
    [time] are both read as floats, their difference is a float, and the cast
    gives the integer value of that float; a NaN cannot be cast. *)
Definition float_duration (next_time time : Z) : Z :=
  Pandas.f64 (Pandas.f64 next_time - Pandas.f64 time).

Fixpoint durations (df : list segment) : option (list (string * Z)) :=
  match df with
  | [] => Some []
  | s :: df' =>
      match next_time s, durations df' with
      | Some nt, Some ds =>
          Some ((seg_kernel_type s, float_duration nt (seg_time s)) :: ds)
      | _, _ => None
      end
  end.

(** The sorted frame of signed flags, and the flag of every category, after
    the loop over the categories. *)
Definition sweep_events (merged : list (string * list interval))
  : list (string * Z) * list sweep_row :=
  fold_left add_kernel_type (enumerate merged) ([], []).

(** The rows kept by [df[df["running"] > 0]]. *)
Definition active_segments (merged : list (string * list interval)) : list segment :=
  filter (fun s => 0 <? running s) (segments (snd (sweep_events merged))).

(** The body of [_get_gpu_kernel_type_time] on the merged frames of the
    categories, in the order of [kernel_type_to_analysis]: the table of
    [(kernel_type, sum)] rows, or [None] when the cast to int raises. *)
Definition overlap_kernel_type_time (merged : list (string * list interval))
  : option (list (string * Z)) :=
  let '(kernel_t_mapping, overlap_kernel_type_df) := sweep_events merged in
  let df := segments overlap_kernel_type_df in
  let unique_running := Pandas.unique Z.eqb (map running df) in
  let running_mapping := build_running_mapping kernel_t_mapping unique_running in
  let df := filter (fun s => 0 <? running s) df in
  let df := fold_left (fun df '(r, label) => set_kernel_type r label df)
                      running_mapping df in
  match durations df with
  | None => None
  | Some ds =>
      Some (map (fun '(k, vs) => (k, Pandas.sum vs)) (Pandas.groupby ds))
  end.

(** [_get_gpu_kernel_type_time]: the kernels of every category of
    [kernel_type_to_analysis] are merged, and the merged frames classified.
    [kernel_type] is the column of that name. *)
Definition _get_gpu_kernel_type_time
    (kernel_type : Event -> string) (gpu_kernels : list Event)
    (kernel_type_to_analysis : list string) : option (list (string * Z)) :=
  overlap_kernel_type_time
    (map (fun kt =>
            (kt, merge_kernel_intervals
                   (filter (fun e => String.eqb (kernel_type e) kt) gpu_kernels)))
         kernel_type_to_analysis).

(* --------------------------------------------------------------------- *)
(** ** [_aggr_gpu_kernel_time] *)

(** A row of the aggregated frame.  [std] is NaN ([None]) until [fillna]. *)
Module Agg.
Record row := mkRow {
  name : string;
  sum : Z;
  max : Z;
  min : Z;
  mean : Q;
  std : option Pandas.stddev
}.
End Agg.

(** [.agg(["sum", "max", "min", "mean", "std"])] on one group of an int64
    column: the sum is an int64 and wraps. *)
Definition agg (group : string * list Z) : Agg.row :=
  let '(name, vs) := group in
  {| Agg.name := name;
     Agg.sum := Pandas.sum64 vs;
     Agg.max := Pandas.max vs;
     Agg.min := Pandas.min vs;
     Agg.mean := Pandas.mean vs;
     Agg.std := Pandas.std vs |}.

(** [df.fillna({"std": 0})] *)
Definition fillna_std (df : list Agg.row) : list Agg.row :=
  map (fun r =>
         match Agg.std r with
         | Some _ => r
         | None =>
             {| Agg.name := Agg.name r; Agg.sum := Agg.sum r; Agg.max := Agg.max r;
                Agg.min := Agg.min r; Agg.mean := Agg.mean r;
                Agg.std := Some (Pandas.Sqrt 0) |}
         end) df.

Definition set_name (n : string) (r : Agg.row) : Agg.row :=
  {| Agg.name := n; Agg.sum := Agg.sum r; Agg.max := Agg.max r;
     Agg.min := Agg.min r; Agg.mean := Agg.mean r; Agg.std := Agg.std r |}.

(** The first aggregation: group the [dur] column by [name], sort by [sum]
    in descending order, fill the NaN of [std]. *)
Definition aggr_by_name (gpu_kernel_time : list (string * Z)) : list Agg.row :=
  fillna_std
    (Pandas.sort_values_desc Agg.sum (map agg (Pandas.groupby gpu_kernel_time))).

(** [keep_idx]: the rows on the allow list; without a list, [sum < 0]. *)
Definition keep_idx (allowlist_names : option (list string)) (r : Agg.row) : bool :=
  match allowlist_names with
  | Some names => existsb (String.eqb (Agg.name r)) names
  | None => Agg.sum r <? 0
  end.

(** The two assignments of "others" to the [name] column: to the rows off
    the allow list whose [cumsum] exceeds the quantile (a comparison with NaN
    is false), and to those whose index is [num_kernels] or more. *)
Definition rename_others (allowlist_names : option (list string))
    (num_kernels : Z) (quantiles : option Q)
    (df : list Agg.row) : list Agg.row :=
  let keep := map (keep_idx allowlist_names) df in
  let cumsum := Pandas.cumsum (map Agg.sum df) in
  let df1 :=
    map (fun '(r, k, c) =>
           if negb k
              && match quantiles with
                 | Some q => Pandas.Qlt_bool q (inject_Z c)
                 | None => false
                 end
           then set_name "others" r else r)
        (combine (combine df keep) cumsum) in
  map (fun '(i, r, k) =>
         if negb k && (num_kernels <=? Z.of_nat i)
         then set_name "others" r else r)
      (combine (enumerate df1) keep).

(** [Series.quantile] raises on a percentile outside [[0, 1]]. *)
Definition valid_percentile (q : Q) : bool :=
  Qle_bool 0 q && Qle_bool q 1.

(** [_aggr_gpu_kernel_time]; [None] when [quantile] raises. *)
Definition _aggr_gpu_kernel_time
    (gpu_kernel_time : list (string * Z))
    (num_kernels : Z) (duration_ratio : Q)
    (allowlist_names : option (list string)) : option (list Agg.row) :=
  let df := aggr_by_name gpu_kernel_time in
  if num_kernels <? Z.of_nat (length df) then
    if valid_percentile duration_ratio then
      let quantiles :=
        Pandas.quantile (Pandas.cumsum (map Agg.sum df)) duration_ratio in
      let df := rename_others allowlist_names num_kernels quantiles df in
      Some (fillna_std
              (map agg (Pandas.groupby (map (fun r => (Agg.name r, Agg.sum r)) df))))
    else None
  else Some df.

(* --------------------------------------------------------------------- *)
(** ** [_analyze_idle_time_for_stream] and [get_idle_time_breakdown] *)

(** A kernel row after the join with its runtime event: [ts_runtime] is NaN
    when no runtime event correlates. *)
Record joined := mkJoined { kernel : Event; ts_runtime : option Z }.

(** A row of [gpu_kernels_s] with the columns the analysis adds. *)
Record idle_row := mkIdleRow {
  ir_kernel : joined;
  end_ts : Z;
  prev_end_ts : option Z;
  idle_interval : option Z;
  idle_category : IdleTimeType
}.

(** [a > b] and [a < b] on float columns: false when an operand is NaN. *)
Definition gt_nan (a b : option Z) : bool :=
  match a, b with
  | Some x, Some y => y <? x
  | _, _ => false
  end.

Definition lt_nan (a b : option Z) : bool :=
  match a, b with
  | Some x, Some y => x <? y
  | _, _ => false
  end.

(** The category of a row: the default [OTHER], overwritten by [HOST_WAIT]
    where [is_host_wait] holds, then by [KERNEL_WAIT] where
    [is_kernel_kernel_delay] holds. *)
Definition classify (consecutive_kernel_delay : Z)
    (ts_runtime prev_end_ts idle_interval : option Z) : IdleTimeType :=
  let is_host_wait := gt_nan ts_runtime prev_end_ts in
  let is_kernel_kernel_delay :=
    negb is_host_wait && lt_nan idle_interval (Some consecutive_kernel_delay) in
  let idle_category := OTHER in
  let idle_category := if is_host_wait then HOST_WAIT else idle_category in
  if is_kernel_kernel_delay then KERNEL_WAIT else idle_category.

(** The stream's kernels in start order with [end_ts], [prev_end_ts],
    [idle_interval] and [idle_category]. *)
Definition idle_rows (stream : Z) (gpu_kernels : list joined)
    (consecutive_kernel_delay : Z) : list idle_row :=
  let gpu_kernels_s :=
    Pandas.sort_values (fun k => Ev.ts (kernel k))
      (filter (fun k => Ev.stream (kernel k) =? stream) gpu_kernels) in
  let end_ts := map (fun k => Ev.ts (kernel k) + Ev.dur (kernel k)) gpu_kernels_s in
  let prev_end_ts := Pandas.shift_down end_ts in
  map (fun '(k, e, p) =>
         let idle_interval := option_map (fun p => Ev.ts (kernel k) - p) p in
         {| ir_kernel := k; end_ts := e; prev_end_ts := p;
            idle_interval := idle_interval;
            idle_category :=
              classify consecutive_kernel_delay (ts_runtime k) p idle_interval |})
      (combine (combine gpu_kernels_s end_ts) prev_end_ts).

(** A row of the breakdown of one stream. *)
Module Idle.
Record row := mkRow {
  idle_category : string;
  idle_time : Z;
  stream : Z;
  idle_time_ratio : Pandas.fnum
}.
End Idle.

(** The first table [_analyze_idle_time_for_stream] returns: per category
    the sum of [idle_interval] (NaN skipped) and its ratio to the sum over
    the categories.  The optional table of descriptive statistics is left
    out. *)
Definition _analyze_idle_time_for_stream (stream : Z) (gpu_kernels : list joined)
    (consecutive_kernel_delay : Z) : list Idle.row :=
  let gpu_kernels_s := idle_rows stream gpu_kernels consecutive_kernel_delay in
  let result :=
    map (fun '(c, vs) => (c, Pandas.nansum vs))
        (Pandas.groupby
           (map (fun r => (IdleTimeType_name (idle_category r), idle_interval r))
                gpu_kernels_s)) in
  let total_idle_time := Pandas.sum (map snd result) in
  map (fun '(c, idle) =>
         {| Idle.idle_category := c; Idle.idle_time := idle; Idle.stream := stream;
            Idle.idle_time_ratio := Pandas.fdiv idle total_idle_time |})
      result.

(** A row of the table [get_idle_time_breakdown] returns. *)
Module IdleBreakdown.
Record row := mkRow {
  rank : Z;
  stream : Z;
  idle_category : string;
  idle_time : Z;
  idle_time_ratio : Pandas.fnum
}.
End IdleBreakdown.

Definition kernel_cats : list string :=
  ["kernel"; "Kernel"; "gpu_memset"; "Memset"; "gpu_memcpy"; "Memcpy";
   "mtia_ccp_events"].

(** The join of the GPU kernels with the runtime events on
    [index_correlation]; the frame is indexed by its [index] column. *)
Definition join_runtime (trace_df : list Event) (gpu_kernels_pre : list Event)
  : list joined :=
  map (fun k =>
         {| kernel := k;
            ts_runtime :=
              option_map Ev.ts
                (find (fun r => Ev.index r =? Ev.index_correlation k) trace_df) |})
      gpu_kernels_pre.

(** The frame [gpu_kernels] of [get_idle_time_breakdown]: the events on a
    stream whose category is one of [kernel_cats], joined with their runtime
    events. *)
Definition idle_gpu_kernels (t : Trace) (trace_df : list Event) : list joined :=
  let kernel_cat_ids := map (fun cat => sym_id_get t cat (-1000)) kernel_cats in
  let gpu_kernels_pre :=
    filter (fun e => negb (Ev.stream e =? -1)
                     && existsb (Z.eqb (Ev.cat e)) kernel_cat_ids) trace_df in
  join_runtime trace_df gpu_kernels_pre.

(** The first table of [get_idle_time_breakdown], without the charts;
    [None] when the call raises: the rank is not in the trace, or there is
    no stream and [pd.concat] has nothing to concatenate.  An integer-valued
    [idle_time] is its own rounding. *)
Definition get_idle_time_breakdown (t : Trace) (consecutive_kernel_delay : Z)
    (rank : Z) (streams : option (list Z)) : option (list IdleBreakdown.row) :=
  match get_trace t rank with
  | None => None
  | Some trace_df =>
      let gpu_kernels := idle_gpu_kernels t trace_df in
      let streams :=
        match streams with
        | None | Some [] =>
            Pandas.unique Z.eqb (map (fun k => Ev.stream (kernel k)) gpu_kernels)
        | Some l => l
        end in
      let result_list :=
        map (fun stream =>
               _analyze_idle_time_for_stream stream gpu_kernels consecutive_kernel_delay)
            streams in
      match result_list with
      | [] => None
      | _ =>
          Some (map (fun r =>
                       {| IdleBreakdown.rank := rank;
                          IdleBreakdown.stream := Idle.stream r;
                          IdleBreakdown.idle_category := Idle.idle_category r;
                          IdleBreakdown.idle_time := Idle.idle_time r;
                          IdleBreakdown.idle_time_ratio :=
                            Pandas.fround2 (Idle.idle_time_ratio r) |})
                    (concat result_list))
      end
  end.

(* --------------------------------------------------------------------- *)
(** ** Kernels and user annotations *)

(** [pd.IntervalIndex.from_arrays(df["ts"], df["end"], closed="left")] with
    [end = ts + dur]: raises when a left side exceeds its right side. *)
Definition with_interval_index (df : list Event) : Call.M (list Event) :=
  if forallb (fun e => Ev.ts e <=? Ev.ts e + Ev.dur e) df
  then Call.ret df
  else Call.raise "ValueError".

(** [Interval.overlaps] on two intervals closed on the left: they share a
    point. *)
Definition overlaps (a b : Event) : bool :=
  (Ev.ts a <? Ev.ts b + Ev.dur b) && (Ev.ts b <? Ev.ts a + Ev.dur a).

(** A row of [gpu_kernels_df]: the event and its [user_annotation]. *)
Record kernel_row := mkKernelRow { k_event : Event; user_annotation : Z }.

Section Annotations.
(** [GPUKernelFilter] (hta/common/trace_filter.py) is not part of the
    sources at hand: the predicate that selects the GPU kernels. *)
Variable GPUKernelFilter : SymbolTable -> Event -> bool.

(** [decode_symbol_id_to_symbol_name] (hta/common/trace_symbol_table.py)
    is not part of the sources at hand. *)
Variable decode_symbol_id_to_symbol_name :
  SymbolTable -> bool -> list kernel_row -> list kernel_row.

(** [trace_df["user_annotation"] = -1], then the GPU kernels with their
    interval index. *)
Definition _get_gpu_kernel_interval_dataframe (trace_df : list Event) (t : Trace)
  : Call.M (list kernel_row) :=
  let* gpu_kernels_df :=
    with_interval_index (filter (GPUKernelFilter (symbol_table t)) trace_df) in
  Call.ret (map (fun e => {| k_event := e; user_annotation := -1 |}) gpu_kernels_df).

(** The GPU user annotations in descending order of [dur], with their
    interval index; Python's [None] when the trace has no such category. *)
Definition _get_gpu_user_anno_interval_dataframe (trace_df : list Event) (t : Trace)
  : Call.M (option (list Event)) :=
  let gpu_user_anno_id := sym_id_get t "gpu_user_annotation" (-1) in
  if gpu_user_anno_id =? -1 then Call.ret None
  else
    let gpu_user_anno_df :=
      Pandas.sort_values_desc Ev.dur
        (filter (fun e => Ev.cat e =? gpu_user_anno_id) trace_df) in
    let* df := with_interval_index gpu_user_anno_df in
    Call.ret (Some df).

(** The assignment
    [gpu_kernels_df.loc[(pid == ..) & (tid == ..) & overlaps, "user_annotation"] = anno_name]
    for one annotation row of the [(pid, tid)] frame. *)
Definition assign_annotation (p : Z * Z) (row : Event) (gpu_kernels_df : list kernel_row)
  : list kernel_row :=
  map (fun k =>
         if (Ev.pid (k_event k) =? fst p) && (Ev.tid (k_event k) =? snd p)
            && overlaps (k_event k) row
         then {| k_event := k_event k; user_annotation := Ev.name row |}
         else k)
      gpu_kernels_df.

Definition pair_eqb (p q : Z * Z) : bool := (fst p =? fst q) && (snd p =? snd q).

(** [gpu_user_anno_df[["pid", "tid"]].drop_duplicates()] *)
Definition pid_tids_of (gpu_user_anno_df : list Event) : list (Z * Z) :=
  Pandas.unique pair_eqb (map (fun a => (Ev.pid a, Ev.tid a)) gpu_user_anno_df).

(** [gpu_user_anno_df.query(f"pid == {pid} and tid == {tid}")] *)
Definition query_pid_tid (p : Z * Z) (gpu_user_anno_df : list Event) : list Event :=
  filter (fun a => (Ev.pid a =? fst p) && (Ev.tid a =? snd p)) gpu_user_anno_df.

(** The frame [gpu_kernels_df] after the two loops. *)
Definition associate (gpu_kernels_df : list kernel_row) (gpu_user_anno_df : list Event)
  : list kernel_row :=
  fold_left
    (fun df p =>
       fold_left (fun df row => assign_annotation p row df)
                 (query_pid_tid p gpu_user_anno_df) df)
    (pid_tids_of gpu_user_anno_df) gpu_kernels_df.

(** [_associate_gpu_kernels_with_user_annotations]: one record logged per
    [(pid, tid)], and [gpu_kernels_df] updated in place. *)
Definition _associate_gpu_kernels_with_user_annotations
    (trace_df : list Event) (gpu_kernels_df : list kernel_row)
    (gpu_user_anno_df : list Event) : Call.M (list kernel_row) :=
  (map (fun p =>
          {| Call.lvl := Call.INFO;
             Call.msg :=
               ("Pid,tid = {'pid': " ++ Call.str (fst p) ++ ", 'tid': "
                ++ Call.str (snd p) ++ "}, Num gpu annotations = "
                ++ Call.str (Z.of_nat (length (query_pid_tid p gpu_user_anno_df))))%string |})
       (pid_tids_of gpu_user_anno_df),
   Call.Returned (associate gpu_kernels_df gpu_user_anno_df)).

(** [get_gpu_kernels_with_user_annotations]: Python's [None] when the trace
    has no GPU user annotations, the frame of the kernels otherwise. *)
Definition get_gpu_kernels_with_user_annotations
    (t : Trace) (rank : Z) (expand_names shortern_names : bool)
  : Call.M (option (list kernel_row)) :=
  match get_trace t rank with
  | None => Call.raise "ValueError"
  | Some trace_df =>
      let* gpu_user_anno_df := _get_gpu_user_anno_interval_dataframe trace_df t in
      match gpu_user_anno_df with
      | None =>
          do* Call.log Call.WARNING
                ("Trace for rank " ++ Call.str rank
                 ++ " does not contain any GPU user annotations")%string in
          Call.ret None
      | Some gpu_user_anno_df =>
          let* gpu_kernels_df := _get_gpu_kernel_interval_dataframe trace_df t in
          let* gpu_kernels_df :=
            _associate_gpu_kernels_with_user_annotations
              trace_df gpu_kernels_df gpu_user_anno_df in
          Call.ret
            (Some (if expand_names
                   then decode_symbol_id_to_symbol_name
                          (symbol_table t) shortern_names gpu_kernels_df
                   else gpu_kernels_df))
      end
  end.
End Annotations.

(* --------------------------------------------------------------------- *)
(** ** [get_gpu_user_annotation_breakdown] *)

(** A row of the user-annotation table: the aggregate ([sum (us)],
    [max (us)], [min (us)], [mean (us)], [stddev] after the renaming of the
    columns) and the rank. *)
Record annotation_row := mkAnnotationRow { a_row : Agg.row; a_rank : Z }.

Section AnnotationBreakdown.
(** [add_symbols_to_trace_df] and [find_matched_symbols]
    (hta/common/trace_symbol_table.py) are not part of the sources at hand:
    the name of a symbol id, and the symbols that match a list of patterns. *)
Variable symbol_name : SymbolTable -> Z -> string.
Variable find_matched_symbols : SymbolTable -> list string -> list string.

(** The body of the loop over the ranks. *)
Definition annotation_breakdown_of_rank (t : Trace) (idx : Z) (annotation : string)
    (duration_ratio : Q) (num_kernels : Z) (allowlist_names : option (list string))
    (rank : Z) (trace_df : list Event) : Call.M (list annotation_row) :=
  let gpu_user_annotation_kernels := filter (fun e => Ev.cat e =? idx) trace_df in
  do* Call.log Call.INFO
        ("rank = " ++ Call.str rank ++ ", num " ++ annotation ++ "s = "
         ++ Call.str (Z.of_nat (length gpu_user_annotation_kernels)))%string in
  match _aggr_gpu_kernel_time
          (map (fun e => (symbol_name (symbol_table t) (Ev.name e), Ev.dur e))
               gpu_user_annotation_kernels)
          num_kernels duration_ratio allowlist_names with
  | None => Call.raise "ValueError"
  | Some gpu_kernel_time =>
      Call.ret (map (fun r => {| a_row := r; a_rank := rank |}) gpu_kernel_time)
  end.

(** The order of [sort_values(by=["rank", "name"])]. *)
Definition rank_name_ltb (a b : annotation_row) : bool :=
  (a_rank a <? a_rank b)
  || ((a_rank a =? a_rank b) && String.ltb (Agg.name (a_row a)) (Agg.name (a_row b))).

(** [get_gpu_user_annotation_breakdown], without the charts: Python's
    [None] when the trace has no symbol for the annotation category. *)
Definition get_gpu_user_annotation_breakdown
    (t : Trace) (use_gpu_annotation : bool) (duration_ratio : Q) (num_kernels : Z)
    (allowlist_patterns : option (list string))
  : Call.M (option (list annotation_row)) :=
  let annotation :=
    if use_gpu_annotation then "gpu_user_annotation" else "user_annotation" in
  match sym_index (symbol_table t) !! annotation with
  | None =>
      do* Call.log Call.WARNING ("Trace does not contain any " ++ annotation)%string in
      Call.ret None
  | Some idx =>
      let allowlist_names :=
        option_map (find_matched_symbols (symbol_table t)) allowlist_patterns in
      let* all_kernel_df :=
        fold_left
          (fun acc '(rank, trace_df) =>
             let* all_kernel_df := acc in
             let* gpu_kernel_time :=
               annotation_breakdown_of_rank t idx annotation duration_ratio
                 num_kernels allowlist_names rank trace_df in
             Call.ret (all_kernel_df ++ gpu_kernel_time))
          (traces t) (Call.ret []) in
      Call.ret (Some (Pandas.sort_by rank_name_ltb all_kernel_df))
  end.
End AnnotationBreakdown.

(* --------------------------------------------------------------------- *)
(** ** [_get_idle_time_for_kernels] and [get_temporal_breakdown] *)

(** [merged.end.sum() - merged.ts.sum()] *)
Definition merged_time (merged : list interval) : Z :=
  Pandas.sum (map end_ merged) - Pandas.sum (map Utils.ts merged).

(** [(idle time, kernel time)]; [iloc] raises on an empty frame. *)
Definition _get_idle_time_for_kernels (kernels_df : list Event) : Call.M (Z * Z) :=
  let merged_kernels := merge_kernel_intervals kernels_df in
  match merged_kernels with
  | [] => Call.raise "IndexError"
  | first :: _ =>
      let kernel_time := end_ (last merged_kernels first) - Utils.ts first in
      let kernel_run_time := merged_time merged_kernels in
      Call.ret (kernel_time - kernel_run_time, kernel_time)
  end.

(** [assert cond] *)
Definition assert (cond : bool) : Call.M unit :=
  if cond then Call.ret tt else Call.raise "AssertionError".

(** The tuple [idle_time_per_rank] returns. *)
Record rank_times := mkRankTimes {
  idle_time : Z;
  compute_time : Z;
  comm_time : Z;
  mem_time : Z;
  non_compute_time : Z;
  kernel_time : Z
}.

(** A percentage column: [round(100 * (x / kernel_time), 2)]. *)
Definition pctg (x kernel_time : Z) : Pandas.fnum :=
  Pandas.fround2 (Pandas.fscale100 (Pandas.fdiv x kernel_time)).

Section Temporal.
(** [get_kernel_type(sym_table[name])]: [get_kernel_type]
    (hta/utils/utils.py) and the table [get_sym_table()] returns are not
    part of the sources at hand; the kernel type of a symbol id. *)
Variable kernel_type_of : SymbolTable -> Z -> string.

Definition idle_time_per_rank (t : Trace) (trace_df : list Event)
  : Call.M rank_times :=
  let gpu_kernels := filter (fun e => negb (Ev.stream e =? -1)) trace_df in
  let* times := _get_idle_time_for_kernels gpu_kernels in
  let '(idle_time, kernel_time) := times in
  let kernel_type e := kernel_type_of (symbol_table t) (Ev.name e) in
  let of_type k :=
    merge_kernel_intervals
      (filter (fun e => String.eqb (kernel_type e) (KernelType_name k)) gpu_kernels) in
  let comp_kernels := of_type COMPUTATION in
  let comm_kernels := of_type COMMUNICATION in
  let mem_kernels := of_type MEMORY in
  let compute_time := merged_time comp_kernels in
  let comm_time := merged_time comm_kernels in
  let mem_time := merged_time mem_kernels in
  let non_compute_time := kernel_time - compute_time - idle_time in
  do* assert (idle_time <=? kernel_time) in
  do* assert (compute_time <=? kernel_time) in
  do* assert (0 <=? non_compute_time) in
  do* assert (comm_time <=? kernel_time) in
  do* assert (mem_time <=? kernel_time) in
  Call.ret {| idle_time := idle_time; compute_time := compute_time;
              comm_time := comm_time; mem_time := mem_time;
              non_compute_time := non_compute_time; kernel_time := kernel_time |}.

(** A frame as its columns, in order. *)
Definition frame := list (string * list Pandas.cell).

(** [result[col].append(v)] on a [defaultdict(list)]. *)
Definition append_to (col : string) (v : Pandas.cell) (result : frame) : frame :=
  match Pandas.dict_get String.eqb col result with
  | Some vs => Pandas.dict_set String.eqb col (vs ++ [v]) result
  | None => Pandas.dict_set String.eqb col [v] result
  end.

(** [df[col]]: raises on a column that is not there. *)
Definition column (col : string) (df : frame) : Call.M (list Pandas.cell) :=
  match Pandas.dict_get String.eqb col df with
  | Some vs => Call.ret vs
  | None => Call.raise ("KeyError: '" ++ col ++ "'")%string
  end.

Definition cell_Z (c : Pandas.cell) : Z :=
  match c with
  | Pandas.Int z => z
  | Pandas.Float _ => 0
  end.

Definition cell_float (c : Pandas.cell) : Pandas.fnum :=
  match c with
  | Pandas.Int z => Pandas.Fin (inject_Z z)
  | Pandas.Float x => x
  end.

(** [df[ratio] = df[num] / df[den]] on two integer columns, then
    [df[ratio + "_pctg"] = round(100 * df[ratio], 2)]. *)
Definition add_ratio_and_pctg (ratio num den : string) (df : frame) : Call.M frame :=
  let* n := column num df in
  let* d := column den df in
  let quot := map (fun '(a, b) => Pandas.Float (Pandas.fdiv (cell_Z a) (cell_Z b)))
                  (combine n d) in
  let df := Pandas.dict_set String.eqb ratio quot df in
  let* r := column ratio df in
  Call.ret
    (Pandas.dict_set String.eqb (ratio ++ "_pctg")%string
       (map (fun x => Pandas.Float (Pandas.fround2 (Pandas.fscale100 (cell_float x)))) r)
       df).

(** [df[[col, ...]]] *)
Fixpoint select (cols : list string) (df : frame) : Call.M frame :=
  match cols with
  | [] => Call.ret []
  | c :: cols' =>
      let* vs := column c df in
      let* rest := select cols' df in
      Call.ret ((c, vs) :: rest)
  end.

(** The loop over the ranks: the dict of lists [result]. *)
Definition temporal_result (t : Trace) : Call.M frame :=
  fold_left
    (fun acc '(rank, trace_df) =>
       let* result := acc in
       let result := append_to "rank" (Pandas.Int rank) result in
       let* times := idle_time_per_rank t trace_df in
       let result := append_to "idle_time(us)" (Pandas.Int (idle_time times)) result in
       let result := append_to "compute_time(us)" (Pandas.Int (compute_time times)) result in
       let result :=
         append_to "non_compute_time(us)" (Pandas.Int (non_compute_time times)) result in
       let result := append_to "kernel_time(us)" (Pandas.Int (kernel_time times)) result in
       let result := append_to "comm_time(us)" (Pandas.Int (comm_time times)) result in
       let result := append_to "mem_time(us)" (Pandas.Int (mem_time times)) result in
       Call.ret result)
    (traces t) (Call.ret []).

(** [result_df] with the ratio and percentage columns. *)
Definition temporal_frame (t : Trace) : Call.M frame :=
  let* result_df := temporal_result t in
  let* result_df := add_ratio_and_pctg "idle_time" "idle_time(us)" "kernel_time(us)" result_df in
  let* result_df :=
    add_ratio_and_pctg "compute_time" "compute_time(us)" "kernel_time(us)" result_df in
  let* result_df := add_ratio_and_pctg "comm_time" "comm_time(us)" "kernel_time(us)" result_df in
  add_ratio_and_pctg "mem_time" "mem_time(us)" "kernel_time(us)" result_df.

(** [get_temporal_breakdown], without the chart. *)
Definition get_temporal_breakdown (t : Trace) : Call.M frame :=
  let* result_df := temporal_frame t in
  select [ "rank"; "idle_time(us)"; "compute_time(us)"; "comm_time(us)";
           "mem_time(us)"; "non_compute_time(us)"; "kernel_time(us)";
           "idle_time_pctg"; "compute_time_pctg"; "comm_time_pctg";
           "mem_time_pctg"; "non_compute_time_pctg" ]
         result_df.
End Temporal.

(* --------------------------------------------------------------------- *)
(** ** [get_gpu_kernel_breakdown] *)

(** [round(x, 1)] on a finite value and on a float cell. *)
Definition round1 (q : Q) : Q := Qred (inject_Z (Pandas.rint (q * 10)) / 10).

Definition fround1 (x : Pandas.fnum) : Pandas.fnum :=
  match x with
  | Pandas.Fin q => Pandas.Fin (round1 q)
  | other => other
  end.

(** A row of [all_kernel_df]: the aggregate with its [kernel_type] and
    [rank]. *)
Record kernel_info := mkKernelInfo {
  ki_row : Agg.row;
  ki_kernel_type : string;
  ki_rank : Z
}.

(** A row of [kernel_type_df]. *)
Module KType.
Record row := mkRow { kernel_type : string; sum : Z; percentage : Pandas.fnum }.
End KType.

(** The order of [sort_values(by=["kernel_type", "name", "rank"])]. *)
Definition kernel_info_ltb (a b : kernel_info) : bool :=
  String.ltb (ki_kernel_type a) (ki_kernel_type b)
  || (String.eqb (ki_kernel_type a) (ki_kernel_type b)
      && (String.ltb (Agg.name (ki_row a)) (Agg.name (ki_row b))
          || (String.eqb (Agg.name (ki_row a)) (Agg.name (ki_row b))
              && (ki_rank a <? ki_rank b)))).

Definition kernel_type_to_analysis (include_memory_kernels : bool) : list string :=
  [KernelType_name COMPUTATION; KernelType_name COMMUNICATION]
  ++ (if include_memory_kernels then [KernelType_name MEMORY] else []).

Section KernelBreakdown.
(** [get_kernel_type(sym_table[name])] and [sym_table[name]]:
    [get_kernel_type] (hta/utils/utils.py) and the table
    [get_sym_table()] returns are not part of the sources at hand; the kernel
    type and the name of a symbol id. *)
Variable kernel_type_of : SymbolTable -> Z -> string.
Variable symbol_name : SymbolTable -> Z -> string.

(** The frame [gpu_kernel_time] of a kernel type: the [name] and [dur] of
    the kernels of the type. *)
Definition kernels_of_type (t : Trace) (gpu_kernels : list Event)
    (kernel_type : string) : list (string * Z) :=
  map (fun e => (symbol_name (symbol_table t) (Ev.name e), Ev.dur e))
      (filter (fun e =>
                 String.eqb (kernel_type_of (symbol_table t) (Ev.name e)) kernel_type)
              gpu_kernels).

(** The loop over [kernel_type_to_analysis] for one rank: the rows appended
    to [all_kernel_df]; [None] when [_aggr_gpu_kernel_time] raises. *)
Definition kernel_info_of_rank (t : Trace) (duration_ratio : Q) (num_kernels : Z)
    (types : list string) (rank : Z) (gpu_kernels : list Event)
  : option (list kernel_info) :=
  fold_left
    (fun acc kernel_type =>
       match acc with
       | None => None
       | Some all_kernel_df =>
           match _aggr_gpu_kernel_time (kernels_of_type t gpu_kernels kernel_type)
                   num_kernels duration_ratio None with
           | None => None
           | Some gpu_kernel_time =>
               Some (all_kernel_df
                     ++ map (fun r => {| ki_row := r; ki_kernel_type := kernel_type;
                                         ki_rank := rank |})
                            gpu_kernel_time)
           end
       end)
    types (Some []).

(** One turn of the loop over the ranks, on [(kernel_type_df, all_kernel_df)]. *)
Definition kernel_breakdown_of_rank (t : Trace) (duration_ratio : Q) (num_kernels : Z)
    (types : list string)
    (acc : option (list (string * Z) * list kernel_info))
    (it : Z * list Event) : option (list (string * Z) * list kernel_info) :=
  match acc with
  | None => None
  | Some (kernel_type_df, all_kernel_df) =>
      let '(rank, trace_df) := it in
      let gpu_kernels := filter (fun e => negb (Ev.stream e =? -1)) trace_df in
      match _get_gpu_kernel_type_time
              (fun e => kernel_type_of (symbol_table t) (Ev.name e))
              gpu_kernels types with
      | None => None
      | Some type_time =>
          match kernel_info_of_rank t duration_ratio num_kernels types rank
                  gpu_kernels with
          | None => None
          | Some rows => Some (kernel_type_df ++ type_time, all_kernel_df ++ rows)
          end
      end
  end.

(** [get_gpu_kernel_breakdown], without the charts: the tables
    [(kernel_type_df, all_kernel_df)], or [None] when the call raises. *)
Definition get_gpu_kernel_breakdown (t : Trace) (duration_ratio : Q)
    (num_kernels : Z) (include_memory_kernels : bool)
  : option (list KType.row * list kernel_info) :=
  let types := kernel_type_to_analysis include_memory_kernels in
  match fold_left (kernel_breakdown_of_rank t duration_ratio num_kernels types)
                  (traces t) (Some ([], [])) with
  | None => None
  | Some (kernel_type_df, all_kernel_df) =>
      let kernel_type_df :=
        Pandas.sort_values_desc snd
          (map (fun '(k, vs) => (k, Pandas.sum vs)) (Pandas.groupby kernel_type_df)) in
      let total := Pandas.sum (map snd kernel_type_df) in
      Some (map (fun '(k, s) =>
                   {| KType.kernel_type := k; KType.sum := s;
                      KType.percentage :=
                        fround1 (Pandas.fscale100 (Pandas.fdiv s total)) |})
                kernel_type_df,
            Pandas.sort_by kernel_info_ltb all_kernel_df)
  end.
End KernelBreakdown.


End BreakdownAnalysis.

(* ===================================================================== *)
(** * Notions used to state the properties *)
(* ===================================================================== *)

Module Props.
Import Utils Cover BreakdownAnalysis.

(** Rows in ascending order of a key. *)
Definition key_le {A} (key : A -> Z) (x y : A) : Prop := key x <= key y.

(** The sum of the group sums of a grouped integer column. *)
Definition groups_total (gs : list (string * list Z)) : Z :=
  Pandas.sum (map (fun '(_, vs) => Pandas.sum vs) gs).

(** The sum of the flags of the sweep rows at or before time [t]. *)
Definition depth (df : list sweep_row) (t : Z) : Z :=
  Pandas.sum (map status (filter (fun r => time r <=? t) df)).

(** The number of intervals that hold [t]. *)
Definition cover_count (ivs : list interval) (t : Z) : Z :=
  Pandas.sum (map (fun iv => if contains iv t then 1 else 0) ivs).

(** The frame of [segments], row by row, from a running value [acc]. *)
Fixpoint segments_from (acc : Z) (df : list sweep_row) : list segment :=
  match df with
  | [] => []
  | r :: df' =>
      {| seg_time := time r; running := acc + status r;
         next_time := option_map time (head df'); seg_kernel_type := "" |}
      :: segments_from (acc + status r) df'
  end.

(** The time a frame of segments adds up to: [next_time - time] over its
    rows, a row without a next time counting for nothing. *)
Definition segments_total (df : list segment) : Z :=
  Pandas.sum (map (fun s => match next_time s with
                            | Some nt => nt - seg_time s
                            | None => 0
                            end) df).

(** The flags of all categories, unsorted: category [idx] carries [1 << idx]. *)
Fixpoint all_events_from (idx : nat) (merged : list (string * list interval))
  : list sweep_row :=
  match merged with
  | [] => []
  | (_, ivs) :: merged' =>
      melt (Z.shiftl 1 (Z.of_nat idx)) ivs ++ all_events_from (S idx) merged'
  end.

(** All intervals of all categories. *)
Definition all_intervals (merged : list (string * list interval)) : list interval :=
  concat (map snd merged).

(** The values of the rows with key [k], in row order. *)
Definition values_of {A} (k : string) (rows : list (string * A)) : list A :=
  map snd (filter (fun r => String.eqb (fst r) k) rows).

(** The number of distinct names of a frame of [(name, dur)] samples. *)
Definition distinct_names (gpu_kernel_time : list (string * Z)) : nat :=
  length (Pandas.unique String.eqb (map fst gpu_kernel_time)).

(** A row after the renaming: itself, or itself under the name "others". *)
Definition renamed (r r' : Agg.row) : Prop :=
  r' = r \/ r' = set_name "others" r.

(** A time stamp that a float64 holds exactly, as it holds the difference
    of two such time stamps. *)
Definition float_exact (t : Z) : Prop := 0 <= t <= 2 ^ 53.

(** Frames whose intervals start and end at such time stamps. *)
Definition float_exact_frames (merged : list (string * list interval)) : Prop :=
  Forall (fun iv => float_exact (Utils.ts iv) /\ float_exact (end_ iv))
         (all_intervals merged).

(** Kernels that start and end at such time stamps. *)
Definition float_exact_kernels (kernels : list Event) : Prop :=
  Forall (fun e => float_exact (Ev.ts e) /\ float_exact (Ev.ts e + Ev.dur e)) kernels.

(** Durations no sum of which leaves int64: their magnitudes add up to less
    than [2^63]. *)
Definition int64_safe (durs : list Z) : Prop :=
  Pandas.sum (map Z.abs durs) < 2 ^ 63.

End Props.


Module SweepProps.
Import Utils Cover BreakdownAnalysis.

(** The time of the first and of the last row of a sweep frame. *)
Definition first_time (df : list sweep_row) : Z :=
  match df with
  | [] => 0
  | r :: _ => time r
  end.

Definition last_time (df : list sweep_row) : Z :=
  time (last df {| status := 0; time := 0 |}).

(** A segment is kept by the filter on [running]. *)
Definition active (s : segment) : bool := 0 <? running s.

End SweepProps.




Module IdleProps.
Import Utils BreakdownAnalysis.

Definition IdleTimeType_eqb (a b : IdleTimeType) : bool :=
  match a, b with
  | HOST_WAIT, HOST_WAIT | KERNEL_WAIT, KERNEL_WAIT | OTHER, OTHER => true
  | _, _ => false
  end.

(** The gap between a kernel and the one before it in start order,
    [start - previous.end], with the category it is classified in. *)
Definition gap_of (consecutive_kernel_delay : Z) (prev k : joined)
  : IdleTimeType * Z :=
  let prev_end := Ev.ts (kernel prev) + Ev.dur (kernel prev) in
  let gap := Ev.ts (kernel k) - prev_end in
  (classify consecutive_kernel_delay (ts_runtime k) (Some prev_end) (Some gap), gap).

(** The gaps of all pairs of consecutive kernels of a start-sorted list. *)
Fixpoint pair_gaps (consecutive_kernel_delay : Z) (prev : joined) (l : list joined)
  : list (IdleTimeType * Z) :=
  match l with
  | [] => []
  | k :: l' =>
      gap_of consecutive_kernel_delay prev k :: pair_gaps consecutive_kernel_delay k l'
  end.

(** The gaps of the consecutive start-sorted kernels of a stream. *)
Definition stream_gaps (stream : Z) (gpu_kernels : list joined)
    (consecutive_kernel_delay : Z) : list (IdleTimeType * Z) :=
  match Pandas.sort_values (fun k => Ev.ts (kernel k))
          (filter (fun k => Ev.stream (kernel k) =? stream) gpu_kernels) with
  | [] => []
  | k :: l => pair_gaps consecutive_kernel_delay k l
  end.

(** The sum of all gaps of a category, whatever their sign. *)
Definition gap_total (c : IdleTimeType) (gaps : list (IdleTimeType * Z)) : Z :=
  Pandas.sum (map snd (filter (fun g => IdleTimeType_eqb (fst g) c) gaps)).

(** The sum of the positive gaps of a category: the total if the
    non-positive gaps were skipped. *)
Definition positive_gap_total (c : IdleTimeType) (gaps : list (IdleTimeType * Z)) : Z :=
  Pandas.sum (map snd (filter (fun g => IdleTimeType_eqb (fst g) c && (0 <? snd g)) gaps)).

(** The idle time a breakdown reports for a category; a category without a
    row has none. *)
Definition idle_time_of (c : IdleTimeType) (result : list Idle.row) : Z :=
  match find (fun r => String.eqb (Idle.idle_category r) (IdleTimeType_name c)) result with
  | Some r => Idle.idle_time r
  | None => 0
  end.

(** The rows after the first: every kernel with the end of the one before. *)
Fixpoint pair_rows (consecutive_kernel_delay : Z) (prev : joined) (l : list joined)
  : list idle_row :=
  match l with
  | [] => []
  | k :: l' =>
      let p := Ev.ts (kernel prev) + Ev.dur (kernel prev) in
      {| ir_kernel := k; end_ts := Ev.ts (kernel k) + Ev.dur (kernel k);
         prev_end_ts := Some p;
         idle_interval := Some (Ev.ts (kernel k) - p);
         idle_category :=
           classify consecutive_kernel_delay (ts_runtime k) (Some p)
                    (Some (Ev.ts (kernel k) - p)) |}
      :: pair_rows consecutive_kernel_delay k l'
  end.

(** The quotient of an idle time by a total of zero. *)
Definition ratio_over_zero (idle_time : Z) : Pandas.fnum :=
  if idle_time =? 0 then Pandas.NaN
  else if 0 <? idle_time then Pandas.PosInf else Pandas.NegInf.

End IdleProps.


Module AnnotationProps.
Import BreakdownAnalysis.

(** An annotation is in the kernel's [(pid, tid)] and overlaps it. *)
Definition matches (e a : Event) : bool :=
  (Ev.pid e =? Ev.pid a) && (Ev.tid e =? Ev.tid a) && overlaps e a.

(** The name of the last annotation of a frame that matches the kernel, or
    the annotation the kernel has when none does. *)
Definition annotate (e : Event) (ua : Z) (gpu_user_anno_df : list Event) : Z :=
  fold_left (fun ua a => if matches e a then Ev.name a else ua) gpu_user_anno_df ua.

(** The condition of the assignment for the [(pid, tid)] pair [p]. *)
Definition assigned (p : Z * Z) (e a : Event) : bool :=
  (Ev.pid e =? fst p) && (Ev.tid e =? snd p) && overlaps e a.

(** The loops of the association, followed on one kernel. *)
Definition annotate_loops (e : Event) (ua : Z) (gpu_user_anno_df : list Event) : Z :=
  fold_left
    (fun ua p =>
       fold_left (fun ua a => if assigned p e a then Ev.name a else ua)
                 (query_pid_tid p gpu_user_anno_df) ua)
    (pid_tids_of gpu_user_anno_df) ua.

(** The category the annotation analysis asks for. *)
Definition annotation_category (use_gpu_annotation : bool) : string :=
  if use_gpu_annotation then "gpu_user_annotation" else "user_annotation".

End AnnotationProps.


Module TemporalProps.
Import BreakdownAnalysis.

(** The frame has no column [non_compute_time_pctg]. *)
Definition lacks_non_compute_pctg (df : frame) : Prop :=
  Pandas.dict_get String.eqb "non_compute_time_pctg" df = None.

(** A percentage between 0 and 100. *)
Definition is_percentage (x : Pandas.fnum) : Prop :=
  exists q, x = Pandas.Fin q /\ (0 <= q)%Q /\ (q <= 100)%Q.

End TemporalProps.


Module TopKProps.
Import BreakdownAnalysis.

(** The two renamings of [rename_others], row by row: [i] is the index of
    the first row and [acc] the cumulative sum before it. *)
Fixpoint rename_rows (allowlist_names : option (list string)) (num_kernels : Z)
    (quantiles : option Q) (i : nat) (acc : Z) (df : list Agg.row) : list Agg.row :=
  match df with
  | [] => []
  | r :: df' =>
      let c := acc + Agg.sum r in
      let k := keep_idx allowlist_names r in
      let r1 :=
        if negb k
           && match quantiles with
              | Some q => Pandas.Qlt_bool q (inject_Z c)
              | None => false
              end
        then set_name "others" r else r in
      let r2 :=
        if negb k && (num_kernels <=? Z.of_nat i) then set_name "others" r1 else r1 in
      r2 :: rename_rows allowlist_names num_kernels quantiles (S i) c df'
  end.

(** Rows in descending order of [sum]. *)
Definition sum_ge (a b : Agg.row) : Prop := Agg.sum b <= Agg.sum a.

End TopKProps.


Module LabelProps.
Import Utils BreakdownAnalysis.

(** The label of a list of category names: the names joined by
    " overlapping ", the empty string for no name. *)
Definition join_overlapping (names : list string) : string :=
  match names with
  | [] => ""
  | n :: rest =>
      fold_left (fun acc k => (acc ++ " overlapping " ++ k)%string) rest n
  end.

(** The names of a mapping whose flag meets a running value. *)
Definition flagged (u : Z) (kernel_t_mapping : list (string * Z)) : list string :=
  map fst (filter (fun kv => negb (Z.land u (snd kv) =? 0)) kernel_t_mapping).

(** The names of the categories whose bit is set in a running value, in the
    order of [kernel_type_to_analysis]. *)
Definition active_categories (merged : list (string * list interval)) (u : Z)
  : list string :=
  map (fun it => fst (snd it))
      (filter (fun it => Z.testbit u (Z.of_nat (fst it))) (enumerate merged)).

Definition with_label (label : string) (s : segment) : segment :=
  {| seg_time := seg_time s; running := running s;
     next_time := next_time s; seg_kernel_type := label |}.

(** One turn of the loop over [kernel_t_mapping.items()], seen from the
    entry of [u] in [running_mapping]. *)
Definition label_step (u : Z) (o : option string) (kv : string * Z)
  : option string :=
  if Z.land u (snd kv) =? 0 then o
  else Some (match o with
             | None => fst kv
             | Some old => (old ++ " overlapping " ++ fst kv)%string
             end).

(** The time of a row of the labelled frame. *)
Definition labelled_durations (merged : list (string * list interval))
  : option (list (string * Z)) :=
  durations
    (map (fun s =>
            with_label (join_overlapping (active_categories merged (running s))) s)
         (active_segments merged)).

End LabelProps.



Module StreamProps.
Import Utils BreakdownAnalysis.

(** The kernels of a stream in start order. *)
Definition stream_kernels (stream : Z) (gpu_kernels : list joined) : list joined :=
  Pandas.sort_values (fun k => Ev.ts (kernel k))
    (filter (fun k => Ev.stream (kernel k) =? stream) gpu_kernels).

(** The sum of a column of finite cells; [None] when a cell is not finite. *)
Fixpoint finite_sum (l : list Pandas.fnum) : option Q :=
  match l with
  | [] => Some 0%Q
  | Pandas.Fin q :: l' => option_map (Qplus q) (finite_sum l')
  | _ :: _ => None
  end.

(** The sum of the group sums of a grouped float column. *)
Definition groups_nantotal (gs : list (string * list (option Z))) : Z :=
  Pandas.sum (map (fun '(_, vs) => Pandas.nansum vs) gs).

(** The streams of the kernels of a frame. *)
Definition streams_of (gpu_kernels : list joined) : list Z :=
  map (fun k => Ev.stream (kernel k)) gpu_kernels.

End StreamProps.



Module KernelBreakdownProps.
Import Utils BreakdownAnalysis.

(** The GPU kernels of a rank: the events on a stream. *)
Definition gpu_kernels_of (trace_df : list Event) : list Event :=
  filter (fun e => negb (Ev.stream e =? -1)) trace_df.

(** The time the kernel-type table of one rank adds up to. *)
Definition rank_type_total (kernel_type_of : SymbolTable -> Z -> string)
    (t : Trace) (types : list string) (trace_df : list Event) : Z :=
  match _get_gpu_kernel_type_time
          (fun e => kernel_type_of (symbol_table t) (Ev.name e))
          (gpu_kernels_of trace_df) types with
  | Some type_time => Pandas.sum (map snd type_time)
  | None => 0
  end.

(** The rows of a table for one rank and one kernel type. *)
Definition rows_of (rank : Z) (kernel_type : string) (df : list kernel_info)
  : list kernel_info :=
  filter (fun r => (ki_rank r =? rank) && String.eqb (ki_kernel_type r) kernel_type)
         df.

(** The total duration of the GPU kernels of a type. *)
Definition type_duration (kernel_type_of : SymbolTable -> Z -> string)
    (t : Trace) (kernel_type : string) (trace_df : list Event) : Z :=
  Pandas.sum
    (map Ev.dur
       (filter (fun e =>
                  String.eqb (kernel_type_of (symbol_table t) (Ev.name e)) kernel_type)
               (gpu_kernels_of trace_df))).

(** Rows in descending order of [sum]. *)
Definition ktype_ge (a b : KType.row) : Prop := KType.sum b <= KType.sum a.

(** The rows a rank adds to [all_kernel_df] for one kernel type, and for
    all the types; a call that raises adds none. *)
Definition type_rows (symbol_name kernel_type_of : SymbolTable -> Z -> string)
    (t : Trace) (duration_ratio : Q) (num_kernels : Z) (rank : Z)
    (gpu_kernels : list Event) (kernel_type : string) : list kernel_info :=
  match _aggr_gpu_kernel_time
          (kernels_of_type kernel_type_of symbol_name t gpu_kernels kernel_type)
          num_kernels duration_ratio None with
  | Some df =>
      map (fun r => {| ki_row := r; ki_kernel_type := kernel_type; ki_rank := rank |}) df
  | None => []
  end.

Definition rank_rows (symbol_name kernel_type_of : SymbolTable -> Z -> string)
    (t : Trace) (duration_ratio : Q) (num_kernels : Z) (types : list string)
    (it : Z * list Event) : list kernel_info :=
  concat (map (type_rows symbol_name kernel_type_of t duration_ratio num_kernels
                 (fst it) (gpu_kernels_of (snd it)))
              types).

(** The kernel-type table of one rank; empty when the call raises. *)
Definition rank_type_time (kernel_type_of : SymbolTable -> Z -> string)
    (t : Trace) (types : list string) (trace_df : list Event) : list (string * Z) :=
  match _get_gpu_kernel_type_time
          (fun e => kernel_type_of (symbol_table t) (Ev.name e))
          (gpu_kernels_of trace_df) types with
  | Some type_time => type_time
  | None => []
  end.


(** The rows a rank adds to the table of the user annotations; a call that
    raises adds none. *)
Definition annotation_rows (symbol_name : SymbolTable -> Z -> string)
    (t : Trace) (idx : Z) (duration_ratio : Q) (num_kernels : Z)
    (allowlist_names : option (list string)) (it : Z * list Event)
  : list annotation_row :=
  match _aggr_gpu_kernel_time
          (map (fun e => (symbol_name (symbol_table t) (Ev.name e), Ev.dur e))
               (filter (fun e => Ev.cat e =? idx) (snd it)))
          num_kernels duration_ratio allowlist_names with
  | Some df => map (fun r => {| a_row := r; a_rank := fst it |}) df
  | None => []
  end.


End KernelBreakdownProps.



(* ===================================================================== *)
(** * Sample inputs *)
(* ===================================================================== *)

Module Samples.
Import Utils.

(** Computation on [0,10) and [20,30), communication on [5,25). *)
Definition two_categories : list (string * list interval) :=
  [("COMPUTATION", [mkInterval 0 10; mkInterval 20 30]);
   ("COMMUNICATION", [mkInterval 5 25])].

(** Computation from [2^53] to [2^53 + 3]. *)
Definition late_category : list (string * list interval) :=
  [("COMPUTATION", [mkInterval (2 ^ 53) (2 ^ 53 + 3)])].

(** Kernel "a" once for 100, kernels "b" and "c" twice each for 3 and 2. *)
Definition three_names : list (string * Z) :=
  [("a", 100); ("b", 3); ("b", 3); ("c", 2); ("c", 2)].


(** A kernel on stream 7 from [ts] for [dur], launched by the runtime event
    with index [corr]. *)
Definition kernel7 (idx ts dur corr : Z) : Event :=
  {| Ev.index := idx; Ev.cat := 1; Ev.name := 0; Ev.pid := 0; Ev.tid := 7;
     Ev.ts := ts; Ev.dur := dur; Ev.stream := 7; Ev.index_correlation := corr |}.

(** Kernels [0,100) and [50,150) on stream 7: the second starts before the
    first has ended, and its launch at 40 is no host wait. *)
Definition overlapping_kernels : list BreakdownAnalysis.joined :=
  [ BreakdownAnalysis.mkJoined (kernel7 10 0 100 0) (Some (-5));
    BreakdownAnalysis.mkJoined (kernel7 11 50 100 1) (Some 40) ].

(** Kernels [0,100), [50,150) and [200,300) on stream 7: a gap of -50
    classified as kernel wait and a gap of 50 classified as host wait. *)
Definition cancelling_kernels : list BreakdownAnalysis.joined :=
  [ BreakdownAnalysis.mkJoined (kernel7 10 0 100 0) (Some (-5));
    BreakdownAnalysis.mkJoined (kernel7 11 50 100 1) (Some 40);
    BreakdownAnalysis.mkJoined (kernel7 12 200 100 2) (Some 160) ].

(** A single kernel [0,100) on stream 7. *)
Definition single_kernel : list BreakdownAnalysis.joined :=
  [ BreakdownAnalysis.mkJoined (kernel7 10 0 100 0) (Some (-5)) ].


(** A runtime event (not on a stream) with index [idx] at [ts]. *)
Definition runtime (idx ts : Z) : Event :=
  {| Ev.index := idx; Ev.cat := 2; Ev.name := 1; Ev.pid := 0; Ev.tid := 0;
     Ev.ts := ts; Ev.dur := 1; Ev.stream := -1; Ev.index_correlation := -1 |}.

(** Rank 0 with the three kernels of [cancelling_kernels] and the runtime
    events that launch them. *)
Definition cancelling_trace : Trace :=
  {| symbol_table :=
       {| sym_index := <["kernel" := 1]> (<["cuda_runtime" := 2]> ∅);
          sym_table := ["k"; "cudaLaunchKernel"] |};
     traces := [(0, [ runtime 0 (-5); runtime 1 40; runtime 2 160;
                      kernel7 10 0 100 0; kernel7 11 50 100 1;
                      kernel7 12 200 100 2 ])] |}.


(** An event of category [cat] named [name] on [(pid, tid)] from [ts] for
    [dur]. *)
Definition event (cat name pid tid ts dur : Z) : Event :=
  {| Ev.index := 0; Ev.cat := cat; Ev.name := name; Ev.pid := pid; Ev.tid := tid;
     Ev.ts := ts; Ev.dur := dur; Ev.stream := tid; Ev.index_correlation := -1 |}.

(** Symbols: 0 "kernel", 1 "gpu_user_annotation", 2 "K", 3 "A", 4 "B". *)
Definition annotated_symbols : SymbolTable :=
  {| sym_index :=
       <["kernel" := 0]> (<["gpu_user_annotation" := 1]>
         (<["K" := 2]> (<["A" := 3]> (<["B" := 4]> ∅))));
     sym_table := ["kernel"; "gpu_user_annotation"; "K"; "A"; "B"] |}.

(** Annotation A on [0,1000), annotation B on [100,200) and kernel K on
    [120,150), all on [(pid, tid) = (0, 7)]; B is listed first. *)
Definition nested_annotations : list Event :=
  [ event 1 4 0 7 100 100; event 1 3 0 7 0 1000; event 0 2 0 7 120 30 ].

Definition nested_trace : Trace :=
  {| symbol_table := annotated_symbols; traces := [(0, nested_annotations)] |}.

(** The same kernel in a trace whose symbol table has no annotation
    category. *)
Definition plain_trace : Trace :=
  {| symbol_table :=
       {| sym_index := <["kernel" := 0]> (<["K" := 2]> ∅);
          sym_table := ["kernel"; ""; "K"] |};
     traces := [(0, [event 0 2 0 7 120 30])] |}.

(** The events of the kernel category. *)
Definition kernel_category (st : SymbolTable) (e : Event) : bool :=
  match sym_index st !! "kernel" with
  | Some id => Ev.cat e =? id
  | None => false
  end.

Definition no_decoding (st : SymbolTable) (shorten : bool)
    (df : list BreakdownAnalysis.kernel_row) : list BreakdownAnalysis.kernel_row := df.

Definition name_of_symbol (st : SymbolTable) (id : Z) : string :=
  nth (Z.to_nat id) (sym_table st) "".

Definition no_matches (st : SymbolTable) (patterns : list string) : list string := [].


(** Symbols 0 to 2 name a computation, a communication and a memory kernel. *)
Definition type_of_symbol (st : SymbolTable) (id : Z) : string :=
  if id =? 0 then "COMPUTATION"
  else if id =? 1 then "COMMUNICATION"
  else if id =? 2 then "MEMORY" else "".

(** A kernel named [name] on stream 7 from [ts] for [dur]. *)
Definition gpu_kernel (name ts dur : Z) : Event :=
  {| Ev.index := 0; Ev.cat := 0; Ev.name := name; Ev.pid := 0; Ev.tid := 7;
     Ev.ts := ts; Ev.dur := dur; Ev.stream := 7; Ev.index_correlation := -1 |}.

(** Rank 0: computation on [0,10) and [20,30), communication on [5,25),
    a memory copy on [40,50). *)
Definition busy_rank : list Event :=
  [ gpu_kernel 0 0 10; gpu_kernel 1 5 20; gpu_kernel 0 20 10; gpu_kernel 2 40 10 ].

Definition busy_trace : Trace :=
  {| symbol_table := {| sym_index := ∅; sym_table := [] |};
     traces := [(0, busy_rank)] |}.

(** Rank 0 with a single kernel of duration zero. *)
Definition instant_rank : list Event := [ gpu_kernel 0 5 0 ].

Definition instant_trace : Trace :=
  {| symbol_table := {| sym_index := ∅; sym_table := [] |};
     traces := [(0, instant_rank)] |}.


(** The allow list of the sample: "c" is exempt from the collapse. *)
Definition allow_c : option (list string) := Some ["c"].


End Samples.

(* ===================================================================== *)
(** * Proofs *)
(* ===================================================================== *)

Import Utils Cover BreakdownAnalysis Props.

(* --------------------------------------------------------------------- *)
(** ** int64 sums and float64 time stamps *)

Lemma wrap64_small z : - 2 ^ 63 <= z < 2 ^ 63 -> Pandas.wrap64 z = z.
Proof.
  intros H. unfold Pandas.wrap64. rewrite Z.mod_small; lia.
Qed.

Lemma wrap64_range z : - 2 ^ 63 <= Pandas.wrap64 z < 2 ^ 63.
Proof.
  unfold Pandas.wrap64.
  pose proof (Z.mod_pos_bound (z + 2 ^ 63) (2 ^ 64) ltac:(lia)). lia.
Qed.

Lemma wrap64_idem z : Pandas.wrap64 (Pandas.wrap64 z) = Pandas.wrap64 z.
Proof. apply wrap64_small, wrap64_range. Qed.

Lemma round_half_even_bounds a m :
  0 < m -> a / m <= Pandas.round_half_even a m <= a / m + 1.
Proof.
  intros Hm. unfold Pandas.round_half_even.
  destruct (2 * (a mod m) <? m); [lia|].
  destruct (m <? 2 * (a mod m)); [lia|].
  destruct (Z.even (a / m)); lia.
Qed.

Lemma round_half_even_exact q m : 0 < m -> Pandas.round_half_even (q * m) m = q.
Proof.
  intros Hm. unfold Pandas.round_half_even.
  rewrite Z.div_mul, Z.mod_mul by lia.
  destruct (Z.ltb_spec (2 * 0) m); [reflexivity | lia].
Qed.

Lemma round_half_even_mono a b m :
  0 < m -> a <= b -> Pandas.round_half_even a m <= Pandas.round_half_even b m.
Proof.
  intros Hm Hab.
  pose proof (Z.div_le_mono a b m Hm Hab) as Hq.
  destruct (Z.eq_dec (a / m) (b / m)) as [E|Hne].
  - pose proof (Z.div_mod a m ltac:(lia)) as Ha.
    pose proof (Z.div_mod b m ltac:(lia)) as Hb.
    assert (Hr : a mod m <= b mod m) by (rewrite E in Ha; lia).
    unfold Pandas.round_half_even. rewrite E.
    destruct (Z.ltb_spec (2 * (a mod m)) m), (Z.ltb_spec (2 * (b mod m)) m); try lia;
      destruct (Z.ltb_spec m (2 * (a mod m))), (Z.ltb_spec m (2 * (b mod m))); try lia;
      destruct (Z.even (b / m)); lia.
  - pose proof (round_half_even_bounds a m Hm).
    pose proof (round_half_even_bounds b m Hm). lia.
Qed.

Lemma f64_opp z : Pandas.f64 (- z) = - Pandas.f64 z.
Proof.
  unfold Pandas.f64. rewrite Z.abs_opp, Z.sgn_opp.
  destruct (Z.log2 (Z.abs z) - 52 <=? 0); lia.
Qed.

(** A float64 holds every integer up to [2^53] exactly. *)
Lemma f64_small z : Z.abs z <= 2 ^ 53 -> Pandas.f64 z = z.
Proof.
  intros H. unfold Pandas.f64.
  destruct (Z.leb_spec (Z.log2 (Z.abs z) - 52) 0) as [|He]; [reflexivity|].
  assert (Hpos : 0 < Z.abs z).
  { destruct (Z.eq_dec (Z.abs z) 0) as [E|]; [rewrite E in He; cbn in He; lia | lia]. }
  pose proof (Z.log2_spec _ Hpos) as [Hlo _].
  assert (Hl : Z.log2 (Z.abs z) = 53).
  { pose proof (Z.log2_le_mono _ _ H) as Hm. rewrite Z.log2_pow2 in Hm by lia. lia. }
  rewrite Hl in *. change (53 - 52) with 1. change (2 ^ 1) with 2.
  assert (Ea : Z.abs z = 2 ^ 52 * 2) by lia.
  rewrite Ea, round_half_even_exact by lia. lia.
Qed.

(** For a positive integer the float lies in the binade of the integer. *)
Lemma f64_binade a :
  0 < a -> 2 ^ Z.log2 a <= Pandas.f64 a <= 2 ^ (Z.log2 a + 1).
Proof.
  intros Hpos. pose proof (Z.log2_spec _ Hpos) as [Hlo Hhi].
  rewrite <- Z.add_1_r in Hhi.
  unfold Pandas.f64. rewrite (Z.abs_eq a), (Z.sgn_pos a) by lia.
  destruct (Z.leb_spec (Z.log2 a - 52) 0) as [|He]; [lia|].
  set (e := Z.log2 a - 52) in *. set (m := 2 ^ e).
  assert (Hm : 0 < m) by (apply Z.pow_pos_nonneg; lia).
  assert (El : 2 ^ Z.log2 a = 2 ^ 52 * m).
  { unfold m. rewrite <- Z.pow_add_r by lia. f_equal. lia. }
  assert (El1 : 2 ^ (Z.log2 a + 1) = 2 ^ 53 * m).
  { unfold m. rewrite <- Z.pow_add_r by lia. f_equal. lia. }
  rewrite El, El1 in *.
  pose proof (round_half_even_bounds a m Hm) as [Hb1 Hb2].
  assert (Hq1 : 2 ^ 52 <= a / m) by (apply Z.div_le_lower_bound; lia).
  assert (Hq2 : a / m < 2 ^ 53) by (apply Z.div_lt_upper_bound; lia).
  nia.
Qed.

Lemma f64_mono_pos a b : 0 <= a <= b -> Pandas.f64 a <= Pandas.f64 b.
Proof.
  intros [Ha Hab].
  destruct (Z.eq_dec a 0) as [->|Hne].
  - change (Pandas.f64 0) with 0.
    destruct (Z.eq_dec b 0) as [->|]; [reflexivity|].
    pose proof (f64_binade b ltac:(lia)) as [H _].
    pose proof (Z.pow_pos_nonneg 2 (Z.log2 b) ltac:(lia) (Z.log2_nonneg b)). lia.
  - assert (Hpa : 0 < a) by lia. assert (Hpb : 0 < b) by lia.
    pose proof (Z.log2_le_mono a b Hab) as Hl.
    destruct (Z.eq_dec (Z.log2 a) (Z.log2 b)) as [E|Hl'].
    + unfold Pandas.f64. rewrite !Z.abs_eq, !Z.sgn_pos, E by lia.
      destruct (Z.leb_spec (Z.log2 b - 52) 0) as [|He]; [lia|].
      assert (Hm : 0 < 2 ^ (Z.log2 b - 52)) by (apply Z.pow_pos_nonneg; lia).
      pose proof (round_half_even_mono a b _ Hm Hab). nia.
    + pose proof (f64_binade a Hpa) as [_ H1].
      pose proof (f64_binade b Hpb) as [H2 _].
      assert (2 ^ (Z.log2 a + 1) <= 2 ^ Z.log2 b).
      { apply Z.pow_le_mono_r; lia. }
      lia.
Qed.

Lemma f64_nonneg a : 0 <= a -> 0 <= Pandas.f64 a.
Proof. intros H. change 0 with (Pandas.f64 0) at 1. apply f64_mono_pos. lia. Qed.

(** Rounding to the nearest float keeps the order. *)
Lemma f64_mono a b : a <= b -> Pandas.f64 a <= Pandas.f64 b.
Proof.
  intros Hab.
  destruct (Z.le_gt_cases 0 a) as [Ha|Ha].
  - apply f64_mono_pos. lia.
  - destruct (Z.le_gt_cases 0 b) as [Hb|Hb].
    + pose proof (f64_nonneg b Hb).
      pose proof (f64_nonneg (- a) ltac:(lia)) as H'. rewrite f64_opp in H'. lia.
    + pose proof (f64_mono_pos (- b) (- a) ltac:(lia)) as H'.
      rewrite !f64_opp in H'. lia.
Qed.

(** The duration read through float64: never negative for a next time that
    is not earlier, and the exact difference for time stamps a float holds. *)
Lemma float_duration_nonneg nt t : t <= nt -> 0 <= float_duration nt t.
Proof.
  intros H. unfold float_duration. apply f64_nonneg.
  pose proof (f64_mono _ _ H). lia.
Qed.

Lemma float_duration_exact nt t :
  float_exact t -> float_exact nt -> float_duration nt t = nt - t.
Proof.
  unfold float_exact, float_duration. intros Ht Hnt.
  rewrite (f64_small nt), (f64_small t), f64_small; lia.
Qed.

(** The sums of a part of the durations stay within int64. *)
Lemma sum_abs_bound (l : list Z) : Z.abs (Pandas.sum l) <= Pandas.sum (map Z.abs l).
Proof.
  unfold Pandas.sum. induction l as [|x l IH]; cbn [map fold_right]; lia.
Qed.

Lemma sum_abs_nonneg (l : list Z) : 0 <= Pandas.sum (map Z.abs l).
Proof.
  unfold Pandas.sum. induction l as [|x l IH]; cbn [map fold_right]; lia.
Qed.

Lemma sum64_exact (l : list Z) : int64_safe l -> Pandas.sum64 l = Pandas.sum l.
Proof.
  unfold int64_safe, Pandas.sum64. intros H. apply wrap64_small.
  pose proof (sum_abs_bound l). lia.
Qed.

(* --------------------------------------------------------------------- *)
(** ** Sorting and grouping *)

Section SortFacts.
Context {A : Type} (key : A -> Z).

Lemma insert_by_perm x l : Permutation (Pandas.insert_by key x l) (x :: l).
Proof.
  induction l as [|y l IH]; simpl; [reflexivity|].
  destruct (key y <? key x); [|reflexivity].
  rewrite IH. apply perm_swap.
Qed.

Lemma sort_values_perm l : Permutation (Pandas.sort_values key l) l.
Proof.
  induction l as [|x l IH]; simpl; [reflexivity|].
  rewrite insert_by_perm. now constructor.
Qed.

Lemma insert_by_sorted x l :
  StronglySorted (key_le key) l -> StronglySorted (key_le key) (Pandas.insert_by key x l).
Proof.
  induction l as [|y l IH]; intros Hs; simpl.
  - constructor; constructor.
  - inversion Hs as [|? ? Hs' Hall]; subst.
    destruct (key y <? key x) eqn:E.
    + constructor; [now apply IH|].
      apply Z.ltb_lt in E.
      eapply Permutation_Forall; [symmetry; apply insert_by_perm|].
      constructor; [unfold key_le; lia | exact Hall].
    + apply Z.ltb_ge in E.
      constructor; [exact Hs|].
      constructor; [exact E|].
      eapply Forall_impl; [|exact Hall].
      unfold key_le; intros; lia.
Qed.

Lemma sort_values_sorted l : StronglySorted (key_le key) (Pandas.sort_values key l).
Proof.
  induction l as [|x l IH]; simpl; [constructor|].
  now apply insert_by_sorted.
Qed.
End SortFacts.

Lemma sum_app l1 l2 : Pandas.sum (l1 ++ l2) = Pandas.sum l1 + Pandas.sum l2.
Proof. induction l1 as [|x l1 IH]; simpl; [reflexivity|]. unfold Pandas.sum in *. simpl. lia. Qed.

Lemma sum_perm l1 l2 : Permutation l1 l2 -> Pandas.sum l1 = Pandas.sum l2.
Proof.
  unfold Pandas.sum.
  induction 1; simpl; lia.
Qed.

(** Grouping keeps every value: the group sums add up to the column sum. *)
Lemma group_add_total k v gs :
  groups_total (Pandas.group_add k v gs) = v + groups_total gs.
Proof.
  induction gs as [|[k' vs] gs IH]; unfold groups_total, Pandas.sum in *; simpl.
  - lia.
  - destruct (String_as_OT.compare k k'); simpl; lia.
Qed.

Lemma groupby_total rows :
  groups_total (Pandas.groupby rows) = Pandas.sum (map snd rows).
Proof.
  induction rows as [|[k v] rows IH]; simpl; [reflexivity|].
  rewrite group_add_total, IH. reflexivity.
Qed.

Lemma groupby_sum_total rows :
  Pandas.sum (map snd (map (fun '(k, vs) => (k, Pandas.sum vs)) (Pandas.groupby rows)))
  = Pandas.sum (map snd rows).
Proof.
  rewrite <- (groupby_total rows). unfold groups_total.
  rewrite map_map. f_equal. apply map_ext. now intros [k vs].
Qed.

(* --------------------------------------------------------------------- *)
(** ** Counting time points *)

Lemma count_from_ext f g lo n :
  (forall t, lo <= t < lo + Z.of_nat n -> f t = g t) ->
  count_from f lo n = count_from g lo n.
Proof.
  revert lo. induction n as [|n IH]; intros lo H; simpl; [reflexivity|].
  rewrite (H lo) by lia. rewrite (IH (lo + 1)); [reflexivity|].
  intros t Ht. apply H. lia.
Qed.

Lemma count_from_app f lo n m :
  count_from f lo (n + m) = count_from f lo n + count_from f (lo + Z.of_nat n) m.
Proof.
  revert lo. induction n as [|n IH]; intros lo.
  - simpl. now rewrite Z.add_0_r.
  - cbn [Nat.add count_from]. rewrite IH.
    replace (lo + 1 + Z.of_nat n) with (lo + Z.of_nat (S n)) by lia. lia.
Qed.

Lemma count_from_const (b : bool) lo n :
  count_from (fun _ => b) lo n = if b then Z.of_nat n else 0.
Proof.
  revert lo. induction n as [|n IH]; intros lo.
  - now destruct b.
  - cbn [count_from]. rewrite IH. destruct b; lia.
Qed.

Lemma count_from_bounds f lo n : 0 <= count_from f lo n <= Z.of_nat n.
Proof.
  revert lo. induction n as [|n IH]; intros lo; cbn [count_from]; [lia|].
  specialize (IH (lo + 1)). destruct (f lo); lia.
Qed.

Lemma count_from_le f g lo n :
  (forall t, lo <= t < lo + Z.of_nat n -> f t = true -> g t = true) ->
  count_from f lo n <= count_from g lo n.
Proof.
  revert lo. induction n as [|n IH]; intros lo H; cbn [count_from]; [lia|].
  assert (count_from f (lo + 1) n <= count_from g (lo + 1) n) as Hle.
  { apply IH. intros t Ht. apply H. lia. }
  specialize (H lo). destruct (f lo), (g lo); lia.
Qed.

Lemma measure_ext f g lo hi :
  (forall t, lo <= t < hi -> f t = g t) -> measure f lo hi = measure g lo hi.
Proof.
  intros H. unfold measure. apply count_from_ext. intros t Ht. apply H. lia.
Qed.

Lemma measure_empty f lo hi : hi <= lo -> measure f lo hi = 0.
Proof.
  intros H. unfold measure. replace (Z.to_nat (hi - lo)) with O by lia. reflexivity.
Qed.

Lemma measure_split f lo mid hi :
  lo <= mid <= hi -> measure f lo hi = measure f lo mid + measure f mid hi.
Proof.
  intros H. unfold measure.
  replace (Z.to_nat (hi - lo)) with (Z.to_nat (mid - lo) + Z.to_nat (hi - mid))%nat by lia.
  rewrite count_from_app. do 2 f_equal. lia.
Qed.

Lemma measure_const (b : bool) lo hi :
  lo <= hi -> measure (fun _ => b) lo hi = if b then hi - lo else 0.
Proof.
  intros H. unfold measure. rewrite count_from_const. destruct b; lia.
Qed.

Lemma measure_false f lo hi :
  (forall t, lo <= t < hi -> f t = false) -> measure f lo hi = 0.
Proof.
  intros H. rewrite (measure_ext f (fun _ => false)) by exact H.
  unfold measure. now rewrite count_from_const.
Qed.

Lemma measure_bounds f lo hi : lo <= hi -> 0 <= measure f lo hi <= hi - lo.
Proof.
  intros H. unfold measure.
  pose proof (count_from_bounds f lo (Z.to_nat (hi - lo))). lia.
Qed.

Lemma measure_le f g lo hi :
  (forall t, lo <= t < hi -> f t = true -> g t = true) ->
  measure f lo hi <= measure g lo hi.
Proof.
  intros H. unfold measure. apply count_from_le. intros t Ht. apply H. lia.
Qed.

(** The count does not depend on the window, as long as the window holds
    every point that satisfies [f]. *)
Lemma measure_window f lo1 hi1 lo2 hi2 :
  (forall t, f t = true -> lo1 <= t < hi1) ->
  (forall t, f t = true -> lo2 <= t < hi2) ->
  measure f lo1 hi1 = measure f lo2 hi2.
Proof.
  intros H1 H2.
  assert (Hout : forall lo hi a b, (forall t, f t = true -> lo <= t < hi) ->
             lo <= hi -> a <= lo -> hi <= b -> measure f a b = measure f lo hi).
  { intros lo hi a b Hs Hle Ha Hb.
    rewrite (measure_split f a lo b) by lia.
    rewrite (measure_split f lo hi b) by lia.
    rewrite (measure_false f a lo), (measure_false f hi b); [lia| |].
    - intros t Ht. destruct (f t) eqn:E; [|reflexivity]. apply Hs in E. lia.
    - intros t Ht. destruct (f t) eqn:E; [|reflexivity]. apply Hs in E. lia. }
  destruct (Z_le_gt_dec lo1 hi1) as [L1|L1]; destruct (Z_le_gt_dec lo2 hi2) as [L2|L2].
  - rewrite <- (Hout lo1 hi1 (Z.min lo1 lo2) (Z.max hi1 hi2)) by (auto; lia).
    rewrite <- (Hout lo2 hi2 (Z.min lo1 lo2) (Z.max hi1 hi2)) by (auto; lia).
    reflexivity.
  - rewrite !measure_false; [reflexivity| |];
      intros t _; destruct (f t) eqn:E; auto; apply H2 in E; lia.
  - rewrite !measure_false; [reflexivity| |];
      intros t _; destruct (f t) eqn:E; auto; apply H1 in E; lia.
  - rewrite !measure_false; [reflexivity| |];
      intros t _; destruct (f t) eqn:E; auto; apply H1 in E; lia.
Qed.

(* --------------------------------------------------------------------- *)
(** ** The sweep line of [_get_gpu_kernel_type_time] *)

Import SweepProps.

Lemma segments_unfold acc df :
  map (fun '(r, run, nt) =>
         {| seg_time := time r; running := run; next_time := nt;
            seg_kernel_type := "" |})
      (combine (combine df (Pandas.cumsum_from acc (map status df)))
               (Pandas.shift_up (map time df)))
  = segments_from acc df.
Proof.
  revert acc. induction df as [|r df IH]; intros acc; [reflexivity|].
  destruct df as [|r' df'].
  - reflexivity.
  - specialize (IH (acc + status r)).
    cbn [map Pandas.cumsum_from Pandas.shift_up combine app segments_from head option_map] in *.
    f_equal. exact IH.
Qed.

Lemma segments_eq df : segments df = segments_from 0 df.
Proof. apply segments_unfold. Qed.

Lemma depth_cons r df t :
  depth (r :: df) t = (if time r <=? t then status r else 0) + depth df t.
Proof.
  unfold depth. cbn [filter]. destruct (time r <=? t); reflexivity.
Qed.

Lemma depth_app df1 df2 t : depth (df1 ++ df2) t = depth df1 t + depth df2 t.
Proof.
  unfold depth. now rewrite filter_app, map_app, sum_app.
Qed.

Lemma depth_perm df1 df2 t : Permutation df1 df2 -> depth df1 t = depth df2 t.
Proof.
  intros H. unfold depth. apply sum_perm, Permutation_map.
  induction H; cbn [filter].
  - constructor.
  - destruct (time x <=? t); [now constructor | assumption].
  - destruct (time x <=? t), (time y <=? t); try reflexivity; apply perm_swap.
  - etransitivity; eassumption.
Qed.

Lemma depth_before df t :
  Forall (fun r => t < time r) df -> depth df t = 0.
Proof.
  induction 1 as [|r df Hr _ IH]; [reflexivity|].
  rewrite depth_cons, IH.
  destruct (Z.leb_spec (time r) t); lia.
Qed.

Lemma sorted_last_ge (r : sweep_row) df :
  StronglySorted (key_le time) (r :: df) ->
  time r <= time (last (r :: df) {| status := 0; time := 0 |}).
Proof.
  intros H. inversion H as [|? ? _ Hall]; subst.
  destruct df as [|r' df']; [simpl; lia|].
  assert (In (last (r' :: df') {| status := 0; time := 0 |}) (r' :: df')) as Hin.
  { destruct (exists_last (l := r' :: df')) as (l' & a & E); [discriminate|].
    rewrite E, last_last. apply in_or_app. right. now left. }
  rewrite Forall_forall in Hall. apply Hall in Hin.
  change (last (r :: r' :: df') _) with (last (r' :: df') {| status := 0; time := 0 |}).
  exact Hin.
Qed.

(** The time the kept segments add up to is the number of time points, from the
    first row to the last, at which the sum of the flags so far is positive. *)
Lemma sweep_measure df : forall acc,
  StronglySorted (key_le time) df ->
  segments_total (filter active (segments_from acc df))
  = measure (fun t => 0 <? acc + depth df t) (first_time df) (last_time df).
Proof.
  induction df as [|r df IH]; intros acc Hs.
  - reflexivity.
  - inversion Hs as [|? ? Hs' Hall]; subst.
    destruct df as [|r' df'].
    + cbn [segments_from head option_map filter]. unfold last_time, first_time.
      cbn [last]. rewrite measure_empty by lia.
      unfold segments_total. destruct (active _); reflexivity.
    + assert (Hr' : time r <= time r').
      { inversion Hall; subst. assumption. }
      assert (Hlast : time r' <= last_time (r' :: df')).
      { apply sorted_last_ge. exact Hs'. }
      unfold first_time.
      replace (last_time (r :: r' :: df')) with (last_time (r' :: df')) by reflexivity.
      rewrite (measure_split _ (time r) (time r') (last_time (r' :: df'))) by lia.
      specialize (IH (acc + status r) Hs'). cbn [first_time] in IH.
      change (segments_from acc (r :: r' :: df'))
        with ({| seg_time := time r; running := acc + status r;
                 next_time := Some (time r'); seg_kernel_type := "" |}
              :: segments_from (acc + status r) (r' :: df')).
      cbn [filter].
      assert (Hfirst :
        measure (fun t => 0 <? acc + depth (r :: r' :: df') t) (time r) (time r')
        = if 0 <? acc + status r then time r' - time r else 0).
      { rewrite <- (measure_const (0 <? acc + status r)) by lia.
        apply measure_ext. intros t Ht.
        rewrite depth_cons, depth_before.
        - destruct (Z.leb_spec (time r) t); [f_equal; lia | lia].
        - constructor; [lia|].
          inversion Hs' as [|? ? _ Hall']; subst.
          eapply Forall_impl; [|exact Hall']. unfold key_le. intros; lia. }
      assert (Hrest :
        measure (fun t => 0 <? acc + depth (r :: r' :: df') t)
                (time r') (last_time (r' :: df'))
        = measure (fun t => 0 <? acc + status r + depth (r' :: df') t)
                  (time r') (last_time (r' :: df'))).
      { apply measure_ext. intros t Ht.
        rewrite (depth_cons r).
        destruct (Z.leb_spec (time r) t); [f_equal; lia | lia]. }
      rewrite Hfirst, Hrest, <- IH.
      unfold active at 1. cbn [running].
      destruct (0 <? acc + status r); unfold segments_total, Pandas.sum; simpl; lia.
Qed.

Lemma segments_from_time acc df s :
  In s (segments_from acc df) -> exists r, In r df /\ seg_time s = time r.
Proof.
  revert acc. induction df as [|r df IH]; intros acc H; [contradiction|].
  destruct H as [<-|H].
  - exists r. split; [now left | reflexivity].
  - destruct (IH _ H) as (r0 & Hin & E). exists r0. split; [now right | exact E].
Qed.

(** On a segment the running value is the sum of the flags up to any of its
    time points. *)
Lemma segment_running_depth df : forall acc s nt t,
  StronglySorted (key_le time) df ->
  In s (segments_from acc df) ->
  next_time s = Some nt -> seg_time s <= t < nt ->
  running s = acc + depth df t.
Proof.
  induction df as [|r df IH]; intros acc s nt t Hs Hin Hnt Ht; [contradiction|].
  inversion Hs as [|? ? Hs' Hall]; subst.
  destruct Hin as [<-|Hin].
  - cbn [next_time seg_time running] in *.
    destruct df as [|r' df']; [discriminate|].
    cbn in Hnt. injection Hnt as <-.
    rewrite depth_cons, depth_before.
    + destruct (Z.leb_spec (time r) t); lia.
    + constructor; [lia|].
      inversion Hs' as [|? ? _ Hall']; subst.
      eapply Forall_impl; [|exact Hall']. unfold key_le. intros; lia.
  - rewrite (IH _ _ _ _ Hs' Hin Hnt Ht), depth_cons.
    destruct (segments_from_time _ _ _ Hin) as (r0 & Hr0 & E).
    rewrite Forall_forall in Hall. apply Hall in Hr0. unfold key_le in Hr0.
    destruct (Z.leb_spec (time r) t); lia.
Qed.

(** Only the last row has no next time, and its running value is the sum of
    all flags. *)
Lemma segments_from_last acc df s :
  In s (segments_from acc df) -> next_time s = None ->
  running s = acc + Pandas.sum (map status df).
Proof.
  revert acc. induction df as [|r df IH]; intros acc Hin Hn; [contradiction|].
  destruct Hin as [<-|Hin].
  - destruct df; [|discriminate]. unfold Pandas.sum. simpl. lia.
  - rewrite (IH _ Hin Hn). unfold Pandas.sum. simpl. lia.
Qed.

(** *** The frame of flags after the loop over the categories *)

Lemma sweep_events_perm items : forall idx0 st,
  Permutation
    (snd (fold_left add_kernel_type (combine (seq idx0 (length items)) items) st))
    (snd st ++ all_events_from idx0 items).
Proof.
  induction items as [|[kt ivs] items IH]; intros idx0 [m df].
  - simpl. now rewrite app_nil_r.
  - cbn [length seq combine fold_left all_events_from].
    rewrite IH. cbn [add_kernel_type snd].
    rewrite sort_values_perm. now rewrite app_assoc.
Qed.

Lemma sweep_events_sorted items : forall idx0 st,
  StronglySorted (key_le time) (snd st) ->
  StronglySorted (key_le time)
    (snd (fold_left add_kernel_type (combine (seq idx0 (length items)) items) st)).
Proof.
  induction items as [|[kt ivs] items IH]; intros idx0 [m df] Hs.
  - exact Hs.
  - cbn [length seq combine fold_left]. apply IH.
    cbn [add_kernel_type snd]. apply sort_values_sorted.
Qed.

Lemma sweep_df_perm merged :
  Permutation (snd (sweep_events merged)) (all_events_from 0 merged).
Proof. unfold sweep_events, enumerate. now rewrite sweep_events_perm. Qed.

Lemma sweep_df_sorted merged :
  StronglySorted (key_le time) (snd (sweep_events merged)).
Proof. unfold sweep_events, enumerate. apply sweep_events_sorted. constructor. Qed.

(** *** Flags and coverage *)

Lemma cover_count_nonneg ivs t : 0 <= cover_count ivs t.
Proof.
  unfold cover_count, Pandas.sum.
  induction ivs as [|iv ivs IH]; simpl; [lia|]. destruct (contains iv t); lia.
Qed.

Lemma cover_count_covered ivs t : (0 <? cover_count ivs t) = covered ivs t.
Proof.
  unfold cover_count, covered, Pandas.sum.
  induction ivs as [|iv ivs IH]; [reflexivity|].
  cbn [map fold_right existsb].
  pose proof (cover_count_nonneg ivs t) as Hn.
  unfold cover_count, Pandas.sum in Hn.
  destruct (contains iv t); cbn [orb].
  - apply Z.ltb_lt. lia.
  - rewrite <- IH. f_equal.
Qed.

Lemma covered_app l1 l2 t : covered (l1 ++ l2) t = covered l1 t || covered l2 t.
Proof. unfold covered. apply existsb_app. Qed.

Lemma covered_In ivs t :
  covered ivs t = true <-> exists iv, In iv ivs /\ Utils.ts iv <= t < end_ iv.
Proof.
  unfold covered. rewrite existsb_exists. unfold contains.
  split; intros (iv & Hin & H); exists iv; (split; [exact Hin|]).
  - apply andb_true_iff in H. destruct H as [H1 H2].
    apply Z.leb_le in H1. apply Z.ltb_lt in H2. lia.
  - apply andb_true_iff. split; [apply Z.leb_le | apply Z.ltb_lt]; lia.
Qed.

Lemma depth_melt v ivs t :
  Forall (fun iv => Utils.ts iv <= end_ iv) ivs ->
  depth (melt v ivs) t = v * cover_count ivs t.
Proof.
  intros H. unfold melt. rewrite depth_app.
  induction H as [|iv ivs Hiv _ IH].
  - unfold depth, cover_count, Pandas.sum. simpl. lia.
  - cbn [map]. rewrite !depth_cons. cbn [status time].
    unfold cover_count in *. cbn [map]. unfold Pandas.sum in *. cbn [fold_right].
    unfold contains in *.
    destruct (Z.leb_spec (Utils.ts iv) t), (Z.leb_spec (end_ iv) t),
             (Z.ltb_spec t (end_ iv)); cbn [andb]; lia.
Qed.

Lemma sum_status_melt v ivs : Pandas.sum (map status (melt v ivs)) = 0.
Proof.
  unfold melt. rewrite map_app, sum_app, !map_map. cbn [status].
  unfold Pandas.sum. induction ivs as [|iv ivs IH]; simpl; lia.
Qed.

Lemma shiftl_1_pos n : 0 < Z.shiftl 1 (Z.of_nat n).
Proof. rewrite Z.shiftl_1_l. apply Z.pow_pos_nonneg; lia. Qed.

Lemma all_events_depth merged : forall idx t,
  Forall (fun ivs => Forall (fun iv => Utils.ts iv <= end_ iv) ivs) (map snd merged) ->
  0 <= depth (all_events_from idx merged) t
  /\ (0 <? depth (all_events_from idx merged) t) = covered (all_intervals merged) t.
Proof.
  induction merged as [|[kt ivs] merged IH]; intros idx t H.
  - split; reflexivity.
  - cbn [map snd] in H. inversion H as [|? ? Hivs Hrest]; subst.
    destruct (IH (S idx) t Hrest) as [IH0 IH1].
    cbn [all_events_from]. unfold all_intervals in *. cbn [map snd concat].
    rewrite depth_app, depth_melt, covered_app, <- IH1, <- cover_count_covered by assumption.
    pose proof (shiftl_1_pos idx) as Hv.
    pose proof (cover_count_nonneg ivs t) as Hc.
    split; [nia|].
    destruct (Z.ltb_spec 0 (cover_count ivs t)),
             (Z.ltb_spec 0 (depth (all_events_from (S idx) merged) t)); cbn [orb];
      try (apply Z.ltb_lt; nia).
    apply Z.ltb_ge. nia.
Qed.

Lemma all_events_sum merged : forall idx,
  Pandas.sum (map status (all_events_from idx merged)) = 0.
Proof.
  induction merged as [|[kt ivs] merged IH]; intros idx; [reflexivity|].
  cbn [all_events_from]. now rewrite map_app, sum_app, sum_status_melt, IH.
Qed.

Lemma all_events_In merged : forall idx iv,
  In iv (all_intervals merged) ->
  exists v, In {| status := v; time := Utils.ts iv |} (all_events_from idx merged)
         /\ In {| status := - v; time := end_ iv |} (all_events_from idx merged).
Proof.
  induction merged as [|[kt ivs] merged IH]; intros idx iv H; [contradiction|].
  unfold all_intervals in H. cbn [map snd concat] in H.
  apply in_app_or in H. cbn [all_events_from].
  destruct H as [H|H].
  - exists (Z.shiftl 1 (Z.of_nat idx)).
    split; apply in_or_app; left; unfold melt; apply in_or_app; [left|right];
      apply in_map_iff; exists iv; auto.
  - destruct (IH (S idx) iv H) as (v & H1 & H2).
    exists v. split; apply in_or_app; right; assumption.
Qed.

(** *** Labelling and casting do not change the durations *)

Lemma set_kernel_type_total r label df :
  segments_total (set_kernel_type r label df) = segments_total df.
Proof.
  unfold segments_total, set_kernel_type. rewrite map_map. f_equal.
  apply map_ext. intros s. now destruct (running s =? r).
Qed.

Lemma set_kernel_type_next r label df :
  Forall (fun s => next_time s <> None) df ->
  Forall (fun s => next_time s <> None) (set_kernel_type r label df).
Proof.
  intros H. unfold set_kernel_type. apply Forall_map.
  eapply Forall_impl; [|exact H]. intros s Hs. now destruct (running s =? r).
Qed.

Lemma relabel_total (rm : list (Z * string)) : forall df,
  segments_total (fold_left (fun df '(r, label) => set_kernel_type r label df) rm df)
  = segments_total df.
Proof.
  induction rm as [|[r label] rm IH]; intros df; [reflexivity|].
  cbn [fold_left]. now rewrite IH, set_kernel_type_total.
Qed.

Lemma relabel_next (rm : list (Z * string)) : forall df,
  Forall (fun s => next_time s <> None) df ->
  Forall (fun s => next_time s <> None)
         (fold_left (fun df '(r, label) => set_kernel_type r label df) rm df).
Proof.
  induction rm as [|[r label] rm IH]; intros df H; [exact H|].
  cbn [fold_left]. now apply IH, set_kernel_type_next.
Qed.

(** The relabelling leaves the times of the rows alone. *)
Lemma set_kernel_type_times (P : Z -> option Z -> Prop) r label df :
  Forall (fun s => P (seg_time s) (next_time s)) df ->
  Forall (fun s => P (seg_time s) (next_time s)) (set_kernel_type r label df).
Proof.
  intros H. unfold set_kernel_type. apply Forall_map.
  eapply Forall_impl; [|exact H]. intros s Hs. now destruct (running s =? r).
Qed.

Lemma relabel_times (P : Z -> option Z -> Prop) (rm : list (Z * string)) : forall df,
  Forall (fun s => P (seg_time s) (next_time s)) df ->
  Forall (fun s => P (seg_time s) (next_time s))
         (fold_left (fun df '(r, label) => set_kernel_type r label df) rm df).
Proof.
  induction rm as [|[r label] rm IH]; intros df H; [exact H|].
  cbn [fold_left]. now apply IH, set_kernel_type_times.
Qed.

(** The cast succeeds on rows that all have a next time. *)
Lemma durations_returns df :
  Forall (fun s => next_time s <> None) df -> exists ds, durations df = Some ds.
Proof.
  induction 1 as [|s df Hs _ (ds & E)].
  - exists []. reflexivity.
  - cbn [durations]. destruct (next_time s) as [nt|] eqn:En; [|contradiction].
    rewrite E. eexists. reflexivity.
Qed.

(** On time stamps that a float holds exactly, the durations are the
    differences of the times. *)
Lemma durations_total df :
  Forall (fun s => next_time s <> None) df ->
  Forall (fun s => (fun t nt => float_exact t
                                /\ forall x, nt = Some x -> float_exact x)
                     (seg_time s) (next_time s)) df ->
  exists ds, durations df = Some ds /\ Pandas.sum (map snd ds) = segments_total df.
Proof.
  induction 1 as [|s df Hs _ IH]; intros Hx.
  - exists []. split; reflexivity.
  - inversion Hx as [|? ? [Ht Hnt] Hx']; subst.
    destruct (IH Hx') as (ds & E & Hsum).
    cbn [durations]. destruct (next_time s) as [nt|] eqn:En; [|contradiction].
    rewrite E. eexists. split; [reflexivity|].
    unfold segments_total, Pandas.sum in *. cbn [map snd fold_right].
    rewrite En, Hsum, (float_duration_exact nt (seg_time s) Ht (Hnt nt eq_refl)).
    reflexivity.
Qed.

(** The times of the sweep rows are the starts and ends of the intervals. *)
Lemma all_events_exact merged : forall idx,
  float_exact_frames merged ->
  Forall (fun r => float_exact (time r)) (all_events_from idx merged).
Proof.
  unfold float_exact_frames, all_intervals.
  induction merged as [|[kt ivs] merged IH]; intros idx H; [constructor|].
  cbn [map snd concat] in H. apply Forall_app in H. destruct H as [H1 H2].
  cbn [all_events_from]. apply Forall_app. split; [|now apply IH].
  unfold melt. apply Forall_app. split; apply Forall_map;
    (eapply Forall_impl; [|exact H1]); intros iv [Ha Hb]; assumption.
Qed.

Lemma segments_from_exact df : forall acc,
  Forall (fun r => float_exact (time r)) df ->
  Forall (fun s => (fun t nt => float_exact t
                                /\ forall x, nt = Some x -> float_exact x)
                     (seg_time s) (next_time s))
         (segments_from acc df).
Proof.
  induction df as [|r df IH]; intros acc H; [constructor|].
  inversion H as [|? ? Hr Hdf]; subst.
  cbn [segments_from]. constructor; [|now apply IH].
  cbn [seg_time next_time]. split; [exact Hr|].
  intros x Hx. destruct df as [|r' df']; [discriminate|].
  cbn in Hx. injection Hx as <-. now inversion Hdf.
Qed.

(** *** The window of the sweep and the window of the union *)

Lemma min_list_le d l : min_list d l <= d /\ Forall (fun x => min_list d l <= x) l.
Proof.
  unfold min_list. induction l as [|x l [IH1 IH2]]; cbn [fold_right].
  - split; [lia | constructor].
  - split; [lia|]. constructor; [lia|].
    eapply Forall_impl; [|exact IH2]. intros; simpl in *; lia.
Qed.

Lemma max_list_ge d l : d <= max_list d l /\ Forall (fun x => x <= max_list d l) l.
Proof.
  unfold max_list. induction l as [|x l [IH1 IH2]]; cbn [fold_right].
  - split; [lia | constructor].
  - split; [lia|]. constructor; [lia|].
    eapply Forall_impl; [|exact IH2]. intros; simpl in *; lia.
Qed.

Lemma first_ts_le ivs iv : In iv ivs -> first_ts ivs <= Utils.ts iv.
Proof.
  intros H. destruct ivs as [|iv0 ivs']; [contradiction|].
  unfold first_ts. destruct (min_list_le (Utils.ts iv0) (map Utils.ts (iv0 :: ivs'))) as [_ HF].
  rewrite Forall_forall in HF. apply HF. now apply in_map.
Qed.

Lemma last_end_ge ivs iv : In iv ivs -> end_ iv <= last_end ivs.
Proof.
  intros H. destruct ivs as [|iv0 ivs']; [contradiction|].
  unfold last_end. destruct (max_list_ge (end_ iv0) (map end_ (iv0 :: ivs'))) as [_ HF].
  rewrite Forall_forall in HF. apply (HF (end_ iv)). now apply in_map.
Qed.

Lemma covered_window ivs t :
  covered ivs t = true -> first_ts ivs <= t < last_end ivs.
Proof.
  intros H. apply covered_In in H. destruct H as (iv & Hin & Ht).
  pose proof (first_ts_le _ _ Hin). pose proof (last_end_ge _ _ Hin). lia.
Qed.

Lemma sorted_first_le df r :
  StronglySorted (key_le time) df -> In r df -> first_time df <= time r.
Proof.
  intros Hs Hin. destruct df as [|r0 df]; [contradiction|].
  inversion Hs as [|? ? _ Hall]; subst. cbn [first_time].
  destruct Hin as [<-|Hin]; [lia|].
  rewrite Forall_forall in Hall. now apply Hall.
Qed.

Lemma sorted_last_le df r :
  StronglySorted (key_le time) df -> In r df -> time r <= last_time df.
Proof.
  induction df as [|r0 df IH]; intros Hs Hin; [contradiction|].
  inversion Hs as [|? ? Hs' Hall]; subst.
  destruct Hin as [<-|Hin].
  - now apply sorted_last_ge.
  - destruct df as [|r1 df']; [contradiction|]. now apply IH.
Qed.

Lemma premerged_from_ordered ivs : forall prev,
  premerged_from prev ivs -> Forall (fun iv => Utils.ts iv <= end_ iv) ivs.
Proof.
  induction ivs as [|iv ivs IH]; intros prev H; [constructor|].
  destruct H as (_ & H1 & H2). constructor; [exact H1 | eapply IH; exact H2].
Qed.

Lemma premerged_ordered ivs :
  premerged ivs -> Forall (fun iv => Utils.ts iv <= end_ iv) ivs.
Proof.
  destruct ivs as [|iv ivs]; intros H; [constructor|].
  destruct H as [H1 H2]. constructor; [exact H1 | eapply premerged_from_ordered; exact H2].
Qed.

(** Whatever order the sort leaves rows of equal time in: on every
    time-sorted frame of the flags, the kept segments add up to the length of
    the union. *)
Lemma sweep_conserved_in_any_order (merged : list (string * list interval))
    (df : list sweep_row) :
  Forall (fun ivs => Forall (fun iv => Utils.ts iv <= end_ iv) ivs) (map snd merged) ->
  Permutation df (all_events_from 0 merged) ->
  StronglySorted (key_le time) df ->
  segments_total (filter active (segments df)) = union_length (all_intervals merged)
  /\ (forall t, (0 <? 0 + depth df t) = covered (all_intervals merged) t)
  /\ Forall (fun s => next_time s <> None) (filter active (segments df)).
Proof.
  intros Hord Hperm Hsorted. rewrite segments_eq.
  assert (Hdepth : forall t, (0 <? 0 + depth df t) = covered (all_intervals merged) t).
  { intros t. rewrite Z.add_0_l, (depth_perm _ _ t Hperm).
    apply (all_events_depth merged 0 t Hord). }
  split; [|split; [exact Hdepth|]].
  - rewrite (sweep_measure df 0 Hsorted).
    rewrite (measure_ext _ (covered (all_intervals merged))) by (intros; apply Hdepth).
    apply measure_window; [|apply covered_window].
    intros t Ht. apply covered_In in Ht. destruct Ht as (iv & Hin & Ht).
    destruct (all_events_In merged 0 iv Hin) as (v & H1 & H2).
    apply (Permutation_in _ (Permutation_sym Hperm)) in H1, H2.
    apply (sorted_first_le _ _ Hsorted) in H1.
    apply (sorted_last_le _ _ Hsorted) in H2.
    cbn [time] in H1, H2. lia.
  - apply Forall_forall. intros s Hs Hn.
    apply filter_In in Hs. destruct Hs as [Hin Hact]. unfold active in Hact.
    rewrite (segments_from_last _ _ _ Hin Hn) in Hact.
    rewrite (sum_perm _ _ (Permutation_map status Hperm)), all_events_sum in Hact.
    discriminate.
Qed.

(** The sweep conserves time for any frames whose intervals have
    [ts <= end] and whose time stamps a float holds exactly; merged frames
    are a special case. *)
Lemma overlap_time_conserved (merged : list (string * list interval)) :
  Forall (fun ivs => Forall (fun iv => Utils.ts iv <= end_ iv) ivs) (map snd merged) ->
  float_exact_frames merged ->
  exists out,
    overlap_kernel_type_time merged = Some out
    /\ Pandas.sum (map snd out) = union_length (all_intervals merged)
    /\ (forall s nt t,
          In s (active_segments merged) -> next_time s = Some nt ->
          seg_time s <= t < nt -> covered (all_intervals merged) t = true).
Proof.
  intros Hord Hexact.
  pose proof (sweep_df_perm merged) as Hperm.
  pose proof (sweep_df_sorted merged) as Hsorted.
  unfold overlap_kernel_type_time, active_segments.
  destruct (sweep_events merged) as [m df]. cbn [snd] in *.
  destruct (sweep_conserved_in_any_order merged df Hord Hperm Hsorted)
    as (Htotal & Hdepth & Hnext).
  assert (Hrows : Forall (fun r => float_exact (time r)) df).
  { pose proof (all_events_exact merged 0 Hexact) as H.
    rewrite Forall_forall in *. intros r Hr. apply H.
    now apply (Permutation_in _ Hperm). }
  assert (Hsegs : Forall (fun s => (fun t nt => float_exact t
                                      /\ forall x, nt = Some x -> float_exact x)
                                     (seg_time s) (next_time s))
                         (filter active (segments df))).
  { rewrite segments_eq. apply Forall_forall. intros s Hs.
    apply filter_In in Hs. destruct Hs as [Hs _].
    pose proof (segments_from_exact df 0 Hrows) as H.
    rewrite Forall_forall in H. now apply H. }
  change (fun s => 0 <? running s) with active.
  set (rm := build_running_mapping m _).
  destruct (durations_total _ (relabel_next rm _ Hnext)
              (relabel_times _ rm _ Hsegs)) as (ds & Eds & Hsum).
  rewrite Eds. eexists. split; [reflexivity|]. split.
  - now rewrite groupby_sum_total, Hsum, relabel_total.
  - intros s nt t Hs Hnt Ht.
    apply filter_In in Hs. destruct Hs as [Hin Hact]. rewrite segments_eq in Hin.
    unfold active in Hact.
    rewrite (segment_running_depth df 0 s nt t Hsorted Hin Hnt Ht) in Hact.
    now rewrite <- Hdepth.
Qed.

(** C1, as it is stated, fails.  One merged interval from [2^53] to
    [2^53 + 3] covers 3 time points, but its end is read through the float64
    column [next_time], where it is [2^53 + 4]: the label total is 4. *)
Lemma late_time_stamps_gain_time :
  Forall premerged (map snd Samples.late_category)
  /\ overlap_kernel_type_time Samples.late_category = Some [("COMPUTATION", 4)]
  /\ union_length (all_intervals Samples.late_category) = 3.
Proof.
  split; [|split].
  - repeat constructor; simpl; lia.
  - vm_compute. reflexivity.
  - vm_compute. reflexivity.
Qed.



Example two_categories_table :
  overlap_kernel_type_time Samples.two_categories
  = Some [("COMMUNICATION", 10); ("COMPUTATION", 10);
          ("COMPUTATION overlapping COMMUNICATION", 10)]
  /\ union_length (all_intervals Samples.two_categories) = 30.
Proof. split; reflexivity. Qed.

(* --------------------------------------------------------------------- *)
(** ** Groups *)

Section GroupFacts.
Context {A : Type}.
Implicit Types (gs : list (string * list A)) (rows : list (string * A)).

Local Abbreviation slt := String_as_OT.lt.

Lemma slt_irrefl k : ~ slt k k.
Proof. apply (StrictOrder_Irreflexive (R := slt)). Qed.

Lemma slt_trans a b c : slt a b -> slt b c -> slt a c.
Proof. apply (StrictOrder_Transitive (R := slt)). Qed.

Lemma group_add_keys k v gs k' :
  In k' (map fst (Pandas.group_add k v gs)) <-> k' = k \/ In k' (map fst gs).
Proof.
  induction gs as [|[k0 vs0] gs IH]; cbn [Pandas.group_add].
  - simpl. intuition congruence.
  - destruct (String_as_OT.compare_spec k k0) as [E|L|G]; cbn [map fst In].
    + subst. intuition congruence.
    + intuition congruence.
    + rewrite IH. intuition congruence.
Qed.

Lemma group_add_sorted k v gs :
  StronglySorted slt (map fst gs) ->
  StronglySorted slt (map fst (Pandas.group_add k v gs)).
Proof.
  induction gs as [|[k0 vs0] gs IH]; intros Hs; cbn [Pandas.group_add].
  - repeat constructor.
  - cbn [map fst] in Hs. inversion Hs as [|? ? Hs' Hall]; subst.
    destruct (String_as_OT.compare_spec k k0) as [E|L|G]; cbn [map fst].
    + exact Hs.
    + constructor; [exact Hs|]. constructor; [exact L|].
      eapply Forall_impl; [|exact Hall]. intros a Ha. eapply slt_trans; eassumption.
    + constructor; [now apply IH|].
      apply Forall_forall. intros k' Hk'. apply group_add_keys in Hk'.
      destruct Hk' as [->|Hk']; [exact G|].
      rewrite Forall_forall in Hall. now apply Hall.
Qed.

Lemma groupby_sorted rows : StronglySorted slt (map fst (Pandas.groupby rows)).
Proof.
  induction rows as [|[k v] rows IH]; cbn [Pandas.groupby]; [constructor|].
  now apply group_add_sorted.
Qed.

Lemma sorted_keys_NoDup (ks : list string) : StronglySorted slt ks -> NoDup ks.
Proof.
  induction 1 as [|k ks _ IH Hall]; constructor; [|exact IH].
  intros Hin. rewrite Forall_forall in Hall. apply (slt_irrefl k). now apply Hall.
Qed.

Lemma groupby_keys rows k :
  In k (map fst (Pandas.groupby rows)) <-> In k (map fst rows).
Proof.
  induction rows as [|[k0 v] rows IH]; cbn [Pandas.groupby]; [reflexivity|].
  rewrite group_add_keys, IH. cbn [map fst In]. intuition.
Qed.

(** What [group_add] holds, on groups in key order. *)
Lemma group_add_In k v gs k' vs :
  StronglySorted slt (map fst gs) ->
  In (k', vs) (Pandas.group_add k v gs) ->
  (k' <> k /\ In (k', vs) gs)
  \/ (k' = k /\ exists vs', vs = v :: vs'
                 /\ (In (k, vs') gs \/ (vs' = [] /\ ~ In k (map fst gs)))).
Proof.
  induction gs as [|[k0 vs0] gs IH]; intros Hs Hin; cbn [Pandas.group_add] in Hin.
  - destruct Hin as [E|[]]. injection E as <- <-.
    right. split; [reflexivity|]. exists []. split; [reflexivity|]. right. split; auto.
  - cbn [map fst] in Hs. inversion Hs as [|? ? Hs' Hall]; subst.
    rewrite Forall_forall in Hall.
    destruct (String_as_OT.compare_spec k k0) as [E|L|G].
    + unfold String_as_OT.eq in E. subst k0. destruct Hin as [E|Hin].
      * injection E as <- <-. right. split; [reflexivity|].
        exists vs0. split; [reflexivity|]. left. now left.
      * left. split; [|now right].
        intros ->. apply (slt_irrefl k). apply Hall.
        apply in_map_iff. now exists (k, vs).
    + assert (Hfresh : ~ In k (map fst ((k0, vs0) :: gs))).
      { cbn [map fst]. intros [->|Hk]; [exact (slt_irrefl _ L)|].
        apply (slt_irrefl k). eapply slt_trans; [exact L | now apply Hall]. }
      destruct Hin as [E|Hin].
      * injection E as <- <-. right. split; [reflexivity|].
        exists []. split; [reflexivity|]. right. split; [reflexivity | exact Hfresh].
      * left. split; [|exact Hin].
        intros ->. apply Hfresh. apply in_map_iff. now exists (k, vs).
    + destruct Hin as [E|Hin].
      * injection E as <- <-. left. split; [|now left].
        intros ->. exact (slt_irrefl _ G).
      * destruct (IH Hs' Hin) as [[Hne Hin']|[-> (vs' & -> & Hcase)]].
        -- left. split; [exact Hne | now right].
        -- right. split; [reflexivity|]. exists vs'. split; [reflexivity|].
           destruct Hcase as [Hin'|[-> Hfresh]]; [left; now right|].
           right. split; [reflexivity|]. cbn [map fst].
           intros [->|Hk]; [exact (slt_irrefl _ G) | now apply Hfresh].
Qed.

Lemma values_of_absent k rows : ~ In k (map fst rows) -> values_of k rows = [].
Proof.
  unfold values_of. induction rows as [|[k0 v] rows IH]; intros H; [reflexivity|].
  cbn [filter fst]. destruct (String.eqb_spec k0 k) as [->|Hne].
  - exfalso. apply H. now left.
  - apply IH. intros Hin. apply H. now right.
Qed.

Lemma values_of_nonempty k rows : values_of k rows <> [] -> In k (map fst rows).
Proof.
  unfold values_of. induction rows as [|[k0 v] rows IH]; intros H; [now elim H|].
  cbn [filter fst] in H. cbn [map fst].
  destruct (String.eqb_spec k0 k) as [->|Hne]; [now left | right; now apply IH].
Qed.

(** A group holds exactly the values of the rows with its key, in row
    order. *)
Lemma groupby_In rows : forall k vs,
  In (k, vs) (Pandas.groupby rows) -> vs = values_of k rows /\ vs <> [].
Proof.
  induction rows as [|[k0 v] rows IH]; intros k vs Hin; [contradiction|].
  cbn [Pandas.groupby] in Hin.
  apply group_add_In in Hin; [|apply groupby_sorted].
  unfold values_of. cbn [filter fst].
  destruct Hin as [[Hne Hin]|[-> (vs' & -> & Hcase)]].
  - destruct (String.eqb_spec k0 k) as [->|_]; [contradiction|]. now apply IH.
  - rewrite String.eqb_refl. cbn [map snd]. split; [|discriminate].
    f_equal. destruct Hcase as [Hin|[-> Hfresh]].
    + now apply IH.
    + symmetry. apply values_of_absent. now rewrite <- groupby_keys.
Qed.

Lemma groupby_exists rows k :
  In k (map fst rows) -> In (k, values_of k rows) (Pandas.groupby rows).
Proof.
  intros H. apply groupby_keys in H. apply in_map_iff in H.
  destruct H as ([k' vs] & E & Hin). cbn in E. subst k'.
  now rewrite <- (proj1 (groupby_In rows k vs Hin)).
Qed.
End GroupFacts.

Lemma unique_from_In {A} (eqb : A -> A -> bool)
    (eqb_eq : forall x y, eqb x y = true <-> x = y) (l : list A) : forall seen x,
  In x (Pandas.unique_from eqb seen l) <-> In x l /\ ~ In x seen.
Proof.
  induction l as [|y l IH]; intros seen x; cbn [Pandas.unique_from].
  - simpl. intuition.
  - destruct (existsb (eqb y) seen) eqn:E.
    + apply existsb_exists in E. destruct E as (z & Hz & Ez). apply eqb_eq in Ez. subst z.
      rewrite IH. cbn [In]. split; [intuition|].
      intros [[->|H] Hn]; [contradiction | auto].
    + assert (Hy : ~ In y seen).
      { intros Hin. assert (existsb (eqb y) seen = true) as E'.
        { apply existsb_exists. exists y. split; [exact Hin | now apply eqb_eq]. }
        congruence. }
      cbn [In]. rewrite IH. cbn [In]. split.
      * intros [->|[H Hn]]; [auto | split; [auto|]]. intros Hin. apply Hn. now right.
      * intros [[->|H] Hn]; [now left|].
        destruct (eqb y x) eqn:Eyx; [apply eqb_eq in Eyx; now left|].
        right. split; [exact H|]. intros [->|Hin]; [|contradiction].
        assert (eqb x x = true) by now apply eqb_eq. congruence.
Qed.

Lemma unique_from_NoDup {A} (eqb : A -> A -> bool)
    (eqb_eq : forall x y, eqb x y = true <-> x = y) (l : list A) : forall seen,
  NoDup (Pandas.unique_from eqb seen l).
Proof.
  induction l as [|y l IH]; intros seen; cbn [Pandas.unique_from]; [constructor|].
  destruct (existsb (eqb y) seen); [apply IH|].
  constructor; [|apply IH].
  rewrite (unique_from_In eqb eqb_eq). intros [_ H]. apply H. now left.
Qed.

(** The aggregated frame has one row per distinct name. *)
Lemma groupby_length (rows : list (string * Z)) :
  length (Pandas.groupby rows) = distinct_names rows.
Proof.
  unfold distinct_names. rewrite <- (length_map fst (Pandas.groupby rows)).
  apply Permutation_length, NoDup_Permutation.
  - apply sorted_keys_NoDup, groupby_sorted.
  - apply unique_from_NoDup, String.eqb_eq.
  - intros k. rewrite groupby_keys. unfold Pandas.unique.
    rewrite (unique_from_In _ String.eqb_eq). cbn [In]. intuition.
Qed.

(* --------------------------------------------------------------------- *)
(** ** [_aggr_gpu_kernel_time] *)

Lemma fillna_std_names df : map Agg.name (fillna_std df) = map Agg.name df.
Proof.
  unfold fillna_std. rewrite map_map. apply map_ext.
  intros r. now destruct (Agg.std r).
Qed.

Lemma agg_names (gs : list (string * list Z)) : map Agg.name (map agg gs) = map fst gs.
Proof. rewrite map_map. apply map_ext. now intros [k vs]. Qed.

Lemma aggr_by_name_names df :
  Permutation (map Agg.name (aggr_by_name df)) (map fst (Pandas.groupby df)).
Proof.
  unfold aggr_by_name, Pandas.sort_values_desc.
  rewrite fillna_std_names, <- agg_names.
  apply Permutation_map, sort_values_perm.
Qed.

Lemma aggr_by_name_NoDup df : NoDup (map Agg.name (aggr_by_name df)).
Proof.
  eapply Permutation_NoDup; [symmetry; apply aggr_by_name_names|].
  apply sorted_keys_NoDup, groupby_sorted.
Qed.

(** The first aggregation has one row per distinct name. *)
Lemma aggr_by_name_length df : length (aggr_by_name df) = distinct_names df.
Proof.
  rewrite <- groupby_length, <- (length_map fst), <- (length_map Agg.name).
  apply Permutation_length, aggr_by_name_names.
Qed.

Lemma aggr_by_name_input_names df r :
  In r (aggr_by_name df) -> In (Agg.name r) (map fst df).
Proof.
  intros H. apply (in_map Agg.name) in H.
  apply (Permutation_in _ (aggr_by_name_names df)) in H.
  exact (proj1 (groupby_keys df _) H).
Qed.

Lemma cumsum_from_length acc l : length (Pandas.cumsum_from acc l) = length l.
Proof. revert acc. induction l as [|x l IH]; intros acc; simpl; [reflexivity|]. now rewrite IH. Qed.

Lemma map_fst_combine {A B} (l : list A) : forall (l2 : list B),
  (length l <= length l2)%nat -> map fst (combine l l2) = l.
Proof.
  induction l as [|a l IH]; intros [|b l2] H; cbn in *; try reflexivity; try lia.
  f_equal. apply IH. lia.
Qed.

Lemma map_snd_combine {A B} (l : list A) : forall (l2 : list B),
  (length l2 <= length l)%nat -> map snd (combine l l2) = l2.
Proof.
  induction l as [|a l IH]; intros [|b l2] H; cbn in *; try reflexivity; try lia.
  f_equal. apply IH. lia.
Qed.

Lemma Forall2_map_proj {X A C} (R : A -> C -> Prop) (proj : X -> A) (f : X -> C)
    (xs : list X) :
  (forall x, R (proj x) (f x)) -> Forall2 R (map proj xs) (map f xs).
Proof. intros H. induction xs; cbn; constructor; auto. Qed.

Lemma enumerate_length {A} (l : list A) : length (enumerate l) = length l.
Proof. unfold enumerate. rewrite length_combine, length_seq. lia. Qed.

Lemma enumerate_snd {A} (l : list A) : map snd (enumerate l) = l.
Proof. unfold enumerate. apply map_snd_combine. rewrite length_seq. lia. Qed.

(** Renaming leaves a row as it is or gives it the name "others". *)
Lemma rename_others_renamed allow nk q df :
  Forall2 renamed df (rename_others allow nk q df).
Proof.
  unfold rename_others.
  set (keep := map (keep_idx allow) df).
  set (cumsum := Pandas.cumsum (map Agg.sum df)).
  set (f1 := fun '(r, k, c) => if _ : bool then set_name "others" r else r).
  set (f2 := fun '(i, r, k) => if _ : bool then set_name "others" r else r).
  set (df1 := map f1 (combine (combine df keep) cumsum)).
  assert (Hkeep : length keep = length df) by (unfold keep; apply length_map).
  assert (Hcum : length cumsum = length df).
  { unfold cumsum, Pandas.cumsum. now rewrite cumsum_from_length, length_map. }
  assert (H1 : Forall2 renamed df df1).
  { replace df with (map (fun x : Agg.row * bool * Z => fst (fst x))
                         (combine (combine df keep) cumsum)) at 1.
    - apply Forall2_map_proj. intros [[r k] c]. unfold f1, renamed. cbn.
      destruct (_ && _); auto.
    - rewrite <- map_map, map_fst_combine, map_fst_combine; [reflexivity | lia |].
      rewrite length_combine. lia. }
  assert (Hlen1 : length df1 = length df).
  { apply Forall2_length in H1. lia. }
  assert (H2 : Forall2 renamed df1 (map f2 (combine (enumerate df1) keep))).
  { replace df1 with (map (fun x : nat * Agg.row * bool => snd (fst x))
                          (combine (enumerate df1) keep)) at 1.
    - apply Forall2_map_proj. intros [[i r] k]. unfold f2, renamed. cbn.
      destruct (_ && _); auto.
    - rewrite <- map_map, map_fst_combine, enumerate_snd; [reflexivity|].
      rewrite enumerate_length. lia. }
  revert H1 H2. generalize (map f2 (combine (enumerate df1) keep)). generalize df1.
  clear. intros l1 l2 H1. revert l2.
  induction H1 as [|r r1 df l1 Hr _ IH]; intros l2 H2; inversion H2; subst.
  - constructor.
  - constructor; [|now apply IH].
    match goal with H : renamed r1 _ |- _ => destruct H as [->| ->] end; [exact Hr|].
    destruct Hr as [->| ->]; right; reflexivity.
Qed.

(** After the renaming a name other than "others" still names one row at
    most, and that row is unchanged. *)
Lemma renamed_values df df' n :
  Forall2 renamed df df' -> NoDup (map Agg.name df) -> n <> "others" ->
  In n (map Agg.name df') ->
  exists g, In g df /\ In g df' /\ Agg.name g = n
            /\ values_of n (map (fun r => (Agg.name r, Agg.sum r)) df') = [Agg.sum g].
Proof.
  intros HF. induction HF as [|r r' df df' Hr HF IH]; intros Hnd Hn Hin; [contradiction|].
  cbn [map] in Hnd. inversion Hnd as [|? ? Hfresh Hnd']; subst.
  unfold values_of in *. cbn [map filter fst].
  assert (Hnames : forall m, m <> "others" -> In m (map Agg.name df') -> In m (map Agg.name df)).
  { clear -HF. induction HF as [|a a' l l' Ha _ IHl]; intros m Hm Hin; [contradiction|].
    cbn [map In] in *. destruct Hin as [E|Hin]; [|right; now apply IHl].
    destruct Ha as [->| ->]; [now left | cbn in E; congruence]. }
  destruct (String.eqb_spec (Agg.name r') n) as [E|Hne].
  - destruct Hr as [->| ->]; [|cbn in E; congruence].
    exists r. split; [now left|]. split; [now left|]. split; [exact E|].
    cbn [map snd]. f_equal.
    assert (Hno : ~ In n (map Agg.name df')).
    { intros H. apply Hfresh. rewrite E. now apply Hnames. }
    clear -Hno. induction df' as [|a l IHl]; [reflexivity|].
    cbn [map filter fst]. destruct (String.eqb_spec (Agg.name a) n) as [Ea|_].
    + exfalso. apply Hno. left. exact Ea.
    + apply IHl. intros H. apply Hno. now right.
  - cbn [map In] in Hin. destruct Hin as [Hin|Hin]; [contradiction|].
    destruct (IH Hnd' Hn Hin) as (g & Hg & Hg' & Eg & Hv).
    exists g. split; [now right|]. split; [now right|]. split; assumption.
Qed.

(** The sums of the first aggregation are int64 values, and the sum of a
    single one is that value. *)
Lemma aggr_by_name_sum_range df g :
  In g (aggr_by_name df) -> - 2 ^ 63 <= Agg.sum g < 2 ^ 63.
Proof.
  unfold aggr_by_name, fillna_std, Pandas.sort_values_desc. intros H.
  apply in_map_iff in H. destruct H as (g0 & <- & H).
  assert (Hr : - 2 ^ 63 <= Agg.sum g0 < 2 ^ 63).
  { apply (Permutation_in _ (sort_values_perm _ _)) in H.
    apply in_map_iff in H. destruct H as ([k vs] & <- & _).
    cbn [agg Agg.sum]. unfold Pandas.sum64. apply wrap64_range. }
  destruct (Agg.std g0); exact Hr.
Qed.

Lemma sum64_single s : - 2 ^ 63 <= s < 2 ^ 63 -> Pandas.sum64 [s] = s.
Proof.
  intros H. unfold Pandas.sum64, Pandas.sum. cbn [fold_right].
  rewrite Z.add_0_r. now apply wrap64_small.
Qed.

Lemma Qred_inject_Z s : Qred (inject_Z s) = inject_Z s.
Proof.
  unfold Qred, inject_Z.
  pose proof (Z.ggcd_gcd s 1) as Hg.
  pose proof (Z.ggcd_correct_divisors s 1) as Hd.
  destruct (Z.ggcd s 1) as [g [aa bb]]. cbn [fst snd] in *.
  rewrite Z.gcd_1_r in Hg. subst g. destruct Hd as [H1 H2].
  replace aa with s by lia. replace bb with 1 by lia. reflexivity.
Qed.

Lemma mean_single s : Pandas.mean [s] = inject_Z s.
Proof.
  unfold Pandas.mean, Pandas.sum. cbn [fold_right length].
  rewrite <- (Qred_inject_Z s).
  apply Qred_complete. rewrite Z.add_0_r. change (inject_Z (Z.of_nat 1)) with 1%Q. field.
Qed.



(** The first aggregation of the sample, and its collapse under a cap of
    two names with the quantile at one: "a" and "b" keep their names and
    report their sums 100 and 6 as [max], [min] and [mean]. *)
Example three_names_collapsed :
  aggr_by_name Samples.three_names
  = [ {| Agg.name := "a"; Agg.sum := 100; Agg.max := 100; Agg.min := 100;
         Agg.mean := 100; Agg.std := Some (Pandas.Sqrt 0) |};
      {| Agg.name := "b"; Agg.sum := 6; Agg.max := 3; Agg.min := 3;
         Agg.mean := 3; Agg.std := Some (Pandas.Sqrt 0) |};
      {| Agg.name := "c"; Agg.sum := 4; Agg.max := 2; Agg.min := 2;
         Agg.mean := 2; Agg.std := Some (Pandas.Sqrt 0) |} ]
  /\ _aggr_gpu_kernel_time Samples.three_names 2 1 None
     = Some [ {| Agg.name := "a"; Agg.sum := 100; Agg.max := 100; Agg.min := 100;
                 Agg.mean := 100; Agg.std := Some (Pandas.Sqrt 0) |};
              {| Agg.name := "b"; Agg.sum := 6; Agg.max := 6; Agg.min := 6;
                 Agg.mean := 6; Agg.std := Some (Pandas.Sqrt 0) |};
              {| Agg.name := "others"; Agg.sum := 4; Agg.max := 4; Agg.min := 4;
                 Agg.mean := 4; Agg.std := Some (Pandas.Sqrt 0) |} ].
Proof. split; vm_compute; reflexivity. Qed.

(** C3. With a cap of one name, "b" (two samples of 3) and "c" (two samples
    of 2) are renamed and collapsed.  The "others" row has the sum of their
    sums, 10, and the mean 5 and variance 2 of the sums 6 and 4; but its [max]
    is 6 and its [min] is 4, the largest and the smallest of the two sums,
    where the largest of their maxes is 3 and the smallest of their mins is 2. *)
Theorem others_row_takes_max_and_min_of_sums :
  _aggr_gpu_kernel_time Samples.three_names 1 (8 # 10) None
  = Some [ {| Agg.name := "a"; Agg.sum := 100; Agg.max := 100; Agg.min := 100;
              Agg.mean := 100; Agg.std := Some (Pandas.Sqrt 0) |};
           {| Agg.name := "others"; Agg.sum := 10; Agg.max := 6; Agg.min := 4;
              Agg.mean := 5; Agg.std := Some (Pandas.Sqrt 2) |} ]
  /\ map (fun r => (Agg.name r, Agg.max r, Agg.min r))
         (aggr_by_name Samples.three_names)
     = [("a", 100, 100); ("b", 3, 3); ("c", 2, 2)].
Proof. split; vm_compute; reflexivity. Qed.

(** X6. Every row of the collapsed table aggregates the [sum] column of the
    renamed frame: its statistics are those of the sums of the groups that
    carry its name, its [sum] being their int64 sum. *)
Lemma collapsed_row_aggregates_sums
    (gpu_kernel_time : list (string * Z)) (num_kernels : Z) (duration_ratio : Q)
    (allowlist_names : option (list string)) out r :
  num_kernels < Z.of_nat (distinct_names gpu_kernel_time) ->
  _aggr_gpu_kernel_time gpu_kernel_time num_kernels duration_ratio allowlist_names
  = Some out ->
  In r out ->
  let df' := rename_others allowlist_names num_kernels
               (Pandas.quantile
                  (Pandas.cumsum (map Agg.sum (aggr_by_name gpu_kernel_time)))
                  duration_ratio)
               (aggr_by_name gpu_kernel_time) in
  let sums := values_of (Agg.name r) (map (fun r => (Agg.name r, Agg.sum r)) df') in
  Agg.sum r = Pandas.sum64 sums
  /\ Agg.max r = Pandas.max sums
  /\ Agg.min r = Pandas.min sums
  /\ Agg.mean r = Pandas.mean sums
  /\ Agg.std r = match Pandas.std sums with
                 | Some s => Some s
                 | None => Some (Pandas.Sqrt 0)
                 end.
Proof.
  intros Hmore E Hr. unfold _aggr_gpu_kernel_time in E.
  rewrite aggr_by_name_length in E.
  destruct (Z.ltb_spec num_kernels (Z.of_nat (distinct_names gpu_kernel_time))); [|lia].
  destruct (valid_percentile duration_ratio); [|discriminate].
  injection E as <-.
  unfold fillna_std in Hr. apply in_map_iff in Hr. destruct Hr as (r0 & Er & Hr0).
  apply in_map_iff in Hr0. destruct Hr0 as ([k vs] & E0 & Hg).
  apply groupby_In in Hg. destruct Hg as [Hvs _].
  assert (Hk : Agg.name r = k).
  { subst r r0. cbn. now destruct (Pandas.std vs). }
  cbv zeta. rewrite Hk, <- Hvs. subst r r0. cbn.
  destruct (Pandas.std vs); cbn; auto.
Qed.

(** C4, as it is stated, fails: under the cap nothing is renamed.  No input
    with at most [num_kernels] distinct names, and no [duration_ratio], makes
    the call return anything but the first aggregation. *)
Lemma duration_ratio_alone_never_collapses :
  ~ exists (gpu_kernel_time : list (string * Z)) (num_kernels : Z)
           (duration_ratio : Q) (allowlist_names : option (list string)),
      Z.of_nat (distinct_names gpu_kernel_time) <= num_kernels
      /\ _aggr_gpu_kernel_time gpu_kernel_time num_kernels duration_ratio allowlist_names
         <> Some (aggr_by_name gpu_kernel_time).
Proof.
  intros (df & nk & dr & allow & Hle & Hne). apply Hne.
  unfold _aggr_gpu_kernel_time. rewrite aggr_by_name_length.
  destruct (Z.ltb_spec nk (Z.of_nat (distinct_names df))); [lia | reflexivity].
Qed.

(** C4, amended. The quantile rule is gated by the cap: when the number of
    distinct names does not exceed [num_kernels], the call returns the first
    aggregation as it is, whatever [duration_ratio], and every row carries the
    name of an input sample, so no group is renamed to "others" or collapsed. *)
Theorem duration_ratio_gated_by_num_kernels
    (gpu_kernel_time : list (string * Z)) (num_kernels : Z) (duration_ratio : Q)
    (allowlist_names : option (list string)) :
  Z.of_nat (distinct_names gpu_kernel_time) <= num_kernels ->
  _aggr_gpu_kernel_time gpu_kernel_time num_kernels duration_ratio allowlist_names
  = Some (aggr_by_name gpu_kernel_time)
  /\ Forall (fun r => In (Agg.name r) (map fst gpu_kernel_time))
            (aggr_by_name gpu_kernel_time).
Proof.
  intros Hle. split.
  - unfold _aggr_gpu_kernel_time. rewrite aggr_by_name_length.
    destruct (Z.ltb_spec num_kernels (Z.of_nat (distinct_names gpu_kernel_time)));
      [lia | reflexivity].
  - apply Forall_forall. intros r. apply aggr_by_name_input_names.
Qed.

Lemma duration_ratio_gated_by_num_kernels_witness :
  _aggr_gpu_kernel_time Samples.three_names 3 (1 # 10) None
  = Some (aggr_by_name Samples.three_names)
  /\ Forall (fun r => In (Agg.name r) (map fst Samples.three_names))
            (aggr_by_name Samples.three_names).
Proof.
  apply (duration_ratio_gated_by_num_kernels Samples.three_names 3 (1 # 10) None).
  vm_compute. discriminate.
Defined.

(** Above the cap the quantile rule does act on its own: with a cap of two
    names, "b" has index 1 and is renamed at a ratio of 0.1 and kept at 1. *)
Example quantile_rule_above_the_cap :
  option_map (map Agg.name) (_aggr_gpu_kernel_time Samples.three_names 2 (1 # 10) None)
  = Some ["a"; "others"]
  /\ option_map (map Agg.name) (_aggr_gpu_kernel_time Samples.three_names 2 1 None)
     = Some ["a"; "b"; "others"].
Proof. split; vm_compute; reflexivity. Qed.

(* --------------------------------------------------------------------- *)
(** ** Idle time on a stream *)

Import IdleProps.

Lemma find_groupby {A} (rows : list (string * A)) n :
  find (fun g => String.eqb (fst g) n) (Pandas.groupby rows)
  = match values_of n rows with
    | [] => None
    | vs => Some (n, vs)
    end.
Proof.
  destruct (find _ (Pandas.groupby rows)) as [[k vs]|] eqn:E.
  - apply find_some in E. destruct E as [Hin Hk]. cbn in Hk.
    apply String.eqb_eq in Hk. subst k.
    destruct (groupby_In rows n vs Hin) as [-> Hne].
    destruct (values_of n rows); [now elim Hne | reflexivity].
  - destruct (values_of n rows) as [|v vs] eqn:Ev; [reflexivity|].
    exfalso.
    assert (Hin : In n (map fst rows)) by (apply values_of_nonempty; now rewrite Ev).
    apply groupby_exists in Hin.
    apply (find_none _ _ E) in Hin. cbn in Hin. now rewrite String.eqb_refl in Hin.
Qed.

Lemma find_map_key {B} (h : string * B -> Idle.row) (gs : list (string * B)) n :
  (forall k v, Idle.idle_category (h (k, v)) = k) ->
  find (fun r => String.eqb (Idle.idle_category r) n) (map h gs)
  = option_map h (find (fun g => String.eqb (fst g) n) gs).
Proof.
  intros Hh. induction gs as [|[k v] gs IH]; [reflexivity|].
  cbn [map find fst]. rewrite Hh. destruct (String.eqb k n); [reflexivity | exact IH].
Qed.

Lemma IdleTimeType_name_eqb a b :
  String.eqb (IdleTimeType_name a) (IdleTimeType_name b) = IdleTimeType_eqb a b.
Proof. destruct a, b; reflexivity. Qed.

(** The rows of a stream: the first kernel, with NaN for [prev_end_ts] and
    [idle_interval] and the default category, then one row per pair. *)
Lemma pair_rows_unfold delay (l : list joined) : forall prev,
  map (fun '(k, e, p) =>
         let idle_interval := option_map (fun p => Ev.ts (kernel k) - p) p in
         {| ir_kernel := k; end_ts := e; prev_end_ts := p;
            idle_interval := idle_interval;
            idle_category := classify delay (ts_runtime k) p idle_interval |})
      (combine (combine l (map (fun k => Ev.ts (kernel k) + Ev.dur (kernel k)) l))
               (map Some (removelast
                            ((Ev.ts (kernel prev) + Ev.dur (kernel prev))
                             :: map (fun k => Ev.ts (kernel k) + Ev.dur (kernel k)) l))))
  = pair_rows delay prev l.
Proof.
  induction l as [|k l IH]; intros prev; [reflexivity|].
  cbn [map removelast combine pair_rows]. cbn [map]. f_equal.
  specialize (IH k). cbn [map removelast] in IH. exact IH.
Qed.

Lemma idle_rows_unfold stream gpu_kernels delay :
  idle_rows stream gpu_kernels delay
  = match Pandas.sort_values (fun k => Ev.ts (kernel k))
            (filter (fun k => Ev.stream (kernel k) =? stream) gpu_kernels) with
    | [] => []
    | k0 :: l =>
        {| ir_kernel := k0; end_ts := Ev.ts (kernel k0) + Ev.dur (kernel k0);
           prev_end_ts := None; idle_interval := None; idle_category := OTHER |}
        :: pair_rows delay k0 l
    end.
Proof.
  unfold idle_rows.
  destruct (Pandas.sort_values _ _) as [|k0 l]; [reflexivity|].
  cbn [map Pandas.shift_down combine]. f_equal.
  - cbn. unfold classify. cbn. now destruct (ts_runtime k0).
  - apply (pair_rows_unfold delay l k0).
Qed.

Lemma nansum_pair_rows delay c (l : list joined) : forall prev,
  Pandas.nansum
    (values_of (IdleTimeType_name c)
       (map (fun r => (IdleTimeType_name (idle_category r), idle_interval r))
            (pair_rows delay prev l)))
  = gap_total c (pair_gaps delay prev l).
Proof.
  induction l as [|k l IH]; intros prev; [reflexivity|].
  specialize (IH k). unfold values_of, gap_total in *.
  cbn [pair_rows pair_gaps map filter fst snd idle_category idle_interval gap_of].
  rewrite IdleTimeType_name_eqb.
  destruct (IdleTimeType_eqb _ c); cbn [map snd Pandas.nansum Pandas.sum fold_right].
  - unfold Pandas.nansum, Pandas.sum in IH. rewrite IH. reflexivity.
  - exact IH.
Qed.

(** What the breakdown of a stream reports for a category: the sum of the
    gaps of its pairs, of either sign. *)
Lemma find_map_fst {B C} (h : string * B -> string * C) (gs : list (string * B)) n :
  (forall g, fst (h g) = fst g) ->
  find (fun g => String.eqb (fst g) n) (map h gs)
  = option_map h (find (fun g => String.eqb (fst g) n) gs).
Proof.
  intros Hh. induction gs as [|g gs IH]; [reflexivity|].
  cbn [map find]. rewrite Hh. destruct (String.eqb (fst g) n); [reflexivity | exact IH].
Qed.

Lemma analyze_idle_time_values stream gpu_kernels delay c :
  idle_time_of c (_analyze_idle_time_for_stream stream gpu_kernels delay)
  = Pandas.nansum
      (values_of (IdleTimeType_name c)
         (map (fun r => (IdleTimeType_name (idle_category r), idle_interval r))
              (idle_rows stream gpu_kernels delay))).
Proof.
  unfold idle_time_of, _analyze_idle_time_for_stream.
  set (pairs := map _ (idle_rows stream gpu_kernels delay)).
  set (res := map (fun '(c, vs) => (c, Pandas.nansum vs)) (Pandas.groupby pairs)).
  generalize (Pandas.sum (map snd res)). intros total.
  rewrite (find_map_key _ _ _) by (intros k v; reflexivity).
  unfold res. rewrite find_map_fst by (now intros [k vs]).
  rewrite find_groupby.
  destruct (values_of (IdleTimeType_name c) pairs); reflexivity.
Qed.

(** What the breakdown of a stream reports for a category: the sum of the
    gaps of its pairs, of either sign. *)
Lemma analyze_idle_time_of stream gpu_kernels delay c :
  idle_time_of c (_analyze_idle_time_for_stream stream gpu_kernels delay)
  = gap_total c (stream_gaps stream gpu_kernels delay).
Proof.
  rewrite analyze_idle_time_values, idle_rows_unfold. unfold stream_gaps.
  destruct (Pandas.sort_values _ _) as [|k0 l]; [reflexivity|].
  rewrite <- (nansum_pair_rows delay c l k0).
  unfold values_of. cbn [map filter fst idle_category idle_interval].
  rewrite IdleTimeType_name_eqb.
  destruct (IdleTimeType_eqb OTHER c); reflexivity.
Qed.



(** The ratio of a row is the quotient of its idle time by the sum of the
    idle times of the stream. *)
Lemma analyze_ratio stream gpu_kernels delay r :
  In r (_analyze_idle_time_for_stream stream gpu_kernels delay) ->
  Idle.stream r = stream
  /\ Idle.idle_time_ratio r
     = Pandas.fdiv (Idle.idle_time r)
         (Pandas.sum (map Idle.idle_time
                        (_analyze_idle_time_for_stream stream gpu_kernels delay))).
Proof.
  unfold _analyze_idle_time_for_stream.
  set (res := map (fun '(c, vs) => (c, Pandas.nansum vs)) _).
  intros Hin. apply in_map_iff in Hin. destruct Hin as ([c idle] & <- & _).
  split; [reflexivity|]. cbn. f_equal. f_equal.
  rewrite map_map. apply map_ext. now intros [c' idle'].
Qed.

Lemma fdiv_zero a : Pandas.fdiv a 0 = ratio_over_zero a.
Proof. reflexivity. Qed.

Lemma fround2_ratio_over_zero a :
  Pandas.fround2 (ratio_over_zero a) = ratio_over_zero a.
Proof. unfold ratio_over_zero. destruct (a =? 0), (0 <? a); reflexivity. Qed.

Lemma ratio_over_zero_not_finite a q : ratio_over_zero a <> Pandas.Fin q.
Proof. unfold ratio_over_zero. destruct (a =? 0), (0 <? a); discriminate. Qed.

(** C10, as it is stated, fails.  On stream 7 of the sample the gap of -50
    is kernel wait and the gap of 50 is host wait: the idle times sum to zero,
    and the ratios of the two categories are minus and plus infinity, not
    NaN. *)
Lemma cancelling_gaps_give_infinite_ratios :
  get_idle_time_breakdown Samples.cancelling_trace 10 0 None
  = Some [ {| IdleBreakdown.rank := 0; IdleBreakdown.stream := 7;
              IdleBreakdown.idle_category := "host_wait";
              IdleBreakdown.idle_time := 50;
              IdleBreakdown.idle_time_ratio := Pandas.PosInf |};
           {| IdleBreakdown.rank := 0; IdleBreakdown.stream := 7;
              IdleBreakdown.idle_category := "kernel_wait";
              IdleBreakdown.idle_time := -50;
              IdleBreakdown.idle_time_ratio := Pandas.NegInf |};
           {| IdleBreakdown.rank := 0; IdleBreakdown.stream := 7;
              IdleBreakdown.idle_category := "other";
              IdleBreakdown.idle_time := 0;
              IdleBreakdown.idle_time_ratio := Pandas.NaN |} ].
Proof. vm_compute. reflexivity. Qed.

(** C10, amended. Where the idle times of an analysed stream sum to zero,
    every ratio returned for that stream is the quotient by zero, no error is
    raised and no ratio is finite: NaN in a category whose own idle time is
    zero, plus infinity where it is positive and minus infinity where it is
    negative. *)
Theorem zero_total_ratios_are_not_finite
    (t : Trace) (consecutive_kernel_delay rank : Z) (streams : option (list Z))
    (trace_df : list Event) (out : list IdleBreakdown.row) (r : IdleBreakdown.row) :
  get_trace t rank = Some trace_df ->
  get_idle_time_breakdown t consecutive_kernel_delay rank streams = Some out ->
  In r out ->
  Pandas.sum
    (map Idle.idle_time
       (_analyze_idle_time_for_stream (IdleBreakdown.stream r)
          (idle_gpu_kernels t trace_df) consecutive_kernel_delay)) = 0 ->
  IdleBreakdown.idle_time_ratio r = ratio_over_zero (IdleBreakdown.idle_time r)
  /\ forall q, IdleBreakdown.idle_time_ratio r <> Pandas.Fin q.
Proof.
  intros Ht E Hin Hzero. unfold get_idle_time_breakdown in E. rewrite Ht in E.
  set (gk := idle_gpu_kernels t trace_df) in *.
  set (ss := match streams with
             | None | Some [] => _
             | Some l => l
             end) in E.
  destruct (map _ ss) as [|x xs] eqn:Emap; [discriminate|].
  rewrite <- Emap in E. clear Emap x xs. injection E as <-.
  apply in_map_iff in Hin. destruct Hin as (r0 & <- & Hr0).
  apply in_concat in Hr0. destruct Hr0 as (tbl & Htbl & Hr0).
  apply in_map_iff in Htbl. destruct Htbl as (s & <- & _).
  destruct (analyze_ratio _ _ _ _ Hr0) as [Hs Hratio].
  cbn [IdleBreakdown.stream IdleBreakdown.idle_time IdleBreakdown.idle_time_ratio] in *.
  rewrite Hs in Hzero. rewrite Hratio, Hzero, fdiv_zero, fround2_ratio_over_zero.
  split; [reflexivity|]. intros q. apply ratio_over_zero_not_finite.
Qed.

Lemma zero_total_ratios_are_not_finite_witness :
  Forall (fun r =>
            IdleBreakdown.idle_time_ratio r = ratio_over_zero (IdleBreakdown.idle_time r)
            /\ forall q, IdleBreakdown.idle_time_ratio r <> Pandas.Fin q)
         [ {| IdleBreakdown.rank := 0; IdleBreakdown.stream := 7;
              IdleBreakdown.idle_category := "host_wait";
              IdleBreakdown.idle_time := 50;
              IdleBreakdown.idle_time_ratio := Pandas.PosInf |} ].
Proof.
  constructor; [|constructor].
  eapply (zero_total_ratios_are_not_finite Samples.cancelling_trace 10 0 None).
  - reflexivity.
  - vm_compute. reflexivity.
  - left. reflexivity.
  - vm_compute. reflexivity.
Defined.

(** A stream with a single kernel has one row, "other", with idle time 0 and
    ratio NaN. *)
Example single_kernel_ratio :
  _analyze_idle_time_for_stream 7 Samples.single_kernel 10
  = [ {| Idle.idle_category := "other"; Idle.idle_time := 0; Idle.stream := 7;
         Idle.idle_time_ratio := Pandas.NaN |} ].
Proof. reflexivity. Qed.

(* --------------------------------------------------------------------- *)
(** ** Kernels and user annotations *)

Import AnnotationProps.

Lemma assign_loop_frame (p : Z * Z) (rows : list Event) : forall df,
  fold_left (fun df row => assign_annotation p row df) rows df
  = map (fun k =>
           {| k_event := k_event k;
              user_annotation :=
                fold_left (fun ua a => if assigned p (k_event k) a then Ev.name a else ua)
                          rows (user_annotation k) |}) df.
Proof.
  induction rows as [|a rows IH]; intros df.
  - cbn. rewrite <- (map_id df) at 1. apply map_ext. now intros [e ua].
  - cbn [fold_left]. rewrite IH. unfold assign_annotation. rewrite map_map.
    apply map_ext. intros k. unfold assigned.
    destruct ((Ev.pid (k_event k) =? fst p) && (Ev.tid (k_event k) =? snd p)
              && overlaps (k_event k) a); reflexivity.
Qed.

(** The association treats every kernel on its own. *)
Lemma associate_rows (gpu_user_anno_df : list Event) (gpu_kernels_df : list kernel_row) :
  associate gpu_kernels_df gpu_user_anno_df
  = map (fun k =>
           {| k_event := k_event k;
              user_annotation :=
                annotate_loops (k_event k) (user_annotation k) gpu_user_anno_df |})
        gpu_kernels_df.
Proof.
  unfold associate, annotate_loops.
  generalize (pid_tids_of gpu_user_anno_df) as ps. intros ps. revert gpu_kernels_df.
  induction ps as [|p ps IH]; intros df.
  - cbn. rewrite <- (map_id df) at 1. apply map_ext. now intros [e ua].
  - cbn [fold_left]. rewrite IH, assign_loop_frame, map_map. reflexivity.
Qed.

Lemma pair_eqb_eq p q : pair_eqb p q = true <-> p = q.
Proof.
  destruct p as [a b], q as [c d]. unfold pair_eqb. cbn.
  rewrite andb_true_iff, !Z.eqb_eq. split; [intros [-> ->]; reflexivity | now intros [= -> ->]].
Qed.

(** The annotations of another [(pid, tid)] leave the kernel alone. *)
Lemma other_pair_keeps (e : Event) (p : Z * Z) (rows : list Event) ua :
  p <> (Ev.pid e, Ev.tid e) ->
  fold_left (fun ua a => if assigned p e a then Ev.name a else ua) rows ua = ua.
Proof.
  intros Hne. induction rows as [|a rows IH]; [reflexivity|].
  cbn [fold_left]. unfold assigned in *.
  destruct (Z.eqb_spec (Ev.pid e) (fst p)) as [E1|_]; cbn [andb]; [|exact IH].
  destruct (Z.eqb_spec (Ev.tid e) (snd p)) as [E2|_]; cbn [andb]; [|exact IH].
  exfalso. apply Hne. destruct p; cbn in *; congruence.
Qed.

Lemma assigned_own e a : assigned (Ev.pid e, Ev.tid e) e a = overlaps e a.
Proof. unfold assigned. cbn [fst snd]. now rewrite !Z.eqb_refl. Qed.

Lemma matches_query e a :
  matches e a
  = (Ev.pid a =? Ev.pid e) && (Ev.tid a =? Ev.tid e) && overlaps e a.
Proof.
  unfold matches.
  now rewrite (Z.eqb_sym (Ev.pid e) (Ev.pid a)), (Z.eqb_sym (Ev.tid e) (Ev.tid a)).
Qed.

(** The annotations of the kernel's own [(pid, tid)]: the last that
    overlaps wins, as in [annotate]. *)
Lemma own_pair_annotates (e : Event) (annos : list Event) : forall ua,
  fold_left (fun ua a => if assigned (Ev.pid e, Ev.tid e) e a then Ev.name a else ua)
            (query_pid_tid (Ev.pid e, Ev.tid e) annos) ua
  = annotate e ua annos.
Proof.
  unfold annotate, query_pid_tid. cbn [fst snd].
  induction annos as [|a annos IH]; intros ua; [reflexivity|].
  cbn [filter fold_left]. rewrite (matches_query e a).
  destruct ((Ev.pid a =? Ev.pid e) && (Ev.tid a =? Ev.tid e)); cbn [andb fold_left].
  - rewrite assigned_own. apply IH.
  - apply IH.
Qed.

Lemma annotate_no_match (e : Event) (annos : list Event) ua :
  (forall a, In a annos -> matches e a = false) -> annotate e ua annos = ua.
Proof.
  unfold annotate. induction annos as [|a annos IH]; intros H; [reflexivity|].
  cbn [fold_left]. rewrite (H a) by now left. apply IH. intros; apply H; now right.
Qed.

Lemma annotate_loops_eq (e : Event) (annos : list Event) ua :
  annotate_loops e ua annos = annotate e ua annos.
Proof.
  unfold annotate_loops.
  set (q := (Ev.pid e, Ev.tid e)).
  assert (Hnd : NoDup (pid_tids_of annos)) by apply unique_from_NoDup, pair_eqb_eq.
  assert (Hin : forall p, In p (pid_tids_of annos)
                          <-> exists a, In a annos /\ (Ev.pid a, Ev.tid a) = p).
  { intros p. unfold pid_tids_of, Pandas.unique.
    rewrite (unique_from_In _ pair_eqb_eq), in_map_iff. cbn [In].
    split; [intros [(a & E & Ha) _]; eauto | intros (a & Ha & E); split; eauto]. }
  assert (Hskip : forall ps u, ~ In q ps ->
            fold_left (fun ua p =>
                         fold_left (fun ua a => if assigned p e a then Ev.name a else ua)
                                   (query_pid_tid p annos) ua) ps u = u).
  { induction ps as [|p ps IH]; intros u Hq; [reflexivity|].
    cbn [fold_left]. rewrite other_pair_keeps.
    - apply IH. intros H. apply Hq. now right.
    - intros ->. apply Hq. now left. }
  assert (Hown : forall ps, NoDup ps -> In q ps -> forall u,
            fold_left (fun ua p =>
                         fold_left (fun ua a => if assigned p e a then Ev.name a else ua)
                                   (query_pid_tid p annos) ua) ps u
            = annotate e u annos).
  { induction 1 as [|p ps Hp Hps IH]; intros Hq u; [contradiction|].
    cbn [fold_left]. destruct Hq as [->|Hq].
    - rewrite Hskip by exact Hp. apply own_pair_annotates.
    - rewrite other_pair_keeps; [now apply IH|]. intros ->. contradiction. }
  destruct (in_dec (fun x y => decide (x = y)) q (pid_tids_of annos)) as [Hq|Hq].
  - now apply Hown.
  - rewrite Hskip by exact Hq. symmetry. apply annotate_no_match.
    intros a Ha. unfold matches.
    destruct (Z.eqb_spec (Ev.pid e) (Ev.pid a)) as [E1|_]; [|reflexivity].
    destruct (Z.eqb_spec (Ev.tid e) (Ev.tid a)) as [E2|_]; [|reflexivity].
    exfalso. apply Hq. apply Hin. exists a. split; [exact Ha|].
    unfold q. congruence.
Qed.

Lemma annotate_snoc e ua annos x :
  annotate e ua (annos ++ [x])
  = if matches e x then Ev.name x else annotate e ua annos.
Proof. unfold annotate. now rewrite fold_left_app. Qed.

Lemma sorted_snoc_inv {A} (R : A -> A -> Prop) l x :
  StronglySorted R (l ++ [x]) -> StronglySorted R l /\ Forall (fun y => R y x) l.
Proof.
  induction l as [|y l IH]; intros H; [split; constructor|].
  cbn in H. inversion H as [|? ? Hs Hall]; subst.
  destruct (IH Hs) as [IH1 IH2]. split.
  - constructor; [exact IH1|]. apply Forall_app in Hall. tauto.
  - constructor; [|exact IH2]. apply Forall_app in Hall.
    destruct Hall as [_ Hx]. now inversion Hx.
Qed.

(** In a frame in descending order of [dur], the last matching annotation
    is one of least duration. *)
Lemma annotate_sorted (e : Event) (a : Event) : forall (annos : list Event) ua,
  StronglySorted (key_le (fun x => - Ev.dur x)) annos ->
  In a annos -> matches e a = true ->
  (forall a', In a' annos -> matches e a' = true -> Ev.name a' <> Ev.name a ->
              Ev.dur a < Ev.dur a') ->
  annotate e ua annos = Ev.name a.
Proof.
  induction annos as [|x annos IH] using rev_ind; intros ua Hs Hin Hm Hmin; [contradiction|].
  apply sorted_snoc_inv in Hs. destruct Hs as [Hs Hall].
  rewrite annotate_snoc. apply in_app_or in Hin.
  destruct (matches e x) eqn:Ex.
  - destruct (Z.eq_dec (Ev.name x) (Ev.name a)) as [E|Hne]; [exact E|].
    exfalso.
    assert (Hlt : Ev.dur a < Ev.dur x).
    { apply Hmin; [apply in_or_app; right; now left | exact Ex | exact Hne]. }
    destruct Hin as [Hin|[->|[]]]; [|lia].
    rewrite Forall_forall in Hall. apply Hall in Hin. unfold key_le in Hin. lia.
  - destruct Hin as [Hin|[->|[]]]; [|congruence].
    apply IH; auto. intros a' Ha'. apply Hmin. apply in_or_app. now left.
Qed.

Lemma with_interval_index_returns (df : list Event) :
  Forall (fun e => 0 <= Ev.dur e) df -> with_interval_index df = Call.ret df.
Proof.
  intros H. unfold with_interval_index.
  replace (forallb _ df) with true; [reflexivity|].
  symmetry. apply forallb_forall. rewrite Forall_forall in H.
  intros e He. apply Z.leb_le. specialize (H e He). lia.
Qed.

Lemma with_interval_index_raises (df : list Event) (a : Event) :
  In a df -> Ev.dur a < 0 -> with_interval_index df = Call.raise "ValueError".
Proof.
  intros Hin Hneg. unfold with_interval_index.
  destruct (forallb _ df) eqn:E; [|reflexivity].
  rewrite forallb_forall in E. specialize (E a Hin). apply Z.leb_le in E. lia.
Qed.

Lemma sort_values_desc_In {A} (key : A -> Z) (l : list A) x :
  In x (Pandas.sort_values_desc key l) <-> In x l.
Proof.
  unfold Pandas.sort_values_desc.
  pose proof (sort_values_perm (fun x => - key x) l) as Hperm. split.
  - apply (Permutation_in _ Hperm).
  - apply (Permutation_in _ (Permutation_sym Hperm)).
Qed.

Lemma sorted_by_weaker {A} (R S : A -> A -> Prop) (l : list A) :
  (forall x y, R x y -> S x y) -> StronglySorted R l -> StronglySorted S l.
Proof.
  intros HRS. induction 1 as [|x l _ IH Hall]; constructor; [exact IH|].
  eapply Forall_impl; [|exact Hall]. intros y. apply HRS.
Qed.

(** C7. A kernel that overlaps several annotations of its [(pid, tid)]
    ends up with the name of the overlapping annotation of least duration,
    because of the order [_get_gpu_user_anno_interval_dataframe] puts the
    annotations in: on a trace with the annotation category and no negative
    duration, that function returns the GPU user annotations of the rank in
    descending order of [dur], and [get_gpu_kernels_with_user_annotations],
    which hands that frame to [_associate_gpu_kernels_with_user_annotations],
    returns (before the decoding of the names, when it is asked for) the
    kernels with row [i], the kernel [e], annotated with the name of [a].
    Stated for an annotation [a] of the rank that overlaps [e] on its
    [(pid, tid)] and is shorter than every such annotation of another
    name. *)
Theorem kernel_gets_the_shortest_overlapping_annotation
    (GPUKernelFilter : SymbolTable -> Event -> bool)
    (decode_symbol_id_to_symbol_name : SymbolTable -> bool -> list kernel_row -> list kernel_row)
    (t : Trace) (rank : Z) (expand_names shortern_names : bool)
    (trace_df : list Event) (id : Z) (i : nat) (e a : Event) :
  get_trace t rank = Some trace_df ->
  sym_index (symbol_table t) !! "gpu_user_annotation" = Some id ->
  id <> -1 ->
  Forall (fun e => 0 <= Ev.dur e) trace_df ->
  nth_error (filter (GPUKernelFilter (symbol_table t)) trace_df) i = Some e ->
  In a trace_df -> Ev.cat a = id ->
  matches e a = true ->
  (forall a', In a' trace_df -> Ev.cat a' = id -> matches e a' = true ->
              Ev.name a' <> Ev.name a -> Ev.dur a < Ev.dur a') ->
  exists gpu_user_anno_df out,
    snd (_get_gpu_user_anno_interval_dataframe trace_df t)
    = Call.Returned (Some gpu_user_anno_df)
    /\ StronglySorted (fun x y => Ev.dur y <= Ev.dur x) gpu_user_anno_df
    /\ snd (get_gpu_kernels_with_user_annotations GPUKernelFilter
             decode_symbol_id_to_symbol_name t rank expand_names shortern_names)
       = Call.Returned
           (Some (if expand_names
                  then decode_symbol_id_to_symbol_name (symbol_table t) shortern_names out
                  else out))
    /\ nth_error out i = Some {| k_event := e; user_annotation := Ev.name a |}.
Proof.
  intros Ht Hid Hne Hdur Hk Ha Hcat Hm Hmin.
  set (annos := Pandas.sort_values_desc Ev.dur (filter (fun e => Ev.cat e =? id) trace_df)).
  assert (Hin : forall x, In x annos <-> In x trace_df /\ Ev.cat x = id).
  { intros x. unfold annos. rewrite sort_values_desc_In, filter_In, Z.eqb_eq. reflexivity. }
  assert (Eannos : _get_gpu_user_anno_interval_dataframe trace_df t
                   = Call.ret (Some annos)).
  { unfold _get_gpu_user_anno_interval_dataframe, sym_id_get. rewrite Hid.
    destruct (Z.eqb_spec id (-1)); [contradiction|].
    fold annos. rewrite with_interval_index_returns; [reflexivity|].
    apply Forall_forall. intros x Hx. apply Hin in Hx.
    rewrite Forall_forall in Hdur. now apply Hdur. }
  assert (Hsorted : StronglySorted (key_le (fun x => - Ev.dur x)) annos)
    by apply sort_values_sorted.
  exists annos.
  exists (associate (map (fun e => {| k_event := e; user_annotation := -1 |})
                         (filter (GPUKernelFilter (symbol_table t)) trace_df))
                    annos).
  split; [now rewrite Eannos|]. split.
  { apply (sorted_by_weaker (key_le (fun x => - Ev.dur x))); [|exact Hsorted].
    intros x y. unfold key_le. lia. }
  split.
  - unfold get_gpu_kernels_with_user_annotations. rewrite Ht, Eannos.
    unfold _get_gpu_kernel_interval_dataframe.
    rewrite with_interval_index_returns.
    2:{ apply Forall_forall. intros x Hx.
        apply filter_In in Hx. rewrite Forall_forall in Hdur. now apply Hdur. }
    reflexivity.
  - rewrite associate_rows, !nth_error_map, Hk. cbn [option_map k_event user_annotation].
    do 2 f_equal. rewrite annotate_loops_eq.
    apply annotate_sorted.
    + exact Hsorted.
    + apply Hin. split; [exact Ha | exact Hcat].
    + exact Hm.
    + intros a' Ha'. apply Hin in Ha'. destruct Ha' as [Ha' Hc']. now apply Hmin.
Qed.

(** Annotation A on [0,1000) (symbol 3), annotation B on [100,200)
    (symbol 4), kernel K on [120,150), B listed first in the trace: K is
    assigned B. *)
Lemma kernel_gets_the_shortest_overlapping_annotation_witness :
  exists gpu_user_anno_df out,
    snd (_get_gpu_user_anno_interval_dataframe Samples.nested_annotations
           Samples.nested_trace)
    = Call.Returned (Some gpu_user_anno_df)
    /\ StronglySorted (fun x y => Ev.dur y <= Ev.dur x) gpu_user_anno_df
    /\ snd (get_gpu_kernels_with_user_annotations Samples.kernel_category
             Samples.no_decoding Samples.nested_trace 0 false true)
       = Call.Returned (Some out)
    /\ nth_error out 0
       = Some {| k_event := Samples.event 0 2 0 7 120 30; user_annotation := 4 |}.
Proof.
  apply (kernel_gets_the_shortest_overlapping_annotation Samples.kernel_category
           Samples.no_decoding Samples.nested_trace 0 false true
           Samples.nested_annotations 1 0%nat
           (Samples.event 0 2 0 7 120 30) (Samples.event 1 4 0 7 100 100)).
  - reflexivity.
  - vm_compute. reflexivity.
  - lia.
  - repeat constructor; vm_compute; discriminate.
  - vm_compute. reflexivity.
  - left. reflexivity.
  - reflexivity.
  - reflexivity.
  - intros a' [<-|[<-|[<-|[]]]] Hc _ Hne;
      [now elim Hne | vm_compute; reflexivity | vm_compute in Hc; discriminate Hc].
Defined.

(** The same through [get_gpu_kernels_with_user_annotations], names left
    as symbol ids. *)
Example nested_annotations_assign_B :
  get_gpu_kernels_with_user_annotations Samples.kernel_category Samples.no_decoding
    Samples.nested_trace 0 false true
  = ([ {| Call.lvl := Call.INFO;
          Call.msg := "Pid,tid = {'pid': 0, 'tid': 7}, Num gpu annotations = 2" |} ],
     Call.Returned
       (Some [ {| k_event := Samples.event 0 2 0 7 120 30; user_annotation := 4 |} ])).
Proof. vm_compute. reflexivity. Qed.



(** With the category in the symbol table the analyses never return [None]:
    a trace with the category and no annotation row gives a table, here the
    kernels with the annotation they start with. *)
Lemma present_category_never_returns_None
    (symbol_name : SymbolTable -> Z -> string)
    (find_matched_symbols : SymbolTable -> list string -> list string)
    (t : Trace) (use_gpu_annotation : bool) (idx : Z)
    (duration_ratio : Q) (num_kernels : Z) (allowlist_patterns : option (list string)) :
  sym_index (symbol_table t) !! annotation_category use_gpu_annotation = Some idx ->
  snd (get_gpu_user_annotation_breakdown symbol_name find_matched_symbols
         t use_gpu_annotation duration_ratio num_kernels allowlist_patterns)
  <> Call.Returned None.
Proof.
  intros Hcat. unfold get_gpu_user_annotation_breakdown.
  fold (annotation_category use_gpu_annotation). rewrite Hcat.
  destruct (fold_left _ (traces t) (Call.ret [])) as [l [e|df]]; cbn; discriminate.
Qed.

Lemma present_category_kernels_never_None
    (GPUKernelFilter : SymbolTable -> Event -> bool)
    (decode_symbol_id_to_symbol_name : SymbolTable -> bool -> list kernel_row -> list kernel_row)
    (t : Trace) (rank : Z) (expand_names shortern_names : bool) :
  sym_id_get t "gpu_user_annotation" (-1) <> -1 ->
  snd (get_gpu_kernels_with_user_annotations GPUKernelFilter
         decode_symbol_id_to_symbol_name t rank expand_names shortern_names)
  <> Call.Returned None.
Proof.
  intros Hid. unfold get_gpu_kernels_with_user_annotations.
  destruct (get_trace t rank) as [trace_df|]; [|cbn; discriminate].
  unfold _get_gpu_user_anno_interval_dataframe.
  destruct (Z.eqb_spec (sym_id_get t "gpu_user_annotation" (-1)) (-1)); [contradiction|].
  unfold with_interval_index, _get_gpu_kernel_interval_dataframe, with_interval_index.
  destruct (forallb _ (Pandas.sort_values_desc _ _)); [|cbn; discriminate].
  cbn. destruct (forallb _ _); cbn; discriminate.
Qed.

(* --------------------------------------------------------------------- *)
(** ** The table of [get_temporal_breakdown] *)

Import TemporalProps.

Lemma bind_returned {A B} (m : Call.M A) (f : A -> Call.M B) l b :
  Call.bind m f = (l, Call.Returned b) ->
  exists l1 a l2, m = (l1, Call.Returned a) /\ f a = (l2, Call.Returned b) /\ l = l1 ++ l2.
Proof.
  destruct m as [l1 [e|a]]; cbn; [discriminate|].
  destruct (f a) as [l2 r] eqn:E. intros [= <- ->]. eauto 6.
Qed.

Lemma dict_get_set_other {V} (k k' : string) (v : V) d :
  k <> k' ->
  Pandas.dict_get String.eqb k (Pandas.dict_set String.eqb k' v d)
  = Pandas.dict_get String.eqb k d.
Proof.
  intros Hne. induction d as [|[k0 v0] d IH]; cbn.
  - destruct (String.eqb_spec k k'); [contradiction | reflexivity].
  - destruct (String.eqb_spec k' k0) as [->|Hk0]; cbn.
    + destruct (String.eqb_spec k k0); [contradiction | reflexivity].
    + destruct (String.eqb_spec k k0); [reflexivity | exact IH].
Qed.

Lemma append_to_lacks col v df :
  col <> "non_compute_time_pctg" ->
  lacks_non_compute_pctg df -> lacks_non_compute_pctg (append_to col v df).
Proof.
  intros Hne H. unfold lacks_non_compute_pctg, append_to in *.
  destruct (Pandas.dict_get String.eqb col df);
    rewrite dict_get_set_other by congruence; exact H.
Qed.

Lemma temporal_loop_lacks kt t (ranks : list (Z * list Event)) :
  forall (acc : Call.M frame) l df,
  (forall l0 df0, acc = (l0, Call.Returned df0) -> lacks_non_compute_pctg df0) ->
  fold_left
    (fun acc '(rank, trace_df) =>
       let* result := acc in
       let result := append_to "rank" (Pandas.Int rank) result in
       let* times := idle_time_per_rank kt t trace_df in
       let result := append_to "idle_time(us)" (Pandas.Int (idle_time times)) result in
       let result := append_to "compute_time(us)" (Pandas.Int (compute_time times)) result in
       let result :=
         append_to "non_compute_time(us)" (Pandas.Int (non_compute_time times)) result in
       let result := append_to "kernel_time(us)" (Pandas.Int (kernel_time times)) result in
       let result := append_to "comm_time(us)" (Pandas.Int (comm_time times)) result in
       let result := append_to "mem_time(us)" (Pandas.Int (mem_time times)) result in
       Call.ret result)
    ranks acc = (l, Call.Returned df) ->
  lacks_non_compute_pctg df.
Proof.
  induction ranks as [|[rank trace_df] ranks IH]; intros acc l df Hacc E.
  - cbn in E. eapply Hacc. exact E.
  - cbn [fold_left] in E. eapply IH; [|exact E].
    clear E. intros l' df' E.
    apply bind_returned in E. destruct E as (l1 & res & l2 & Ea & E & _).
    apply bind_returned in E. destruct E as (l3 & times & l4 & _ & E & _).
    injection E as _ <-.
    repeat (apply append_to_lacks; [discriminate|]).
    eapply Hacc. exact Ea.
Qed.

Lemma temporal_result_lacks kt t l df :
  temporal_result kt t = (l, Call.Returned df) -> lacks_non_compute_pctg df.
Proof.
  unfold temporal_result. apply temporal_loop_lacks.
  intros l0 df0 [= _ <-]. reflexivity.
Qed.

Lemma add_ratio_and_pctg_lacks ratio num den df l df' :
  ratio <> "non_compute_time_pctg" ->
  (ratio ++ "_pctg")%string <> "non_compute_time_pctg" ->
  lacks_non_compute_pctg df ->
  add_ratio_and_pctg ratio num den df = (l, Call.Returned df') ->
  lacks_non_compute_pctg df'.
Proof.
  intros H1 H2 Hdf E. unfold add_ratio_and_pctg in E.
  apply bind_returned in E. destruct E as (? & n & ? & _ & E & _).
  apply bind_returned in E. destruct E as (? & d & ? & _ & E & _).
  apply bind_returned in E. destruct E as (? & r & ? & _ & E & _).
  injection E as _ <-. unfold lacks_non_compute_pctg in *.
  rewrite !dict_get_set_other by congruence. exact Hdf.
Qed.

Lemma temporal_frame_lacks kt t l df :
  temporal_frame kt t = (l, Call.Returned df) -> lacks_non_compute_pctg df.
Proof.
  unfold temporal_frame. intros E.
  apply bind_returned in E. destruct E as (? & df0 & ? & E0 & E & _).
  apply bind_returned in E. destruct E as (? & df1 & ? & E1 & E & _).
  apply bind_returned in E. destruct E as (? & df2 & ? & E2 & E & _).
  apply bind_returned in E. destruct E as (? & df3 & ? & E3 & E4 & _).
  apply temporal_result_lacks in E0.
  apply add_ratio_and_pctg_lacks in E1; [|discriminate|discriminate|exact E0].
  apply add_ratio_and_pctg_lacks in E2; [|discriminate|discriminate|exact E1].
  apply add_ratio_and_pctg_lacks in E3; [|discriminate|discriminate|exact E2].
  apply add_ratio_and_pctg_lacks in E4; [|discriminate|discriminate|exact E3].
  exact E4.
Qed.

Lemma select_returned cols df l out :
  select cols df = (l, Call.Returned out) ->
  forall c, In c cols -> Pandas.dict_get String.eqb c df <> None.
Proof.
  revert l out. induction cols as [|c0 cols IH]; intros l out E c Hin; [contradiction|].
  cbn [select] in E.
  apply bind_returned in E. destruct E as (? & vs & ? & Ec & E & _).
  apply bind_returned in E. destruct E as (? & rest & ? & Er & _ & _).
  destruct Hin as [<-|Hin].
  - unfold column in Ec. destruct (Pandas.dict_get String.eqb c0 df); [discriminate|].
    discriminate.
  - eapply IH; eassumption.
Qed.

(** C2. [get_temporal_breakdown] never returns a table: the column
    [non_compute_time_pctg] it selects is never assigned, so for every trace
    the call raises, at the latest with the [KeyError] of the selection. *)
Theorem temporal_breakdown_never_returns
    (kernel_type_of : SymbolTable -> Z -> string) (t : Trace) :
  forall df, snd (get_temporal_breakdown kernel_type_of t) <> Call.Returned df.
Proof.
  intros df E. destruct (get_temporal_breakdown kernel_type_of t) as [l r] eqn:Eg.
  cbn in E. subst r. unfold get_temporal_breakdown in Eg.
  apply bind_returned in Eg. destruct Eg as (? & result_df & ? & Ef & Es & _).
  apply temporal_frame_lacks in Ef.
  eapply (select_returned _ _ _ _ Es "non_compute_time_pctg"); [|exact Ef].
  cbn. tauto.
Qed.

(** On the sample rank every other column is there, and the selection
    raises. *)
Example temporal_breakdown_raises_KeyError :
  get_temporal_breakdown Samples.type_of_symbol Samples.busy_trace
  = ([], Call.Raised "KeyError: 'non_compute_time_pctg'")
  /\ idle_time_per_rank Samples.type_of_symbol Samples.busy_trace Samples.busy_rank
     = ([], Call.Returned {| idle_time := 10; compute_time := 20; comm_time := 20;
                             mem_time := 10; non_compute_time := 20;
                             kernel_time := 50 |}).
Proof. split; vm_compute; reflexivity. Qed.

(* --------------------------------------------------------------------- *)
(** ** Merged intervals *)

Lemma covered_perm l1 l2 t : Permutation l1 l2 -> covered l1 t = covered l2 t.
Proof.
  intros H. apply eq_true_iff_eq. rewrite !covered_In.
  split; intros (iv & Hin & Ht); exists iv; split; auto.
  - eapply Permutation_in; eassumption.
  - eapply Permutation_in; [symmetry|]; eassumption.
Qed.

(** The scan keeps the covered time points. *)
Lemma merge_scan_covered t (l : list interval) : forall cur,
  StronglySorted (key_le Utils.ts) (cur :: l) ->
  covered (merge_scan cur l) t = covered (cur :: l) t.
Proof.
  induction l as [|nxt l IH]; intros cur Hs; [reflexivity|].
  inversion Hs as [|? ? Hs' Hall]; subst.
  inversion Hs' as [|? ? Hs'' Hall']; subst.
  inversion Hall as [|? ? Hcn Hall'']; subst. unfold key_le in Hcn.
  cbn [merge_scan].
  destruct (Z.leb_spec (Utils.ts nxt) (end_ cur)) as [Hle|Hgt].
  - rewrite IH.
    + unfold covered. cbn [existsb]. rewrite orb_assoc. f_equal.
      unfold contains. cbn [Utils.ts end_].
      destruct (Z.leb_spec (Utils.ts cur) t), (Z.ltb_spec t (Z.max (end_ cur) (end_ nxt))),
               (Z.ltb_spec t (end_ cur)), (Z.leb_spec (Utils.ts nxt) t),
               (Z.ltb_spec t (end_ nxt)); cbn; try reflexivity; lia.
    + constructor; [exact Hs''|]. cbn [Utils.ts].
      eapply Forall_impl; [|exact Hall'']. unfold key_le. cbn. auto.
  - unfold covered in *. cbn [existsb]. f_equal. apply (IH nxt Hs').
Qed.

Lemma merge_intervals_covered (l : list interval) t :
  covered (merge_intervals l) t = covered l t.
Proof.
  unfold merge_intervals.
  pose proof (sort_values_perm Utils.ts l) as Hperm.
  pose proof (sort_values_sorted Utils.ts l) as Hsorted.
  rewrite <- (covered_perm _ _ t Hperm).
  destruct (Pandas.sort_values Utils.ts l) as [|x l']; [reflexivity|].
  now apply merge_scan_covered.
Qed.

(** The scan returns a merged frame. *)
Lemma merge_scan_premerged (l : list interval) : forall cur prev,
  Forall (fun iv => Utils.ts iv <= end_ iv) (cur :: l) ->
  prev <= Utils.ts cur ->
  premerged_from prev (merge_scan cur l).
Proof.
  induction l as [|nxt l IH]; intros cur prev Hord Hprev.
  - inversion Hord; subst. cbn. auto.
  - inversion Hord as [|? ? Hc Hord']; subst.
    inversion Hord' as [|? ? Hn Hord'']; subst.
    cbn [merge_scan].
    destruct (Z.leb_spec (Utils.ts nxt) (end_ cur)) as [Hle|Hgt].
    + apply IH; [|exact Hprev].
      constructor; [cbn; lia | exact Hord''].
    + cbn [premerged_from]. split; [exact Hprev|]. split; [exact Hc|].
      apply IH; [exact Hord' | lia].
Qed.

Lemma premerged_from_premerged prev ivs : premerged_from prev ivs -> premerged ivs.
Proof. destruct ivs as [|iv ivs]; [auto|]. cbn. tauto. Qed.

Lemma merge_intervals_premerged (l : list interval) :
  Forall (fun iv => Utils.ts iv <= end_ iv) l -> premerged (merge_intervals l).
Proof.
  intros Hord. unfold merge_intervals.
  pose proof (sort_values_perm Utils.ts l) as Hperm.
  assert (Hord' : Forall (fun iv => Utils.ts iv <= end_ iv) (Pandas.sort_values Utils.ts l)).
  { eapply Permutation_Forall; [symmetry; exact Hperm | exact Hord]. }
  destruct (Pandas.sort_values Utils.ts l) as [|x l']; [exact I|].
  apply (premerged_from_premerged (Utils.ts x)).
  apply merge_scan_premerged; [exact Hord' | lia].
Qed.

Lemma merge_intervals_nonempty (l : list interval) : l <> [] -> merge_intervals l <> [].
Proof.
  intros Hne. unfold merge_intervals.
  pose proof (sort_values_perm Utils.ts l) as Hperm.
  destruct (Pandas.sort_values Utils.ts l) as [|x l'].
  - apply Permutation_nil in Hperm. contradiction.
  - clear. revert x. induction l' as [|y l' IH]; intros x; cbn; [discriminate|].
    destruct (Utils.ts y <=? end_ x); [apply IH | discriminate].
Qed.

(** Merging keeps the time stamps among those a float holds exactly: an
    interval of the output starts where an input interval starts and ends
    where an input interval ends. *)
Lemma merge_scan_exact (l : list interval) : forall cur,
  Forall (fun iv => float_exact (Utils.ts iv) /\ float_exact (end_ iv)) (cur :: l) ->
  Forall (fun iv => float_exact (Utils.ts iv) /\ float_exact (end_ iv)) (merge_scan cur l).
Proof.
  induction l as [|nxt l IH]; intros cur H; cbn [merge_scan]; [exact H|].
  inversion H as [|? ? Hcur Hl]; subst. inversion Hl as [|? ? Hnxt Hl']; subst.
  destruct (Utils.ts nxt <=? end_ cur).
  - apply IH. constructor; [|exact Hl']. cbn [Utils.ts end_].
    split; [apply Hcur|]. unfold float_exact in *. lia.
  - constructor; [exact Hcur | apply IH; exact Hl].
Qed.

Lemma merge_intervals_exact (l : list interval) :
  Forall (fun iv => float_exact (Utils.ts iv) /\ float_exact (end_ iv)) l ->
  Forall (fun iv => float_exact (Utils.ts iv) /\ float_exact (end_ iv)) (merge_intervals l).
Proof.
  intros H. unfold merge_intervals.
  pose proof (sort_values_perm Utils.ts l) as Hperm.
  assert (H' : Forall (fun iv => float_exact (Utils.ts iv) /\ float_exact (end_ iv))
                 (Pandas.sort_values Utils.ts l)).
  { eapply Permutation_Forall; [symmetry; exact Hperm | exact H]. }
  destruct (Pandas.sort_values Utils.ts l) as [|x l']; [constructor|].
  now apply merge_scan_exact.
Qed.

Lemma covered_cons iv ivs t : covered (iv :: ivs) t = contains iv t || covered ivs t.
Proof. reflexivity. Qed.

Lemma last_default {A} (l : list A) (d d' : A) : l <> [] -> last l d = last l d'.
Proof.
  induction l as [|x l IH]; intros H; [contradiction|].
  destruct l as [|y l]; [reflexivity|].
  change (last (x :: y :: l) d) with (last (y :: l) d).
  change (last (x :: y :: l) d') with (last (y :: l) d').
  apply IH. discriminate.
Qed.

(** The time of a merged frame is the number of time points it covers,
    all of which lie between its first start and its last end. *)
Lemma premerged_measure (r : list interval) : forall iv prev,
  premerged_from prev (iv :: r) ->
  merged_time (iv :: r)
  = measure (covered (iv :: r)) (Utils.ts iv) (end_ (last (iv :: r) iv))
  /\ Utils.ts iv <= end_ (last (iv :: r) iv)
  /\ (forall t, covered (iv :: r) t = true ->
                Utils.ts iv <= t < end_ (last (iv :: r) iv)).
Proof.
  induction r as [|iv2 r IH]; intros iv prev (Hprev & Hiv & Hrest).
  - cbn [last]. unfold merged_time, Pandas.sum. cbn [map fold_right].
    split; [|split; [exact Hiv|]].
    + rewrite (measure_ext _ (fun _ => true)).
      * rewrite measure_const by exact Hiv. lia.
      * intros t Ht. unfold covered, contains. cbn [existsb].
        destruct (Z.leb_spec (Utils.ts iv) t), (Z.ltb_spec t (end_ iv)); cbn; auto; lia.
    + intros t Ht. apply covered_In in Ht. destruct Ht as (iv0 & [<-|[]] & Ht). exact Ht.
  - destruct (IH iv2 (end_ iv) Hrest) as (IHm & IHle & IHsup).
    destruct Hrest as (Hgap & Hiv2 & _).
    change (last (iv :: iv2 :: r) iv) with (last (iv2 :: r) iv).
    assert (Elast : last (iv2 :: r) iv = last (iv2 :: r) iv2)
      by (apply last_default; discriminate).
    rewrite Elast. set (hi := end_ (last (iv2 :: r) iv2)) in *.
    split; [|split; [lia|]].
    + rewrite (measure_split _ (Utils.ts iv) (end_ iv) hi) by lia.
      rewrite (measure_split _ (end_ iv) (Utils.ts iv2) hi) by lia.
      rewrite (measure_ext (covered (iv :: iv2 :: r)) (fun _ => true)
                 (Utils.ts iv) (end_ iv)).
      * rewrite measure_const by exact Hiv.
        rewrite (measure_false (covered (iv :: iv2 :: r)) (end_ iv) (Utils.ts iv2)).
        -- rewrite (measure_ext (covered (iv :: iv2 :: r)) (covered (iv2 :: r))
                      (Utils.ts iv2) hi).
           ++ rewrite <- IHm. unfold merged_time, Pandas.sum. cbn [map fold_right]. lia.
           ++ intros t Ht. rewrite covered_cons. unfold contains.
              destruct (Z.ltb_spec t (end_ iv)); [lia|].
              now rewrite andb_false_r.
        -- intros t Ht. rewrite covered_cons. unfold contains.
           destruct (Z.ltb_spec t (end_ iv)); [lia|]. rewrite andb_false_r. cbn [orb].
           destruct (covered (iv2 :: r) t) eqn:E; [|reflexivity].
           apply IHsup in E. lia.
      * intros t Ht. rewrite covered_cons. unfold contains.
        destruct (Z.leb_spec (Utils.ts iv) t), (Z.ltb_spec t (end_ iv)); cbn; auto; lia.
    + intros t Ht. rewrite covered_cons in Ht.
      apply orb_true_iff in Ht. destruct Ht as [Ht|Ht].
      * unfold contains in Ht. apply andb_true_iff in Ht. destruct Ht as [H1 H2].
        apply Z.leb_le in H1. apply Z.ltb_lt in H2. lia.
      * apply IHsup in Ht. lia.
Qed.

(** The time of the merge of a frame is the number of time points the frame
    covers, counted in any window that holds them all. *)
Lemma merged_time_measure (l : list interval) lo hi :
  Forall (fun iv => Utils.ts iv <= end_ iv) l ->
  (forall t, covered l t = true -> lo <= t < hi) ->
  merged_time (merge_intervals l) = measure (covered l) lo hi.
Proof.
  intros Hord Hsup.
  pose proof (merge_intervals_premerged l Hord) as Hpre.
  pose proof (merge_intervals_covered l) as Hcov.
  destruct (merge_intervals l) as [|f r] eqn:E.
  - rewrite measure_false; [reflexivity|].
    intros t _. rewrite <- Hcov. reflexivity.
  - destruct Hpre as [Hf Hr].
    destruct (premerged_measure r f (Utils.ts f)) as (Hm & _ & Hs).
    { cbn. split; [lia | split; assumption]. }
    rewrite Hm. rewrite (measure_ext _ (covered l)) by (intros; apply Hcov).
    apply measure_window; [|exact Hsup].
    intros t Ht. apply Hs. now rewrite Hcov.
Qed.

(** *** Percentages *)

Lemma rint_bounds (y : Q) (n : Z) :
  (0 <= y)%Q -> (y <= inject_Z n)%Q -> 0 <= Pandas.rint y <= n.
Proof.
  intros H0 Hn. unfold Pandas.rint.
  assert (Hf0 : 0 <= Qfloor y).
  { change 0 with (Qfloor 0). now apply Qfloor_resp_le. }
  assert (Hfn : Qfloor y <= n).
  { rewrite <- (Qfloor_Z n). now apply Qfloor_resp_le. }
  destruct (Z.eq_dec (Qfloor y) n) as [E|Hne].
  - assert (Hlt : (y - inject_Z (Qfloor y) < 1 # 2)%Q).
    { rewrite E. apply Qle_lt_trans with (y := 0%Q); [|reflexivity].
      apply (Qplus_le_l _ _ (inject_Z n)). ring_simplify. exact Hn. }
    assert (Hc : Qcompare (y - inject_Z (Qfloor y)) (1 # 2) = Lt)
      by (apply Qlt_alt; exact Hlt).
    rewrite Hc. lia.
  - destruct (Qcompare _ _); [destruct (Z.even _)| |]; lia.
Qed.

Lemma round2_bounds (q : Q) : (0 <= q)%Q -> (q <= 100)%Q ->
  (0 <= Pandas.round2 q)%Q /\ (Pandas.round2 q <= 100)%Q.
Proof.
  intros H0 H100. unfold Pandas.round2.
  destruct (rint_bounds (q * 100) 10000) as [Hr0 Hr1].
  - apply Qmult_le_0_compat; [exact H0 | discriminate].
  - change (inject_Z 10000) with (100 * 100)%Q.
    apply Qmult_le_compat_r; [exact H100 | discriminate].
  - rewrite !Qred_correct. split.
    + apply Qle_shift_div_l; [reflexivity|]. rewrite Qmult_0_l.
      change 0%Q with (inject_Z 0). now rewrite <- Zle_Qle.
    + apply Qle_shift_div_r; [reflexivity|].
      change (100 * 100)%Q with (inject_Z 10000). now rewrite <- Zle_Qle.
Qed.

Lemma pctg_is_percentage (x w : Z) :
  0 < w -> 0 <= x <= w -> is_percentage (pctg x w).
Proof.
  intros Hw Hx. unfold pctg, Pandas.fdiv.
  destruct (Z.eqb_spec w 0); [lia|]. cbn [Pandas.fscale100 Pandas.fround2].
  eexists. split; [reflexivity|].
  apply round2_bounds.
  - apply Qmult_le_0_compat; [discriminate|]. rewrite Qred_correct.
    apply Qle_shift_div_l.
    + change 0%Q with (inject_Z 0). rewrite <- Zlt_Qlt. exact Hw.
    + rewrite Qmult_0_l. change 0%Q with (inject_Z 0). rewrite <- Zle_Qle. lia.
  - rewrite Qred_correct.
    apply Qle_trans with (100 * 1)%Q; [|discriminate].
    apply Qmult_le_l; [reflexivity|].
    apply Qle_shift_div_r.
    + change 0%Q with (inject_Z 0). rewrite <- Zlt_Qlt. exact Hw.
    + rewrite Qmult_1_l. rewrite <- Zle_Qle. lia.
Qed.

Lemma NaN_is_no_percentage : ~ is_percentage Pandas.NaN.
Proof. intros (q & E & _). discriminate. Qed.

(** *** The quantities of [idle_time_per_rank] *)

Lemma interval_of_ordered (kernels : list Event) :
  Forall (fun e => 0 <= Ev.dur e) kernels ->
  Forall (fun iv => Utils.ts iv <= end_ iv) (map interval_of kernels).
Proof.
  intros H. apply Forall_map. eapply Forall_impl; [|exact H].
  intros e He. cbn in *. lia.
Qed.

(** The merged time of a part of the kernels, counted in the window of all
    of them, is at most the merged time of all. *)
Lemma part_time_bounds (part all : list Event) lo hi :
  Forall (fun e => 0 <= Ev.dur e) all ->
  (forall e, In e part -> In e all) ->
  lo <= hi ->
  (forall t, covered (map interval_of all) t = true -> lo <= t < hi) ->
  0 <= merged_time (merge_kernel_intervals part)
    <= merged_time (merge_kernel_intervals all)
  /\ merged_time (merge_kernel_intervals all) <= hi - lo.
Proof.
  intros Hdur Hsub Hle Hsup. unfold merge_kernel_intervals.
  assert (Hpart : Forall (fun e => 0 <= Ev.dur e) part).
  { rewrite Forall_forall in *. auto. }
  assert (Hcov : forall t, covered (map interval_of part) t = true ->
                           covered (map interval_of all) t = true).
  { intros t Ht. apply covered_In in Ht. destruct Ht as (iv & Hin & Ht).
    apply covered_In. exists iv. split; [|exact Ht].
    apply in_map_iff in Hin. destruct Hin as (e & <- & He).
    apply in_map. now apply Hsub. }
  rewrite (merged_time_measure (map interval_of all) lo hi)
    by (auto using interval_of_ordered).
  rewrite (merged_time_measure (map interval_of part) lo hi)
    by (auto using interval_of_ordered).
  pose proof (measure_bounds (covered (map interval_of part)) lo hi Hle).
  pose proof (measure_bounds (covered (map interval_of all)) lo hi Hle).
  pose proof (measure_le (covered (map interval_of part)) (covered (map interval_of all))
                lo hi (fun t _ => Hcov t)).
  lia.
Qed.

(** The invariants of the temporal breakdown, for a rank with kernels on
    its streams, none of negative duration: the call returns, the asserts
    hold, and with a kernel window that is not empty every percentage lies
    between 0 and 100. *)
Lemma idle_time_per_rank_invariants
    (kernel_type_of : SymbolTable -> Z -> string) (t : Trace) (trace_df : list Event) :
  filter (fun e => negb (Ev.stream e =? -1)) trace_df <> [] ->
  Forall (fun e => 0 <= Ev.dur e) (filter (fun e => negb (Ev.stream e =? -1)) trace_df) ->
  exists times,
    idle_time_per_rank kernel_type_of t trace_df = ([], Call.Returned times)
    /\ 0 <= idle_time times <= kernel_time times
    /\ 0 <= compute_time times <= kernel_time times
    /\ 0 <= comm_time times <= kernel_time times
    /\ 0 <= mem_time times <= kernel_time times
    /\ 0 <= non_compute_time times
    /\ (0 < kernel_time times ->
        is_percentage (pctg (idle_time times) (kernel_time times))
        /\ is_percentage (pctg (compute_time times) (kernel_time times))
        /\ is_percentage (pctg (comm_time times) (kernel_time times))
        /\ is_percentage (pctg (mem_time times) (kernel_time times))).
Proof.
  intros Hne Hdur. unfold idle_time_per_rank.
  set (gpu_kernels := filter (fun e => negb (Ev.stream e =? -1)) trace_df) in *.
  unfold _get_idle_time_for_kernels.
  pose proof (interval_of_ordered gpu_kernels Hdur) as Hord.
  pose proof (merge_intervals_premerged _ Hord) as Hpre.
  pose proof (merge_intervals_covered (map interval_of gpu_kernels)) as Hcov.
  assert (Hmne : merge_kernel_intervals gpu_kernels <> []).
  { apply merge_intervals_nonempty. destruct gpu_kernels; [contradiction | discriminate]. }
  change (merge_intervals (map interval_of gpu_kernels))
    with (merge_kernel_intervals gpu_kernels) in Hpre, Hcov.
  destruct (merge_kernel_intervals gpu_kernels) as [|first rest] eqn:Em;
    [contradiction|].
  destruct Hpre as [Hf Hr].
  destruct (premerged_measure rest first (Utils.ts first)) as (_ & Hle & Hsup).
  { cbn. split; [lia | split; assumption]. }
  set (lo := Utils.ts first) in *.
  set (hi := end_ (last (first :: rest) first)) in *.
  assert (Hsup' : forall tp, covered (map interval_of gpu_kernels) tp = true -> lo <= tp < hi).
  { intros tp Ht. apply Hsup. now rewrite Hcov. }
  assert (Hrun : merged_time (first :: rest) = merged_time (merge_kernel_intervals gpu_kernels))
    by now rewrite Em.
  rewrite Hrun.
  set (of_type := fun k =>
         merge_kernel_intervals
           (filter (fun e => String.eqb (kernel_type_of (symbol_table t) (Ev.name e))
                                        (KernelType_name k)) gpu_kernels)).
  assert (Hk : forall k,
             0 <= merged_time (of_type k) <= merged_time (merge_kernel_intervals gpu_kernels)
             /\ merged_time (merge_kernel_intervals gpu_kernels) <= hi - lo).
  { intros k. apply part_time_bounds; auto.
    intros e He. apply filter_In in He. tauto. }
  destruct (Hk COMPUTATION) as [Hcomp Hall].
  destruct (Hk COMMUNICATION) as [Hcomm _].
  destruct (Hk MEMORY) as [Hmem _].
  fold (of_type COMPUTATION) (of_type COMMUNICATION) (of_type MEMORY).
  cbn [Call.bind Call.ret app].
  unfold assert.
  repeat match goal with
         | |- context [?a <=? ?b] =>
             destruct (Z.leb_spec a b); [cbn [Call.bind Call.ret app] | lia]
         end.
  eexists. split; [reflexivity|]. cbn [idle_time compute_time comm_time mem_time
                                        non_compute_time kernel_time].
  repeat (split; [lia|]).
  intros Hpos. repeat split; apply pctg_is_percentage; lia.
Qed.

(** C6, as it is stated, fails in its last part.  A rank with a single
    kernel of duration zero has kernels and no negative duration; the asserts
    hold, but the kernel window is 0 and every percentage is NaN. *)
Lemma instant_kernel_percentages_are_NaN :
  filter (fun e => negb (Ev.stream e =? -1)) Samples.instant_rank <> []
  /\ Forall (fun e => 0 <= Ev.dur e)
            (filter (fun e => negb (Ev.stream e =? -1)) Samples.instant_rank)
  /\ idle_time_per_rank Samples.type_of_symbol Samples.instant_trace Samples.instant_rank
     = ([], Call.Returned {| idle_time := 0; compute_time := 0; comm_time := 0;
                             mem_time := 0; non_compute_time := 0; kernel_time := 0 |})
  /\ (exists df,
        temporal_frame Samples.type_of_symbol Samples.instant_trace
        = ([], Call.Returned df)
        /\ Pandas.dict_get String.eqb "idle_time_pctg" df
           = Some [Pandas.Float Pandas.NaN]
        /\ Pandas.dict_get String.eqb "compute_time_pctg" df
           = Some [Pandas.Float Pandas.NaN])
  /\ pctg 0 0 = Pandas.NaN
  /\ ~ is_percentage (pctg 0 0).
Proof.
  split; [discriminate|]. split; [repeat constructor; cbn; lia|].
  split; [vm_compute; reflexivity|].
  split; [eexists; split; [vm_compute; reflexivity | split; reflexivity]|].
  split; [reflexivity | apply NaN_is_no_percentage].
Qed.

(** C6, amended. For a rank with kernels on its streams, none of negative
    duration, [idle_time_per_rank] returns and its quantities satisfy
    [idle_time <= kernel_time], [compute_time <= kernel_time],
    [comm_time <= kernel_time], [mem_time <= kernel_time] and
    [non_compute_time >= 0], so no assert fires; and when the kernel window
    is positive, the four percentages lie between 0 and 100. *)
Theorem temporal_invariants_hold
    (kernel_type_of : SymbolTable -> Z -> string) (t : Trace) (trace_df : list Event) :
  filter (fun e => negb (Ev.stream e =? -1)) trace_df <> [] ->
  Forall (fun e => 0 <= Ev.dur e) (filter (fun e => negb (Ev.stream e =? -1)) trace_df) ->
  exists times,
    idle_time_per_rank kernel_type_of t trace_df = ([], Call.Returned times)
    /\ idle_time times <= kernel_time times
    /\ compute_time times <= kernel_time times
    /\ comm_time times <= kernel_time times
    /\ mem_time times <= kernel_time times
    /\ 0 <= non_compute_time times
    /\ (0 < kernel_time times ->
        is_percentage (pctg (idle_time times) (kernel_time times))
        /\ is_percentage (pctg (compute_time times) (kernel_time times))
        /\ is_percentage (pctg (comm_time times) (kernel_time times))
        /\ is_percentage (pctg (mem_time times) (kernel_time times))).
Proof.
  intros Hne Hdur.
  destruct (idle_time_per_rank_invariants kernel_type_of t trace_df Hne Hdur)
    as (times & E & H1 & H2 & H3 & H4 & H5 & H6).
  exists times. repeat split; try tauto; lia.
Qed.

Lemma temporal_invariants_hold_witness :
  exists times,
    idle_time_per_rank Samples.type_of_symbol Samples.busy_trace Samples.busy_rank
    = ([], Call.Returned times)
    /\ idle_time times <= kernel_time times
    /\ compute_time times <= kernel_time times
    /\ comm_time times <= kernel_time times
    /\ mem_time times <= kernel_time times
    /\ 0 <= non_compute_time times
    /\ (0 < kernel_time times ->
        is_percentage (pctg (idle_time times) (kernel_time times))
        /\ is_percentage (pctg (compute_time times) (kernel_time times))
        /\ is_percentage (pctg (comm_time times) (kernel_time times))
        /\ is_percentage (pctg (mem_time times) (kernel_time times))).
Proof.
  apply (temporal_invariants_hold Samples.type_of_symbol Samples.busy_trace
           Samples.busy_rank).
  - discriminate.
  - repeat constructor; cbn; lia.
Defined.

(* --------------------------------------------------------------------- *)
(** ** The association, whatever the order of equal durations *)

(** The kernel is given the shortest overlapping annotation on every frame
    of the annotations in descending order of [dur], whatever order the sort
    leaves annotations of equal duration in. *)
Lemma shortest_annotation_in_any_descending_order
    (gpu_kernels_df : list kernel_row) (annotations gpu_user_anno_df : list Event)
    (i : nat) (k : kernel_row) (a : Event) :
  Permutation gpu_user_anno_df annotations ->
  StronglySorted (key_le (fun x => - Ev.dur x)) gpu_user_anno_df ->
  nth_error gpu_kernels_df i = Some k ->
  In a annotations ->
  matches (k_event k) a = true ->
  (forall a', In a' annotations -> matches (k_event k) a' = true ->
              Ev.name a' <> Ev.name a -> Ev.dur a < Ev.dur a') ->
  nth_error (associate gpu_kernels_df gpu_user_anno_df) i
  = Some {| k_event := k_event k; user_annotation := Ev.name a |}.
Proof.
  intros Hperm Hsorted Hk Ha Hm Hmin.
  rewrite associate_rows, nth_error_map, Hk. cbn [option_map]. do 2 f_equal.
  rewrite annotate_loops_eq.
  apply annotate_sorted; auto.
  - now apply (Permutation_in _ (Permutation_sym Hperm)).
  - intros a' Ha'. apply Hmin. now apply (Permutation_in _ Hperm).
Qed.

(* ===================================================================== *)
(** * Further properties *)
(* ===================================================================== *)

(* --------------------------------------------------------------------- *)
(** ** [_aggr_gpu_kernel_time]: totals, names and order *)

Import TopKProps.

Lemma rename_others_rows allow nk q (df : list Agg.row) : forall i acc keep,
  keep = map (keep_idx allow) df ->
  map (fun '(i, r, k) =>
         if negb k && (nk <=? Z.of_nat i) then set_name "others" r else r)
      (combine
         (combine (seq i (length df))
            (map (fun '(r, k, c) =>
                    if negb k
                       && match q with
                          | Some q => Pandas.Qlt_bool q (inject_Z c)
                          | None => false
                          end
                    then set_name "others" r else r)
                 (combine (combine df keep)
                          (Pandas.cumsum_from acc (map Agg.sum df)))))
         keep)
  = rename_rows allow nk q i acc df.
Proof.
  induction df as [|r df IH]; intros i acc keep ->; [reflexivity|].
  cbn [map length seq combine Pandas.cumsum_from rename_rows].
  f_equal. apply IH. reflexivity.
Qed.

Lemma rename_others_eq allow nk q df :
  rename_others allow nk q df = rename_rows allow nk q 0 0 df.
Proof.
  unfold rename_others, enumerate, Pandas.cumsum.
  rewrite <- (rename_others_rows allow nk q df 0%nat 0 _ eq_refl).
  rewrite length_map, !length_combine, length_map, cumsum_from_length, length_map.
  now rewrite !Nat.min_id.
Qed.

Lemma fillna_std_sums df : map Agg.sum (fillna_std df) = map Agg.sum df.
Proof.
  unfold fillna_std. rewrite map_map. apply map_ext.
  intros r. now destruct (Agg.std r).
Qed.

(** *** Sums that stay within int64 *)

Lemma sum_abs_filter {A} (f : A -> Z) (p : A -> bool) (l : list A) :
  Pandas.sum (map Z.abs (map f (filter p l))) <= Pandas.sum (map Z.abs (map f l)).
Proof.
  unfold Pandas.sum. induction l as [|x l IH]; cbn [filter map fold_right]; [lia|].
  destruct (p x); cbn [map fold_right]; lia.
Qed.

(** The values of a group are a part of the values of the frame. *)
Lemma group_safe (rows : list (string * Z)) k vs :
  int64_safe (map snd rows) -> In (k, vs) (Pandas.groupby rows) -> int64_safe vs.
Proof.
  unfold int64_safe. intros H Hin.
  apply groupby_In in Hin. destruct Hin as [-> _]. unfold values_of.
  pose proof (sum_abs_filter snd (fun r : string * Z => String.eqb (fst r) k) rows).
  lia.
Qed.

Lemma group_add_abs_total k v (gs : list (string * list Z)) :
  Pandas.sum (map (fun g => Pandas.sum (map Z.abs (snd g))) (Pandas.group_add k v gs))
  = Z.abs v + Pandas.sum (map (fun g => Pandas.sum (map Z.abs (snd g))) gs).
Proof.
  induction gs as [|[k' vs] gs IH]; unfold Pandas.sum in *; cbn [Pandas.group_add].
  - cbn. lia.
  - destruct (String_as_OT.compare k k'); cbn [map fold_right snd] in *; lia.
Qed.

Lemma groupby_abs_total (rows : list (string * Z)) :
  Pandas.sum (map (fun g => Pandas.sum (map Z.abs (snd g))) (Pandas.groupby rows))
  = Pandas.sum (map Z.abs (map snd rows)).
Proof.
  induction rows as [|[k v] rows IH]; cbn [Pandas.groupby map snd]; [reflexivity|].
  rewrite group_add_abs_total, IH. unfold Pandas.sum. cbn [fold_right]. reflexivity.
Qed.

(** With sums that stay within int64, an aggregation conserves the total,
    and its sums stay within int64 in their turn. *)
Lemma agg_groupby_total (rows : list (string * Z)) :
  int64_safe (map snd rows) ->
  Pandas.sum (map Agg.sum (map agg (Pandas.groupby rows))) = Pandas.sum (map snd rows).
Proof.
  intros H. rewrite <- (groupby_total rows). unfold groups_total.
  rewrite map_map. f_equal. apply map_ext_in. intros [k vs] Hin.
  cbn [agg Agg.sum]. apply sum64_exact. eapply group_safe; eassumption.
Qed.

Lemma agg_groupby_safe (rows : list (string * Z)) :
  int64_safe (map snd rows) ->
  int64_safe (map Agg.sum (map agg (Pandas.groupby rows))).
Proof.
  intros H.
  assert (Hg : forall g, In g (Pandas.groupby rows) ->
            Z.abs (Agg.sum (agg g)) <= Pandas.sum (map Z.abs (snd g))).
  { intros [k vs] Hin. cbn [agg Agg.sum snd].
    rewrite sum64_exact by (eapply group_safe; eassumption).
    apply sum_abs_bound. }
  unfold int64_safe in *. rewrite <- groupby_abs_total in H.
  eapply Z.le_lt_trans; [|exact H]. rewrite !map_map.
  revert Hg. generalize (Pandas.groupby rows). clear. intros gs Hg.
  induction gs as [|g gs IH]; [cbn; lia|].
  unfold Pandas.sum in *. cbn [map fold_right].
  pose proof (Hg g (or_introl eq_refl)).
  specialize (IH (fun g0 H0 => Hg g0 (or_intror H0))). lia.
Qed.

Lemma aggr_by_name_total df :
  int64_safe (map snd df) ->
  Pandas.sum (map Agg.sum (aggr_by_name df)) = Pandas.sum (map snd df).
Proof.
  intros H. unfold aggr_by_name, Pandas.sort_values_desc.
  rewrite fillna_std_sums.
  rewrite (sum_perm _ _ (Permutation_map Agg.sum (sort_values_perm _ _))).
  now apply agg_groupby_total.
Qed.

Lemma aggr_by_name_safe df :
  int64_safe (map snd df) -> int64_safe (map Agg.sum (aggr_by_name df)).
Proof.
  intros H. unfold aggr_by_name, Pandas.sort_values_desc, int64_safe.
  rewrite fillna_std_sums.
  rewrite (sum_perm _ _
             (Permutation_map Z.abs (Permutation_map Agg.sum (sort_values_perm _ _)))).
  now apply agg_groupby_safe.
Qed.

Lemma renamed_sums df df' :
  Forall2 renamed df df' -> map Agg.sum df' = map Agg.sum df.
Proof.
  induction 1 as [|r r' df df' [->| ->] _ IH]; cbn; congruence.
Qed.

(** The total of the returned table, on either path. *)
Lemma aggr_some_total gpu_kernel_time num_kernels duration_ratio allowlist_names out :
  int64_safe (map snd gpu_kernel_time) ->
  _aggr_gpu_kernel_time gpu_kernel_time num_kernels duration_ratio allowlist_names
  = Some out ->
  Pandas.sum (map Agg.sum out) = Pandas.sum (map snd gpu_kernel_time).
Proof.
  intros Hsafe. unfold _aggr_gpu_kernel_time. destruct (num_kernels <? _).
  - destruct (valid_percentile duration_ratio); [|discriminate].
    intros [= <-].
    set (df' := rename_others _ _ _ _).
    assert (Esums : map snd (map (fun r => (Agg.name r, Agg.sum r)) df')
                    = map Agg.sum (aggr_by_name gpu_kernel_time)).
    { rewrite map_map. cbn [snd]. unfold df'.
      apply (renamed_sums _ _ (rename_others_renamed _ _ _ _)). }
    rewrite fillna_std_sums, agg_groupby_total; rewrite Esums.
    + now apply aggr_by_name_total.
    + now apply aggr_by_name_safe.
  - intros [= <-]. now apply aggr_by_name_total.
Qed.

Lemma aggr_valid_returns gpu_kernel_time num_kernels duration_ratio allowlist_names :
  valid_percentile duration_ratio = true ->
  _aggr_gpu_kernel_time gpu_kernel_time num_kernels duration_ratio allowlist_names
  <> None.
Proof.
  intros Hv. unfold _aggr_gpu_kernel_time. rewrite Hv.
  destruct (num_kernels <? _); discriminate.
Qed.



(** X2. No two rows of the returned table carry the same name; in
    particular there is at most one "others" row. *)
Theorem aggr_names_are_unique
    (gpu_kernel_time : list (string * Z)) (num_kernels : Z) (duration_ratio : Q)
    (allowlist_names : option (list string)) (out : list Agg.row) :
  _aggr_gpu_kernel_time gpu_kernel_time num_kernels duration_ratio allowlist_names
  = Some out ->
  NoDup (map Agg.name out).
Proof.
  unfold _aggr_gpu_kernel_time.
  destruct (num_kernels <? _).
  - destruct (valid_percentile duration_ratio); [|discriminate].
    intros [= <-]. rewrite fillna_std_names, agg_names.
    apply sorted_keys_NoDup, groupby_sorted.
  - intros [= <-]. apply aggr_by_name_NoDup.
Qed.

Lemma aggr_names_are_unique_witness :
  NoDup (map Agg.name
           [ {| Agg.name := "a"; Agg.sum := 100; Agg.max := 100; Agg.min := 100;
                Agg.mean := 100; Agg.std := Some (Pandas.Sqrt 0) |};
             {| Agg.name := "others"; Agg.sum := 10; Agg.max := 6; Agg.min := 4;
                Agg.mean := 5; Agg.std := Some (Pandas.Sqrt 2) |} ]).
Proof.
  apply (aggr_names_are_unique Samples.three_names 1 (8 # 10) None).
  vm_compute. reflexivity.
Defined.

Lemma sorted_map_key {A} (key : A -> Z) (f : A -> A) (l : list A) :
  (forall x, key (f x) = key x) ->
  StronglySorted (key_le key) l -> StronglySorted (key_le key) (map f l).
Proof.
  intros Hf. induction 1 as [|x l _ IH Hall]; cbn; constructor; [exact IH|].
  apply Forall_map. eapply Forall_impl; [|exact Hall].
  unfold key_le. intros y Hy. now rewrite !Hf.
Qed.

(** X3. When the number of distinct names does not exceed [num_kernels],
    the returned rows are in descending order of [sum]. *)
Theorem uncollapsed_rows_descend_by_sum
    (gpu_kernel_time : list (string * Z)) (num_kernels : Z) (duration_ratio : Q)
    (allowlist_names : option (list string)) :
  Z.of_nat (distinct_names gpu_kernel_time) <= num_kernels ->
  exists out,
    _aggr_gpu_kernel_time gpu_kernel_time num_kernels duration_ratio allowlist_names
    = Some out
    /\ StronglySorted sum_ge out.
Proof.
  intros Hle. unfold _aggr_gpu_kernel_time. rewrite aggr_by_name_length.
  destruct (Z.ltb_spec num_kernels (Z.of_nat (distinct_names gpu_kernel_time))); [lia|].
  eexists. split; [reflexivity|].
  assert (Hs : StronglySorted (key_le (fun r => - Agg.sum r)) (aggr_by_name gpu_kernel_time)).
  { unfold aggr_by_name, fillna_std, Pandas.sort_values_desc.
    apply sorted_map_key; [|apply sort_values_sorted].
    intros r. now destruct (Agg.std r). }
  revert Hs. generalize (aggr_by_name gpu_kernel_time). clear.
  induction 1 as [|x l _ IH Hall]; constructor; [exact IH|].
  eapply Forall_impl; [|exact Hall]. unfold key_le, sum_ge. intros; lia.
Qed.

Lemma uncollapsed_rows_descend_by_sum_witness :
  exists out,
    _aggr_gpu_kernel_time Samples.three_names 3 (8 # 10) None = Some out
    /\ StronglySorted sum_ge out.
Proof.
  apply (uncollapsed_rows_descend_by_sum Samples.three_names 3 (8 # 10) None).
  vm_compute. discriminate.
Defined.

Lemma sum_nonneg (l : list Z) : Forall (fun x => 0 <= x) l -> 0 <= Pandas.sum l.
Proof. unfold Pandas.sum. induction 1; cbn; lia. Qed.

Lemma fillna_std_In r df :
  In r (fillna_std df) ->
  exists r0, In r0 df /\ Agg.name r = Agg.name r0 /\ Agg.sum r = Agg.sum r0.
Proof.
  unfold fillna_std. intros H. apply in_map_iff in H. destruct H as (r0 & <- & H).
  exists r0. destruct (Agg.std r0); auto.
Qed.

(** A row of the first aggregation is the aggregate of the samples of its
    name. *)
Lemma aggr_by_name_row df r :
  In r (aggr_by_name df) ->
  Agg.sum r = Pandas.sum64 (values_of (Agg.name r) df) /\ In (Agg.name r) (map fst df).
Proof.
  unfold aggr_by_name, Pandas.sort_values_desc. intros H.
  apply fillna_std_In in H. destruct H as (r0 & H & -> & ->).
  apply (Permutation_in _ (sort_values_perm _ _)) in H.
  apply in_map_iff in H. destruct H as ([k vs] & <- & H). cbn [agg Agg.sum Agg.name].
  split.
  - now rewrite (proj1 (groupby_In df k vs H)).
  - apply groupby_keys. apply in_map_iff. now exists (k, vs).
Qed.

Lemma aggr_by_name_has df n :
  In n (map fst df) ->
  exists r, In r (aggr_by_name df) /\ Agg.name r = n.
Proof.
  intros H. apply groupby_exists in H.
  unfold aggr_by_name, Pandas.sort_values_desc.
  set (g := agg (n, values_of n df)).
  assert (Hg : In g (Pandas.sort_values (fun x => - Agg.sum x) (map agg (Pandas.groupby df)))).
  { apply (Permutation_in _ (Permutation_sym (sort_values_perm _ _))).
    now apply in_map. }
  eexists. split.
  - unfold fillna_std. apply in_map. exact Hg.
  - unfold g. cbn. now destruct (Pandas.std _).
Qed.

Lemma aggr_by_name_sums_nonneg df :
  Forall (fun x => 0 <= snd x) df ->
  int64_safe (map snd df) ->
  Forall (fun r => 0 <= Agg.sum r) (aggr_by_name df).
Proof.
  intros H Hsafe. apply Forall_forall. intros r Hr.
  rewrite (proj1 (aggr_by_name_row df r Hr)).
  rewrite sum64_exact.
  2:{ unfold int64_safe in *. unfold values_of.
      pose proof (sum_abs_filter snd
                    (fun x : string * Z => String.eqb (fst x) (Agg.name r)) df).
      lia. }
  apply sum_nonneg. unfold values_of. apply Forall_map.
  apply Forall_forall. intros x Hx. apply filter_In in Hx.
  rewrite Forall_forall in H. now apply H.
Qed.

(** Without kept rows every name after the renaming is "others" or the
    name of one of the first [num_kernels] rows. *)
Lemma rename_rows_names allow nk q (df : list Agg.row) :
  (forall r, In r df -> keep_idx allow r = false) ->
  forall i acc r',
  In r' (rename_rows allow nk q i acc df) ->
  Agg.name r' = "others"
  \/ In (Agg.name r') (map Agg.name (firstn (Z.to_nat nk - i) df)).
Proof.
  induction df as [|r df IH]; intros Hkeep i acc r' Hin; [contradiction|].
  cbn [rename_rows] in Hin. rewrite (Hkeep r) in Hin by now left.
  cbn [negb andb] in Hin.
  destruct Hin as [<-|Hin].
  - destruct (Z.leb_spec nk (Z.of_nat i)); [left; now destruct (match q with _ => _ end)|].
    destruct (match q with Some _ => _ | None => _ end); [now left|].
    right. replace (Z.to_nat nk - i)%nat with (S (Z.to_nat nk - S i)) by lia.
    now left.
  - destruct (IH (fun r0 H => Hkeep r0 (or_intror H)) _ _ _ Hin) as [H|H]; [now left|].
    right. destruct (Z.to_nat nk - i)%nat as [|m] eqn:E.
    + replace (Z.to_nat nk - S i)%nat with 0%nat in H by lia. contradiction.
    + replace (Z.to_nat nk - S i)%nat with m in H by lia. now right.
Qed.



Lemma rename_rows_keeps allow nk q (df : list Agg.row) r :
  keep_idx allow r = true -> In r df ->
  forall i acc, In r (rename_rows allow nk q i acc df).
Proof.
  intros Hk. induction df as [|r0 df IH]; intros Hin i acc; [contradiction|].
  cbn [rename_rows]. destruct Hin as [->|Hin].
  - rewrite Hk. cbn. now left.
  - right. now apply IH.
Qed.

Lemma NoDup_map_eq {A B} (f : A -> B) (l : list A) a b :
  NoDup (map f l) -> In a l -> In b l -> f a = f b -> a = b.
Proof.
  induction l as [|x l IH]; intros Hnd Ha Hb E; [contradiction|].
  cbn in Hnd. inversion Hnd as [|? ? Hx Hnd']; subst.
  destruct Ha as [->|Ha], Hb as [->|Hb]; auto.
  - exfalso. apply Hx. rewrite E. now apply in_map.
  - exfalso. apply Hx. rewrite <- E. now apply in_map.
Qed.



Lemma collapsed_row_aggregates_sums_witness :
  let r := {| Agg.name := "others"; Agg.sum := 10; Agg.max := 6; Agg.min := 4;
              Agg.mean := 5; Agg.std := Some (Pandas.Sqrt 2) |} in
  let df' := rename_others None 1
               (Pandas.quantile
                  (Pandas.cumsum (map Agg.sum (aggr_by_name Samples.three_names)))
                  (8 # 10))
               (aggr_by_name Samples.three_names) in
  let sums := values_of (Agg.name r) (map (fun r => (Agg.name r, Agg.sum r)) df') in
  Agg.sum r = Pandas.sum64 sums
  /\ Agg.max r = Pandas.max sums
  /\ Agg.min r = Pandas.min sums
  /\ Agg.mean r = Pandas.mean sums
  /\ Agg.std r = match Pandas.std sums with
                 | Some s => Some s
                 | None => Some (Pandas.Sqrt 0)
                 end.
Proof.
  eapply (collapsed_row_aggregates_sums Samples.three_names 1 (8 # 10) None).
  - vm_compute. reflexivity.
  - vm_compute. reflexivity.
  - right. left. reflexivity.
Defined.

(* --------------------------------------------------------------------- *)
(** ** [_get_gpu_kernel_type_time]: the running value as a set of
       categories *)

(** Before a merged frame starts, nothing is covered. *)
Lemma premerged_from_before (ivs : list interval) : forall prev t,
  premerged_from prev ivs -> t < prev -> cover_count ivs t = 0.
Proof.
  induction ivs as [|iv ivs IH]; intros prev t H Ht; [reflexivity|].
  destruct H as (H1 & H2 & H3).
  unfold cover_count in *. cbn [map]. unfold Pandas.sum in *. cbn [fold_right].
  rewrite (IH (end_ iv) t H3) by lia.
  unfold contains. destruct (Z.leb_spec (Utils.ts iv) t); [lia | reflexivity].
Qed.

(** In a merged frame a time point lies in one interval at most. *)
Lemma premerged_from_cover_count (ivs : list interval) : forall prev t,
  premerged_from prev ivs -> cover_count ivs t = Z.b2z (covered ivs t).
Proof.
  induction ivs as [|iv ivs IH]; intros prev t H; [reflexivity|].
  destruct H as (H1 & H2 & H3).
  rewrite covered_cons.
  change (cover_count (iv :: ivs) t)
    with ((if contains iv t then 1 else 0) + cover_count ivs t).
  destruct (contains iv t) eqn:E; cbn [orb].
  - rewrite (premerged_from_before ivs (end_ iv) t H3); [reflexivity|].
    unfold contains in E. apply andb_true_iff in E. destruct E as [_ E].
    now apply Z.ltb_lt in E.
  - rewrite (IH (end_ iv) t H3). lia.
Qed.

Lemma premerged_cover_count (ivs : list interval) t :
  premerged ivs -> cover_count ivs t = Z.b2z (covered ivs t).
Proof.
  destruct ivs as [|iv ivs]; [reflexivity|]. intros [H1 H2].
  apply (premerged_from_cover_count (iv :: ivs) (Utils.ts iv)).
  cbn. split; [lia | split; assumption].
Qed.

(** The sum of the flags at a time point is the number whose bit [idx + j]
    tells whether category [j] covers the point. *)
Lemma all_events_bits (merged : list (string * list interval)) : forall idx t,
  Forall premerged (map snd merged) ->
  exists w,
    depth (all_events_from idx merged) t = Z.shiftl w (Z.of_nat idx)
    /\ forall j,
         Z.testbit w (Z.of_nat j)
         = match nth_error merged j with
           | Some (_, ivs) => covered ivs t
           | None => false
           end.
Proof.
  induction merged as [|[kt ivs] merged IH]; intros idx t H.
  - exists 0. split; [now rewrite Z.shiftl_0_l|].
    intros j. rewrite Z.testbit_0_l. now destruct j.
  - cbn [map snd] in H. inversion H as [|? ? Hivs Hrest]; subst.
    destruct (IH (S idx) t Hrest) as (w & Hw & Hbits).
    exists (2 * w + Z.b2z (covered ivs t)). split.
    + cbn [all_events_from]. rewrite depth_app, depth_melt, Hw
        by (now apply premerged_ordered).
      rewrite (premerged_cover_count ivs t Hivs).
      rewrite !Z.shiftl_mul_pow2 by lia.
      replace (Z.of_nat (S idx)) with (Z.of_nat idx + 1) by lia.
      rewrite Z.pow_add_r by lia. change (2 ^ 1) with 2. ring.
    + intros [|j].
      * cbn [nth_error]. apply Z.testbit_0_r.
      * cbn [nth_error]. rewrite <- Hbits.
        replace (Z.of_nat (S j)) with (Z.succ (Z.of_nat j)) by lia.
        apply Z.testbit_succ_r. lia.
Qed.

(** X7. For merged frames, the running value of a kept segment is the set
    of the active categories: bit [j] is set exactly when category [j] covers
    the time points of the segment. *)
Theorem running_value_is_the_set_of_active_categories
    (merged : list (string * list interval)) (s : segment) (nt t : Z)
    (j : nat) (kernel_type : string) (ivs : list interval) :
  Forall premerged (map snd merged) ->
  In s (active_segments merged) ->
  next_time s = Some nt ->
  seg_time s <= t < nt ->
  nth_error merged j = Some (kernel_type, ivs) ->
  Z.testbit (running s) (Z.of_nat j) = covered ivs t.
Proof.
  intros Hpre Hs Hnt Ht Hj.
  unfold active_segments in Hs. apply filter_In in Hs. destruct Hs as [Hin _].
  rewrite segments_eq in Hin.
  rewrite (segment_running_depth _ 0 s nt t (sweep_df_sorted merged) Hin Hnt Ht).
  rewrite Z.add_0_l, (depth_perm _ _ t (sweep_df_perm merged)).
  destruct (all_events_bits merged 0 t Hpre) as (w & Hw & Hbits).
  rewrite Hw, Z.shiftl_0_r, Hbits, Hj. reflexivity.
Qed.

Lemma running_value_is_the_set_of_active_categories_witness :
  Z.testbit 3 (Z.of_nat 1) = covered [mkInterval 5 25] 7.
Proof.
  apply (running_value_is_the_set_of_active_categories Samples.two_categories
           {| seg_time := 5; running := 3; next_time := Some 10; seg_kernel_type := "" |}
           10 7 1%nat "COMMUNICATION" [mkInterval 5 25]).
  - repeat constructor; simpl; lia.
  - vm_compute. tauto.
  - reflexivity.
  - cbn. lia.
  - reflexivity.
Defined.

(* --------------------------------------------------------------------- *)
(** ** [_get_gpu_kernel_type_time]: the labels *)

Import LabelProps.

Lemma dict_get_set_same_Z {V} (k : Z) (v : V) d :
  Pandas.dict_get Z.eqb k (Pandas.dict_set Z.eqb k v d) = Some v.
Proof.
  induction d as [|[k' v'] d IH]; cbn.
  - now rewrite Z.eqb_refl.
  - destruct (k =? k') eqn:E; cbn; [now rewrite Z.eqb_refl | rewrite E; exact IH].
Qed.

Lemma dict_get_set_other_Z {V} (k k' : Z) (v : V) d :
  k <> k' ->
  Pandas.dict_get Z.eqb k (Pandas.dict_set Z.eqb k' v d) = Pandas.dict_get Z.eqb k d.
Proof.
  intros Hne. induction d as [|[k0 v0] d IH]; cbn.
  - destruct (Z.eqb_spec k k'); [contradiction | reflexivity].
  - destruct (Z.eqb_spec k' k0); cbn.
    + subst k0. destruct (Z.eqb_spec k k'); [contradiction | reflexivity].
    + destruct (k =? k0); [reflexivity | exact IH].
Qed.

Lemma dict_set_keys_Z {V} (k : Z) (v : V) d x :
  In x (map fst (Pandas.dict_set Z.eqb k v d)) -> x = k \/ In x (map fst d).
Proof.
  induction d as [|[k0 v0] d IH]; cbn.
  - intuition.
  - destruct (Z.eqb_spec k k0); cbn; [subst; intuition|].
    intros [H|H]; [auto|]. apply IH in H. intuition.
Qed.

Lemma dict_set_NoDup_Z {V} (k : Z) (v : V) d :
  NoDup (map fst d) -> NoDup (map fst (Pandas.dict_set Z.eqb k v d)).
Proof.
  induction d as [|[k0 v0] d IH]; cbn; intros H.
  - repeat constructor. intros [].
  - inversion H as [|? ? Hn Hd]; subst.
    destruct (Z.eqb_spec k k0); cbn.
    + subst. now constructor.
    + constructor; [|now apply IH].
      intros Hin. apply dict_set_keys_Z in Hin. destruct Hin; [congruence | contradiction].
Qed.

Lemma dict_get_absent_Z {V} (k : Z) (d : list (Z * V)) :
  ~ In k (map fst d) -> Pandas.dict_get Z.eqb k d = None.
Proof.
  induction d as [|[k0 v0] d IH]; cbn; intros H; [reflexivity|].
  destruct (Z.eqb_spec k k0); [subst; tauto | apply IH; tauto].
Qed.

Lemma running_label_cons k v m u rm :
  running_label ((k, v) :: m) u rm
  = running_label m u
      (if Z.land u v =? 0 then rm
       else match Pandas.dict_get Z.eqb u rm with
            | None => Pandas.dict_set Z.eqb u k rm
            | Some old =>
                Pandas.dict_set Z.eqb u (old ++ " overlapping " ++ k)%string rm
            end).
Proof. reflexivity. Qed.

(** The loop over the mapping touches the entry of its running value only. *)
Lemma running_label_get m u : forall rm u',
  Pandas.dict_get Z.eqb u' (running_label m u rm)
  = if u' =? u then fold_left (label_step u) m (Pandas.dict_get Z.eqb u rm)
    else Pandas.dict_get Z.eqb u' rm.
Proof.
  induction m as [|[k v] m IH]; intros rm u'.
  - cbn. destruct (Z.eqb_spec u' u); [now subst | reflexivity].
  - rewrite running_label_cons, IH.
    change (fold_left (label_step u) ((k, v) :: m) (Pandas.dict_get Z.eqb u rm))
      with (fold_left (label_step u) m
              (label_step u (Pandas.dict_get Z.eqb u rm) (k, v))).
    assert (Hstep : label_step u (Pandas.dict_get Z.eqb u rm) (k, v)
                    = if Z.land u v =? 0 then Pandas.dict_get Z.eqb u rm
                      else Some (match Pandas.dict_get Z.eqb u rm with
                                 | None => k
                                 | Some old => (old ++ " overlapping " ++ k)%string
                                 end)) by reflexivity.
    rewrite Hstep. clear Hstep.
    destruct (Z.land u v =? 0); [reflexivity|].
    destruct (Z.eqb_spec u' u) as [->|Hne].
    + destruct (Pandas.dict_get Z.eqb u rm); now rewrite dict_get_set_same_Z.
    + destruct (Pandas.dict_get Z.eqb u rm); now rewrite dict_get_set_other_Z.
Qed.

Lemma running_label_NoDup m u : forall rm,
  NoDup (map fst rm) -> NoDup (map fst (running_label m u rm)).
Proof.
  induction m as [|[k v] m IH]; intros rm H; [exact H|].
  rewrite running_label_cons. apply IH.
  destruct (Z.land u v =? 0); [exact H|].
  destruct (Pandas.dict_get Z.eqb u rm); now apply dict_set_NoDup_Z.
Qed.

Lemma label_step_eq u o k v :
  label_step u o (k, v)
  = if Z.land u v =? 0 then o
    else Some (match o with
               | None => k
               | Some old => (old ++ " overlapping " ++ k)%string
               end).
Proof. reflexivity. Qed.

Lemma flagged_cons u k v m :
  flagged u ((k, v) :: m)
  = if Z.land u v =? 0 then flagged u m else k :: flagged u m.
Proof. unfold flagged. cbn. now destruct (Z.land u v =? 0). Qed.

Lemma label_steps_some u m : forall x,
  fold_left (label_step u) m (Some x)
  = Some (fold_left (fun acc k => (acc ++ " overlapping " ++ k)%string) (flagged u m) x).
Proof.
  induction m as [|[k v] m IH]; intros x; [reflexivity|].
  cbn [fold_left]. rewrite label_step_eq, flagged_cons.
  destruct (Z.land u v =? 0); [apply IH|].
  cbn [fold_left]. apply IH.
Qed.

Lemma label_steps_none u m :
  fold_left (label_step u) m None
  = match flagged u m with
    | [] => None
    | n :: rest => Some (join_overlapping (n :: rest))
    end.
Proof.
  induction m as [|[k v] m IH]; [reflexivity|].
  cbn [fold_left]. rewrite label_step_eq, flagged_cons.
  destruct (Z.land u v =? 0); [exact IH|].
  apply label_steps_some.
Qed.

(** After the loop over the unique running values, a positive running value
    of the frame has the label of its flags; no other value has an entry. *)
Lemma build_running_mapping_get m : forall l rm u,
  NoDup l ->
  (forall x, In x l -> Pandas.dict_get Z.eqb x rm = None) ->
  Pandas.dict_get Z.eqb u
    (fold_left (fun rm u_running =>
                  if 0 <? u_running then running_label m u_running rm else rm) l rm)
  = if existsb (Z.eqb u) l && (0 <? u)
    then fold_left (label_step u) m None
    else Pandas.dict_get Z.eqb u rm.
Proof.
  induction l as [|x l IH]; intros rm u Hnd Hnone; [reflexivity|].
  inversion Hnd as [|? ? Hx Hl]; subst.
  cbn [fold_left existsb].
  set (rm' := if 0 <? x then running_label m x rm else rm).
  assert (Hother : forall y, y <> x ->
            Pandas.dict_get Z.eqb y rm' = Pandas.dict_get Z.eqb y rm).
  { intros y Hy. unfold rm'. destruct (0 <? x); [|reflexivity].
    rewrite running_label_get. destruct (Z.eqb_spec y x); [contradiction | reflexivity]. }
  rewrite IH; [|exact Hl|].
  - destruct (Z.eqb_spec u x) as [->|Hne]; cbn [orb].
    + assert (E : existsb (Z.eqb x) l = false).
      { destruct (existsb (Z.eqb x) l) eqn:E; [|reflexivity].
        apply existsb_exists in E. destruct E as (y & Hy & Ey).
        apply Z.eqb_eq in Ey. subst y. contradiction. }
      rewrite E. cbn [andb]. unfold rm'.
      destruct (0 <? x); [|reflexivity].
      rewrite running_label_get, Z.eqb_refl, (Hnone x) by now left. reflexivity.
    + rewrite Hother by exact Hne. reflexivity.
  - intros y Hy. rewrite Hother.
    + apply Hnone. now right.
    + intros ->. contradiction.
Qed.

Lemma build_running_mapping_NoDup m : forall l rm,
  NoDup (map fst rm) ->
  NoDup (map fst
    (fold_left (fun rm u_running =>
                  if 0 <? u_running then running_label m u_running rm else rm) l rm)).
Proof.
  induction l as [|x l IH]; intros rm H; [exact H|].
  cbn [fold_left]. apply IH. destruct (0 <? x); [|exact H].
  now apply running_label_NoDup.
Qed.

(** The loop over [running_mapping] writes to every row the label of its
    running value. *)
Lemma relabel_eq (rm : list (Z * string)) : forall df,
  NoDup (map fst rm) ->
  fold_left (fun df '(r, label) => set_kernel_type r label df) rm df
  = map (fun s => match Pandas.dict_get Z.eqb (running s) rm with
                  | Some l => with_label l s
                  | None => s
                  end) df.
Proof.
  induction rm as [|[r l] rm IH]; intros df H.
  - cbn. now rewrite map_id.
  - inversion H as [|? ? Hr Hrm]; subst.
    cbn [fold_left]. rewrite IH by exact Hrm.
    unfold set_kernel_type. rewrite map_map. apply map_ext. intros s.
    cbn [Pandas.dict_get].
    destruct (Z.eqb_spec (running s) r) as [E|E].
    + cbn [running]. rewrite E, dict_get_absent_Z by exact Hr.
      unfold with_label. now rewrite E.
    + reflexivity.
Qed.

Lemma segments_from_label acc df s :
  In s (segments_from acc df) -> seg_kernel_type s = "".
Proof.
  revert acc. induction df as [|r df IH]; intros acc H; [contradiction|].
  destruct H as [<-|H]; [reflexivity | eapply IH; exact H].
Qed.

Lemma with_label_id s : seg_kernel_type s = "" -> with_label "" s = s.
Proof. destruct s. cbn. unfold with_label. cbn. now intros ->. Qed.

(** The labelled frame: every kept row carries the names of the flags that
    meet its running value. *)
Lemma overlap_labels merged :
  overlap_kernel_type_time merged
  = match durations
            (map (fun s =>
                    with_label
                      (join_overlapping (flagged (running s) (fst (sweep_events merged))))
                      s)
                 (active_segments merged)) with
    | None => None
    | Some ds => Some (map (fun '(k, vs) => (k, Pandas.sum vs)) (Pandas.groupby ds))
    end.
Proof.
  unfold overlap_kernel_type_time, active_segments.
  destruct (sweep_events merged) as [m odf]. cbn [fst snd].
  rewrite relabel_eq
    by (apply build_running_mapping_NoDup; constructor).
  match goal with
  | |- match durations ?a with _ => _ end = match durations ?b with _ => _ end =>
      replace a with b; [reflexivity|]
  end.
  apply map_ext_in. intros s Hs. apply filter_In in Hs. destruct Hs as [Hin Hpos].
  unfold build_running_mapping.
  rewrite build_running_mapping_get.
  - assert (E : existsb (Z.eqb (running s))
                  (Pandas.unique Z.eqb (map running (segments odf))) = true).
    { apply existsb_exists. exists (running s). split; [|apply Z.eqb_refl].
      apply (unique_from_In _ Z.eqb_eq). split; [now apply in_map | intros []]. }
    rewrite E, Hpos. cbn [andb Pandas.dict_get].
    rewrite label_steps_none.
    destruct (flagged (running s) m) as [|n rest]; [|reflexivity].
    cbn [join_overlapping]. apply with_label_id.
    rewrite segments_eq in Hin. eapply segments_from_label. exact Hin.
  - apply unique_from_NoDup, Z.eqb_eq.
  - reflexivity.
Qed.

Lemma dict_set_absent_string {V} (k : string) (v : V) d :
  ~ In k (map fst d) -> Pandas.dict_set String.eqb k v d = d ++ [(k, v)].
Proof.
  induction d as [|[k0 v0] d IH]; cbn; intros H; [reflexivity|].
  destruct (String.eqb_spec k k0); [subst; tauto|].
  rewrite IH by tauto. reflexivity.
Qed.

(** With distinct category names, the mapping holds category [idx] with the
    flag [1 << idx], in the order of the categories. *)
Lemma sweep_events_mapping items : forall idx0 st,
  NoDup (map fst (fst st) ++ map fst items) ->
  fst (fold_left add_kernel_type (combine (seq idx0 (length items)) items) st)
  = fst st
    ++ map (fun it => (fst (snd it), Z.shiftl 1 (Z.of_nat (fst it))))
           (combine (seq idx0 (length items)) items).
Proof.
  induction items as [|[kt ivs] items IH]; intros idx0 [m df] H.
  - cbn. now rewrite app_nil_r.
  - cbn [length seq combine fold_left map fst snd] in *.
    cbn [add_kernel_type]. rewrite IH; cbn [fst].
    + rewrite dict_set_absent_string.
      * now rewrite <- app_assoc.
      * apply NoDup_remove_2 in H. intros Hin. apply H, in_or_app. now left.
    + rewrite dict_set_absent_string.
      * rewrite map_app, <- app_assoc. exact H.
      * apply NoDup_remove_2 in H. intros Hin. apply H, in_or_app. now left.
Qed.

Lemma land_flag u (j : nat) :
  (Z.land u (Z.shiftl 1 (Z.of_nat j)) =? 0) = negb (Z.testbit u (Z.of_nat j)).
Proof.
  rewrite Z.shiftl_1_l.
  destruct (Z.testbit u (Z.of_nat j)) eqn:E; cbn [negb].
  - apply Z.eqb_neq. intros H.
    assert (Hb : Z.testbit (Z.land u (2 ^ Z.of_nat j)) (Z.of_nat j) = false)
      by (rewrite H; apply Z.testbit_0_l).
    rewrite Z.land_spec, E, Z.pow2_bits_true in Hb by lia. discriminate.
  - apply Z.eqb_eq. apply Z.bits_inj'. intros n Hn.
    rewrite Z.land_spec, Z.testbit_0_l, Z.pow2_bits_eqb by lia.
    destruct (Z.eqb_spec (Z.of_nat j) n) as [<-|Hne].
    + now rewrite E.
    + apply andb_false_r.
Qed.

Lemma flagged_flags u (items : list (nat * (string * list interval))) :
  flagged u (map (fun it => (fst (snd it), Z.shiftl 1 (Z.of_nat (fst it)))) items)
  = map (fun it => fst (snd it))
        (filter (fun it => Z.testbit u (Z.of_nat (fst it))) items).
Proof.
  unfold flagged. induction items as [|[j [kt ivs]] items IH]; [reflexivity|].
  cbn [map filter fst snd]. rewrite land_flag, negb_involutive.
  destruct (Z.testbit u (Z.of_nat j)); cbn [map fst snd]; now rewrite IH.
Qed.

(** X8. With distinct category names, every kept segment is labelled with
    the names of the categories whose bit is set in its running value, in the
    order of [kernel_type_to_analysis] and joined by " overlapping "; the
    returned table is the time of the segments, summed by label. *)
Theorem labels_name_the_categories_of_the_running_value
    (merged : list (string * list interval)) :
  NoDup (map fst merged) ->
  overlap_kernel_type_time merged
  = match labelled_durations merged with
    | None => None
    | Some ds => Some (map (fun '(k, vs) => (k, Pandas.sum vs)) (Pandas.groupby ds))
    end.
Proof.
  intros H. rewrite overlap_labels. unfold labelled_durations, active_categories.
  unfold sweep_events at 1, enumerate.
  rewrite sweep_events_mapping by exact H. cbn [fst app].
  match goal with
  | |- match durations ?a with _ => _ end = match durations ?b with _ => _ end =>
      replace a with b; [reflexivity|]
  end.
  apply map_ext. intros s. now rewrite flagged_flags.
Qed.

Lemma labels_name_the_categories_of_the_running_value_witness :
  overlap_kernel_type_time Samples.two_categories
  = Some [("COMMUNICATION", 10); ("COMPUTATION", 10);
          ("COMPUTATION overlapping COMMUNICATION", 10)].
Proof.
  rewrite (labels_name_the_categories_of_the_running_value Samples.two_categories).
  - vm_compute. reflexivity.
  - repeat constructor; cbn; intuition discriminate.
Defined.

(* --------------------------------------------------------------------- *)
(** ** [_get_gpu_kernel_type_time]: the rows of the table *)

Lemma segments_from_next_ge df : forall acc s nt,
  StronglySorted (key_le time) df ->
  In s (segments_from acc df) -> next_time s = Some nt -> seg_time s <= nt.
Proof.
  induction df as [|r df IH]; intros acc s nt Hs Hin Hnt; [contradiction|].
  inversion Hs as [|? ? Hs' Hall]; subst.
  destruct Hin as [<-|Hin].
  - destruct df as [|r' df']; [discriminate|].
    cbn in Hnt. injection Hnt as <-. cbn [seg_time].
    inversion Hall; subst. assumption.
  - eapply IH; eassumption.
Qed.

Lemma durations_nonneg df : forall ds,
  Forall (fun s => forall nt, next_time s = Some nt -> seg_time s <= nt) df ->
  durations df = Some ds -> Forall (fun x => 0 <= snd x) ds.
Proof.
  induction df as [|s df IH]; intros ds H E; cbn [durations] in E.
  - injection E as <-. constructor.
  - inversion H as [|? ? Hs Hdf]; subst.
    destruct (next_time s) as [nt|] eqn:En; [|discriminate].
    destruct (durations df) as [ds'|]; [|discriminate].
    injection E as <-. constructor; [|now apply IH].
    cbn [snd]. apply float_duration_nonneg. exact (Hs nt eq_refl).
Qed.

Lemma overlap_rows (merged : list (string * list interval)) (out : list (string * Z)) :
  overlap_kernel_type_time merged = Some out ->
  NoDup (map fst out) /\ Forall (fun x => 0 <= snd x) out.
Proof.
  rewrite overlap_labels.
  destruct (durations _) as [ds|] eqn:E; [|discriminate].
  intros H. injection H as <-. split.
  - rewrite map_map.
    rewrite (map_ext _ fst) by (now intros [k vs]).
    apply sorted_keys_NoDup, groupby_sorted.
  - apply durations_nonneg in E.
    + apply Forall_map, Forall_forall. intros [k vs] Hin. cbn [snd].
      apply sum_nonneg. apply groupby_In in Hin. destruct Hin as [-> _].
      unfold values_of. apply Forall_map, Forall_forall. intros x Hx.
      apply filter_In in Hx. destruct Hx as [Hx _].
      rewrite Forall_forall in E. now apply E.
    + apply Forall_map, Forall_forall. intros s Hs nt Hnt.
      unfold active_segments in Hs. apply filter_In in Hs. destruct Hs as [Hs _].
      rewrite segments_eq in Hs. cbn [with_label next_time seg_time] in *.
      eapply segments_from_next_ge; [apply sweep_df_sorted | exact Hs | exact Hnt].
Qed.



Lemma overlap_returns (merged : list (string * list interval)) :
  exists out, overlap_kernel_type_time merged = Some out.
Proof.
  rewrite overlap_labels.
  assert (H : Forall (fun s => next_time s <> None)
                (map (fun s =>
                        with_label
                          (join_overlapping
                             (flagged (running s) (fst (sweep_events merged)))) s)
                     (active_segments merged))).
  { apply Forall_map, Forall_forall. intros s Hs Hn. cbn [with_label next_time] in Hn.
    unfold active_segments in Hs. apply filter_In in Hs. destruct Hs as [Hin Hact].
    rewrite segments_eq in Hin.
    rewrite (segments_from_last _ _ _ Hin Hn) in Hact.
    rewrite (sum_perm _ _ (Permutation_map status (sweep_df_perm merged))),
      all_events_sum in Hact.
    discriminate. }
  destruct (durations_returns _ H) as (ds & E). rewrite E. eexists. reflexivity.
Qed.

(** X10. The cast of the durations to int never fails: the flags of every
    interval cancel, so the last row of the sweep, the only one without a next
    time, has running value 0 and is dropped before the cast. *)
Theorem kernel_type_time_cast_never_fails (merged : list (string * list interval)) :
  exists out, overlap_kernel_type_time merged = Some out.
Proof. apply overlap_returns. Qed.

(* --------------------------------------------------------------------- *)
(** ** [_analyze_idle_time_for_stream]: the table of a stream *)

Import IdleProps StreamProps.

Lemma nansum_cons v vs :
  Pandas.nansum (v :: vs) = Pandas.nansum [v] + Pandas.nansum vs.
Proof. unfold Pandas.nansum. cbn [fold_right]. destruct v; lia. Qed.

Lemma groups_nantotal_cons k vs gs :
  groups_nantotal ((k, vs) :: gs) = Pandas.nansum vs + groups_nantotal gs.
Proof. reflexivity. Qed.

Lemma group_add_nantotal k v gs :
  groups_nantotal (Pandas.group_add k v gs)
  = Pandas.nansum [v] + groups_nantotal gs.
Proof.
  induction gs as [|[k' vs] gs IH]; cbn [Pandas.group_add].
  - rewrite groups_nantotal_cons. reflexivity.
  - destruct (String_as_OT.compare k k'); rewrite !groups_nantotal_cons.
    + rewrite (nansum_cons v vs). lia.
    + reflexivity.
    + rewrite IH. lia.
Qed.

Lemma groupby_nantotal rows :
  groups_nantotal (Pandas.groupby rows) = Pandas.nansum (map snd rows).
Proof.
  induction rows as [|[k v] rows IH]; cbn [Pandas.groupby map snd]; [reflexivity|].
  rewrite group_add_nantotal, IH. symmetry. apply nansum_cons.
Qed.

(** The idle times of the table add up to the sum of the idle intervals. *)
Lemma analyze_total stream gpu_kernels delay :
  Pandas.sum (map Idle.idle_time (_analyze_idle_time_for_stream stream gpu_kernels delay))
  = Pandas.nansum (map idle_interval (idle_rows stream gpu_kernels delay)).
Proof.
  unfold _analyze_idle_time_for_stream.
  set (pairs := map _ (idle_rows stream gpu_kernels delay)).
  set (res := map (fun '(c, vs) => (c, Pandas.nansum vs)) (Pandas.groupby pairs)).
  generalize (Pandas.sum (map snd res)). intros total.
  rewrite map_map.
  rewrite (map_ext _ snd) by (now intros [c idle]).
  unfold res. rewrite map_map.
  rewrite (map_ext _ (fun '(_, vs) => Pandas.nansum vs)) by (now intros [c vs]).
  fold (groups_nantotal (Pandas.groupby pairs)).
  rewrite groupby_nantotal. unfold pairs. rewrite map_map. reflexivity.
Qed.

Lemma last_cons_default {A} (l : list A) (k d : A) : last (k :: l) d = last l k.
Proof.
  revert k d. induction l as [|x l IH]; intros k d; [reflexivity|].
  change (last (k :: x :: l) d) with (last (x :: l) d).
  now rewrite !IH.
Qed.

(** The gaps telescope. *)
Lemma pair_rows_nansum delay (l : list joined) : forall prev,
  Pandas.nansum (map idle_interval (pair_rows delay prev l))
  = Ev.ts (kernel (last l prev)) - Ev.ts (kernel prev)
    - Pandas.sum (map (fun k => Ev.dur (kernel k)) (removelast (prev :: l))).
Proof.
  induction l as [|k l IH]; intros prev.
  - cbn. lia.
  - change (removelast (prev :: k :: l)) with (prev :: removelast (k :: l)).
    rewrite last_cons_default.
    cbn [pair_rows map idle_interval Pandas.nansum fold_right].
    fold (Pandas.nansum (map idle_interval (pair_rows delay k l))).
    rewrite IH. unfold Pandas.sum. cbn [map fold_right]. lia.
Qed.


Lemma analyze_categories stream gpu_kernels delay :
  map Idle.idle_category (_analyze_idle_time_for_stream stream gpu_kernels delay)
  = map fst
      (Pandas.groupby
         (map (fun r => (IdleTimeType_name (idle_category r), idle_interval r))
              (idle_rows stream gpu_kernels delay))).
Proof.
  unfold _analyze_idle_time_for_stream.
  set (pairs := map _ (idle_rows stream gpu_kernels delay)).
  set (res := map (fun '(c, vs) => (c, Pandas.nansum vs)) (Pandas.groupby pairs)).
  generalize (Pandas.sum (map snd res)). intros total.
  rewrite map_map. rewrite (map_ext _ fst) by (now intros [c idle]).
  unfold res. rewrite map_map. apply map_ext. now intros [c vs].
Qed.

(** X12. The table of a stream has one row per idle category that occurs:
    the categories are distinct, each is one of the three of [IdleTimeType],
    every row carries the stream, and there are three rows at most. *)
Theorem stream_table_has_one_row_per_category
    (stream : Z) (gpu_kernels : list joined) (consecutive_kernel_delay : Z) :
  let out := _analyze_idle_time_for_stream stream gpu_kernels consecutive_kernel_delay in
  NoDup (map Idle.idle_category out)
  /\ Forall (fun r => Idle.stream r = stream
                      /\ exists c, Idle.idle_category r = IdleTimeType_name c) out
  /\ (length out <= 3)%nat.
Proof.
  intros out.
  assert (Hnd : NoDup (map Idle.idle_category out)).
  { unfold out. rewrite analyze_categories. apply sorted_keys_NoDup, groupby_sorted. }
  assert (Hcat : forall n, In n (map Idle.idle_category out) ->
                           exists c, n = IdleTimeType_name c).
  { intros n Hn. unfold out in Hn. rewrite analyze_categories in Hn.
    apply (proj1 (groupby_keys _ _)) in Hn. rewrite map_map in Hn. cbn [fst] in Hn.
    apply in_map_iff in Hn. destruct Hn as (r & <- & _). eauto. }
  split; [exact Hnd|]. split.
  - apply Forall_forall. intros r Hr. split.
    + now apply (analyze_ratio _ _ _ _ Hr).
    + apply Hcat. now apply in_map.
  - rewrite <- (length_map Idle.idle_category).
    change 3%nat with (length ["host_wait"; "kernel_wait"; "other"]).
    apply NoDup_incl_length; [exact Hnd|].
    intros n Hn. destruct (Hcat n Hn) as ([| |] & ->); cbn; auto.
Qed.

Lemma sort_values_nonempty {A} (key : A -> Z) (l : list A) x :
  In x l -> Pandas.sort_values key l <> [].
Proof.
  intros Hin E. pose proof (sort_values_perm key l) as Hperm.
  rewrite E in Hperm. apply Permutation_nil in Hperm. subst l. contradiction.
Qed.

Lemma analyze_other_row stream gpu_kernels delay k :
  In k gpu_kernels -> Ev.stream (kernel k) = stream ->
  In "other"
     (map Idle.idle_category (_analyze_idle_time_for_stream stream gpu_kernels delay)).
Proof.
  intros Hin Hs. rewrite analyze_categories. apply groupby_keys.
  rewrite idle_rows_unfold.
  destruct (Pandas.sort_values _ _) as [|k0 l] eqn:E.
  - exfalso. revert E. apply (sort_values_nonempty _ _ k).
    apply filter_In. split; [exact Hin | now apply Z.eqb_eq].
  - cbn. now left.
Qed.

(** X13. A stream with a kernel always has a row "other": its first kernel
    has no kernel before it, and is counted there with no idle time. *)
Theorem stream_with_a_kernel_has_a_row_other
    (stream : Z) (gpu_kernels : list joined) (consecutive_kernel_delay : Z)
    (k : joined) :
  In k gpu_kernels -> Ev.stream (kernel k) = stream ->
  In "other"
     (map Idle.idle_category
        (_analyze_idle_time_for_stream stream gpu_kernels consecutive_kernel_delay)).
Proof. apply analyze_other_row. Qed.

Lemma stream_with_a_kernel_has_a_row_other_witness :
  In "other"
     (map Idle.idle_category
        (_analyze_idle_time_for_stream 7 Samples.cancelling_kernels 10)).
Proof.
  apply (stream_with_a_kernel_has_a_row_other 7 Samples.cancelling_kernels 10
           (mkJoined (Samples.kernel7 11 50 100 1) (Some 40))).
  - right. left. reflexivity.
  - reflexivity.
Defined.

Lemma finite_sum_ratios (total : Z) (l : list Z) :
  total <> 0 ->
  exists q, finite_sum (map (fun i => Pandas.fdiv i total) l) = Some q
            /\ (q == inject_Z (Pandas.sum l) / inject_Z total)%Q.
Proof.
  intros Hne. induction l as [|i l (q & E & Hq)].
  - exists 0%Q. split; [reflexivity|]. unfold Pandas.sum. cbn. unfold Qdiv.
    now rewrite Qmult_0_l.
  - cbn [map finite_sum]. unfold Pandas.fdiv at 1.
    destruct (Z.eqb_spec total 0); [contradiction|].
    rewrite E. cbn [option_map]. eexists. split; [reflexivity|].
    rewrite Qred_correct, Hq. unfold Pandas.sum. cbn [fold_right].
    rewrite inject_Z_plus. unfold Qdiv. ring.
Qed.

(** X14. Where the idle times of a stream do not sum to zero, every ratio of
    its table is finite and the ratios sum to one. *)
Theorem stream_ratios_sum_to_one
    (stream : Z) (gpu_kernels : list joined) (consecutive_kernel_delay : Z) :
  let out := _analyze_idle_time_for_stream stream gpu_kernels consecutive_kernel_delay in
  Pandas.sum (map Idle.idle_time out) <> 0 ->
  exists q, finite_sum (map Idle.idle_time_ratio out) = Some q /\ (q == 1)%Q.
Proof.
  intros out Hne.
  set (total := Pandas.sum (map Idle.idle_time out)) in *.
  assert (E : map Idle.idle_time_ratio out
              = map (fun i => Pandas.fdiv i total) (map Idle.idle_time out)).
  { rewrite map_map. apply map_ext_in. intros r Hr.
    now apply (analyze_ratio _ _ _ _ Hr). }
  rewrite E.
  destruct (finite_sum_ratios total (map Idle.idle_time out) Hne) as (q & Eq & Hq).
  exists q. split; [exact Eq|]. rewrite Hq. fold total.
  apply Qmult_inv_r. intros H. apply Hne.
  unfold Qeq in H. cbn in H. lia.
Qed.

Lemma stream_ratios_sum_to_one_witness :
  exists q,
    finite_sum
      (map Idle.idle_time_ratio
         (_analyze_idle_time_for_stream 7 Samples.overlapping_kernels 10)) = Some q
    /\ (q == 1)%Q.
Proof.
  apply (stream_ratios_sum_to_one 7 Samples.overlapping_kernels 10).
  vm_compute. discriminate.
Defined.

(* --------------------------------------------------------------------- *)
(** ** [get_idle_time_breakdown]: the streams that are analysed *)

Lemma unique_In_Z (l : list Z) x : In x (Pandas.unique Z.eqb l) <-> In x l.
Proof.
  unfold Pandas.unique. rewrite (unique_from_In _ Z.eqb_eq). cbn [In]. tauto.
Qed.

(** X15. Without a list of streams, the streams of the GPU kernels of the
    rank are analysed: the call returns a table, every row carries the rank,
    and the streams of the rows are the streams that hold a kernel. *)
Theorem default_streams_are_the_streams_with_kernels
    (t : Trace) (consecutive_kernel_delay rank : Z) (trace_df : list Event) :
  get_trace t rank = Some trace_df ->
  idle_gpu_kernels t trace_df <> [] ->
  exists out,
    get_idle_time_breakdown t consecutive_kernel_delay rank None = Some out
    /\ Forall (fun r => IdleBreakdown.rank r = rank) out
    /\ forall s, In s (map IdleBreakdown.stream out)
                 <-> In s (streams_of (idle_gpu_kernels t trace_df)).
Proof.
  intros Ht Hne. unfold get_idle_time_breakdown. rewrite Ht.
  set (gk := idle_gpu_kernels t trace_df) in *.
  set (ss := Pandas.unique Z.eqb (map (fun k => Ev.stream (kernel k)) gk)).
  assert (Hss : forall s, In s ss <-> In s (streams_of gk)).
  { intros s. apply unique_In_Z. }
  destruct (map _ ss) as [|x xs] eqn:Emap.
  - exfalso. destruct gk as [|k gk']; [now apply Hne|].
    apply map_eq_nil in Emap.
    assert (Hin : In (Ev.stream (kernel k)) ss) by (apply Hss; now left).
    rewrite Emap in Hin. contradiction.
  - rewrite <- Emap. clear Emap x xs. eexists. split; [reflexivity|]. split.
    + apply Forall_map, Forall_forall. reflexivity.
    + intros s. rewrite map_map. cbn [IdleBreakdown.stream]. split.
      * intros Hin. apply in_map_iff in Hin. destruct Hin as (r & <- & Hr).
        apply in_concat in Hr. destruct Hr as (tbl & Htbl & Hr).
        apply in_map_iff in Htbl. destruct Htbl as (s' & <- & Hs').
        destruct (analyze_ratio _ _ _ _ Hr) as [-> _]. now apply Hss.
      * intros Hin. pose proof Hin as Hk. unfold streams_of in Hk.
        apply in_map_iff in Hk. destruct Hk as (k & Hks & Hk).
        pose proof (analyze_other_row s gk consecutive_kernel_delay k Hk Hks) as Ho.
        apply in_map_iff in Ho. destruct Ho as (r & _ & Hr).
        apply in_map_iff. exists r. split.
        -- now apply (analyze_ratio _ _ _ _ Hr).
        -- apply in_concat. eexists. split; [|exact Hr].
           apply in_map_iff. exists s. split; [reflexivity | now apply Hss].
Qed.

Lemma default_streams_are_the_streams_with_kernels_witness :
  exists out,
    get_idle_time_breakdown Samples.cancelling_trace 10 0 None = Some out
    /\ Forall (fun r => IdleBreakdown.rank r = 0) out
    /\ forall s, In s (map IdleBreakdown.stream out)
                 <-> In s (streams_of
                             (idle_gpu_kernels Samples.cancelling_trace
                                [ Samples.runtime 0 (-5); Samples.runtime 1 40;
                                  Samples.runtime 2 160; Samples.kernel7 10 0 100 0;
                                  Samples.kernel7 11 50 100 1;
                                  Samples.kernel7 12 200 100 2 ])).
Proof.
  apply (default_streams_are_the_streams_with_kernels Samples.cancelling_trace 10 0).
  - reflexivity.
  - vm_compute. discriminate.
Defined.

(** X16. For a rank with no GPU kernel, an event on a stream whose category
    is one of the kernel categories, no stream is left to analyse and the
    call fails, whether the list of streams is left out or empty. *)
Theorem idle_breakdown_fails_without_gpu_kernels
    (t : Trace) (consecutive_kernel_delay rank : Z) (trace_df : list Event) :
  get_trace t rank = Some trace_df ->
  Forall (fun e =>
            Ev.stream e = -1
            \/ ~ In (Ev.cat e) (map (fun cat => sym_id_get t cat (-1000)) kernel_cats))
         trace_df ->
  get_idle_time_breakdown t consecutive_kernel_delay rank None = None
  /\ get_idle_time_breakdown t consecutive_kernel_delay rank (Some []) = None.
Proof.
  intros Ht Hall.
  assert (E : idle_gpu_kernels t trace_df = []).
  { unfold idle_gpu_kernels, join_runtime.
    replace (filter _ trace_df) with (@nil Event); [reflexivity|].
    symmetry. clear Ht. induction Hall as [|e l He _ IH]; [reflexivity|].
    cbn [filter]. rewrite IH.
    destruct He as [He|He].
    - rewrite He. reflexivity.
    - destruct (existsb _ _) eqn:Ex; [|now rewrite andb_false_r].
      exfalso. apply He. apply existsb_exists in Ex.
      destruct Ex as (id & Hid & Eid). apply Z.eqb_eq in Eid. now subst. }
  unfold get_idle_time_breakdown. rewrite Ht, E. split; reflexivity.
Qed.

Lemma idle_breakdown_fails_without_gpu_kernels_witness :
  get_idle_time_breakdown Samples.busy_trace 10 0 None = None
  /\ get_idle_time_breakdown Samples.busy_trace 10 0 (Some []) = None.
Proof.
  apply (idle_breakdown_fails_without_gpu_kernels Samples.busy_trace 10 0
           Samples.busy_rank).
  - reflexivity.
  - repeat (apply Forall_cons; [right; vm_compute; intuition discriminate|]).
    apply Forall_nil.
Defined.

(* --------------------------------------------------------------------- *)
(** ** Kernels and user annotations: what a kernel is given *)

Lemma annotate_cases (e : Event) (annos : list Event) ua :
  ((forall a, In a annos -> matches e a = false) /\ annotate e ua annos = ua)
  \/ exists a, In a annos /\ matches e a = true /\ annotate e ua annos = Ev.name a.
Proof.
  induction annos as [|x annos IH] using rev_ind.
  - left. split; [intros a [] | reflexivity].
  - rewrite annotate_snoc. destruct (matches e x) eqn:Ex.
    + right. exists x. split; [apply in_or_app; right; now left | auto].
    + destruct IH as [[Hno E]|(a & Ha & Hm & E)].
      * left. split; [|exact E]. intros a Ha. apply in_app_or in Ha.
        destruct Ha as [Ha|[<-|[]]]; [now apply Hno | exact Ex].
      * right. exists a. split; [apply in_or_app; now left | auto].
Qed.

Lemma Forall2_map_self {A B} (P : A -> B -> Prop) (f : A -> B) (l : list A) :
  (forall x, In x l -> P x (f x)) -> Forall2 P l (map f l).
Proof.
  induction l as [|x l IH]; intros H; constructor.
  - apply H. now left.
  - apply IH. intros y Hy. apply H. now right.
Qed.

(** X17. The association keeps the kernels, in their order, and touches
    [user_annotation] only: a kernel that no annotation of its [(pid, tid)]
    overlaps keeps the annotation it has, any other kernel is given the name
    of an annotation of its [(pid, tid)] that overlaps it. *)
Theorem association_keeps_kernels_and_assigns_matches
    (trace_df : list Event) (gpu_kernels_df : list kernel_row)
    (gpu_user_anno_df : list Event) :
  exists out,
    snd (_associate_gpu_kernels_with_user_annotations trace_df gpu_kernels_df
           gpu_user_anno_df) = Call.Returned out
    /\ map k_event out = map k_event gpu_kernels_df
    /\ Forall2
         (fun k k' =>
            ((forall a, In a gpu_user_anno_df -> matches (k_event k) a = false)
             /\ user_annotation k' = user_annotation k)
            \/ exists a, In a gpu_user_anno_df /\ matches (k_event k) a = true
                         /\ user_annotation k' = Ev.name a)
         gpu_kernels_df out.
Proof.
  unfold _associate_gpu_kernels_with_user_annotations. cbn [snd].
  eexists. split; [reflexivity|]. rewrite associate_rows. split.
  - rewrite map_map. reflexivity.
  - apply Forall2_map_self. intros k _. cbn [user_annotation k_event].
    rewrite annotate_loops_eq. apply annotate_cases.
Qed.

(** X18. On a trace with the annotation category and no negative duration,
    [get_gpu_kernels_with_user_annotations] without name expansion returns
    the GPU kernels of the rank in trace order, each with -1 or with the name
    of a GPU user annotation of its [(pid, tid)] that overlaps it. *)
Theorem kernels_come_back_with_an_overlapping_annotation
    (GPUKernelFilter : SymbolTable -> Event -> bool)
    (decode_symbol_id_to_symbol_name : SymbolTable -> bool -> list kernel_row -> list kernel_row)
    (t : Trace) (rank : Z) (shortern_names : bool) (trace_df : list Event) (id : Z) :
  get_trace t rank = Some trace_df ->
  sym_index (symbol_table t) !! "gpu_user_annotation" = Some id ->
  id <> -1 ->
  Forall (fun e => 0 <= Ev.dur e) trace_df ->
  exists out,
    snd (get_gpu_kernels_with_user_annotations GPUKernelFilter
           decode_symbol_id_to_symbol_name t rank false shortern_names)
    = Call.Returned (Some out)
    /\ map k_event out = filter (GPUKernelFilter (symbol_table t)) trace_df
    /\ Forall (fun k =>
                 user_annotation k = -1
                 \/ exists a, In a trace_df /\ Ev.cat a = id
                              /\ matches (k_event k) a = true
                              /\ user_annotation k = Ev.name a) out.
Proof.
  intros Ht Hid Hne Hdur.
  unfold get_gpu_kernels_with_user_annotations. rewrite Ht.
  unfold _get_gpu_user_anno_interval_dataframe, sym_id_get. rewrite Hid.
  destruct (Z.eqb_spec id (-1)); [contradiction|].
  rewrite with_interval_index_returns.
  2:{ apply Forall_forall. intros e He. apply sort_values_desc_In in He.
      apply filter_In in He. rewrite Forall_forall in Hdur. now apply Hdur. }
  unfold _get_gpu_kernel_interval_dataframe.
  rewrite with_interval_index_returns.
  2:{ apply Forall_forall. intros e He.
      apply filter_In in He. rewrite Forall_forall in Hdur. now apply Hdur. }
  cbn. eexists. split; [reflexivity|]. rewrite associate_rows. split.
  - rewrite !map_map. cbn [k_event]. apply map_id.
  - apply Forall_map, Forall_map, Forall_forall. intros e _.
    cbn [user_annotation k_event]. rewrite annotate_loops_eq.
    destruct (annotate_cases e (Pandas.sort_values_desc Ev.dur
                (filter (fun e => Ev.cat e =? id) trace_df)) (-1))
      as [[_ E]|(a & Ha & Hm & E)].
    + left. exact E.
    + right. exists a. apply sort_values_desc_In in Ha. apply filter_In in Ha.
      destruct Ha as [Ha Hc]. apply Z.eqb_eq in Hc. auto.
Qed.

(** X19. A GPU user annotation of negative duration makes the call fail
    with a [ValueError]: the interval index refuses an interval that ends
    before it starts. *)
Theorem negative_annotation_duration_raises
    (GPUKernelFilter : SymbolTable -> Event -> bool)
    (decode_symbol_id_to_symbol_name : SymbolTable -> bool -> list kernel_row -> list kernel_row)
    (t : Trace) (rank : Z) (expand_names shortern_names : bool)
    (trace_df : list Event) (id : Z) (a : Event) :
  get_trace t rank = Some trace_df ->
  sym_index (symbol_table t) !! "gpu_user_annotation" = Some id ->
  id <> -1 ->
  In a trace_df -> Ev.cat a = id -> Ev.dur a < 0 ->
  get_gpu_kernels_with_user_annotations GPUKernelFilter
    decode_symbol_id_to_symbol_name t rank expand_names shortern_names
  = ([], Call.Raised "ValueError").
Proof.
  intros Ht Hid Hne Hin Hcat Hneg.
  unfold get_gpu_kernels_with_user_annotations. rewrite Ht.
  unfold _get_gpu_user_anno_interval_dataframe, sym_id_get. rewrite Hid.
  destruct (Z.eqb_spec id (-1)); [contradiction|].
  rewrite (with_interval_index_raises _ a); [reflexivity| |exact Hneg].
  apply sort_values_desc_In, filter_In. split; [exact Hin | now apply Z.eqb_eq].
Qed.

Lemma kernels_come_back_with_an_overlapping_annotation_witness :
  exists out,
    snd (get_gpu_kernels_with_user_annotations Samples.kernel_category
           Samples.no_decoding Samples.nested_trace 0 false true)
    = Call.Returned (Some out)
    /\ map k_event out
       = filter (Samples.kernel_category (symbol_table Samples.nested_trace))
                Samples.nested_annotations
    /\ Forall (fun k =>
                 user_annotation k = -1
                 \/ exists a, In a Samples.nested_annotations /\ Ev.cat a = 1
                              /\ matches (k_event k) a = true
                              /\ user_annotation k = Ev.name a) out.
Proof.
  apply (kernels_come_back_with_an_overlapping_annotation Samples.kernel_category
           Samples.no_decoding Samples.nested_trace 0 true
           Samples.nested_annotations 1).
  - reflexivity.
  - vm_compute. reflexivity.
  - lia.
  - repeat constructor; vm_compute; discriminate.
Defined.

Lemma negative_annotation_duration_raises_witness :
  get_gpu_kernels_with_user_annotations Samples.kernel_category Samples.no_decoding
    {| symbol_table := Samples.annotated_symbols;
       traces := [(0, [Samples.event 1 3 0 7 100 (-5); Samples.event 0 2 0 7 120 30])] |}
    0 true true
  = ([], Call.Raised "ValueError").
Proof.
  apply (negative_annotation_duration_raises Samples.kernel_category
           Samples.no_decoding _ 0 true true
           [Samples.event 1 3 0 7 100 (-5); Samples.event 0 2 0 7 120 30] 1
           (Samples.event 1 3 0 7 100 (-5))).
  - reflexivity.
  - vm_compute. reflexivity.
  - lia.
  - left. reflexivity.
  - reflexivity.
  - cbn. lia.
Defined.

(* --------------------------------------------------------------------- *)
(** ** [get_gpu_kernel_breakdown] *)

Import TemporalProps KernelBreakdownProps.

Lemma insert_ltb_perm {A} (ltb : A -> A -> bool) x (l : list A) :
  Permutation (Pandas.insert_ltb ltb x l) (x :: l).
Proof.
  induction l as [|y l IH]; cbn; [reflexivity|].
  destruct (ltb y x); [|reflexivity].
  rewrite IH. apply perm_swap.
Qed.

Lemma sort_by_perm {A} (ltb : A -> A -> bool) (l : list A) :
  Permutation (Pandas.sort_by ltb l) l.
Proof.
  induction l as [|x l IH]; cbn; [reflexivity|].
  rewrite insert_ltb_perm. now constructor.
Qed.

Lemma perm_filter {A} (p : A -> bool) (l1 l2 : list A) :
  Permutation l1 l2 -> Permutation (filter p l1) (filter p l2).
Proof.
  induction 1; cbn [filter].
  - constructor.
  - destruct (p x); [now constructor | assumption].
  - destruct (p x), (p y); try reflexivity; apply perm_swap.
  - etransitivity; eassumption.
Qed.

Lemma filter_none {A} (p : A -> bool) (l : list A) :
  Forall (fun x => p x = false) l -> filter p l = [].
Proof. induction 1 as [|x l Hx _ IH]; cbn; [reflexivity | now rewrite Hx]. Qed.

Lemma filter_all {A} (p : A -> bool) (l : list A) :
  Forall (fun x => p x = true) l -> filter p l = l.
Proof. induction 1 as [|x l Hx _ IH]; cbn; [reflexivity | now rewrite Hx, IH]. Qed.

Lemma filter_concat_none {A B} (p : B -> bool) (g : A -> list B) (l : list A) :
  (forall y, In y l -> filter p (g y) = []) -> filter p (concat (map g l)) = [].
Proof.
  induction l as [|a l IH]; intros H; [reflexivity|].
  cbn [map concat]. rewrite filter_app, H by now left.
  apply IH. intros y Hy. apply H. now right.
Qed.

(** Of the parts of a concatenation, one alone passes the filter. *)
Lemma filter_concat_single {A B} (p : B -> bool) (g : A -> list B) (l : list A) (x : A) :
  NoDup l -> In x l ->
  (forall y, In y l -> y <> x -> filter p (g y) = []) ->
  filter p (concat (map g l)) = filter p (g x).
Proof.
  induction l as [|a l IH]; intros Hnd Hin H; [contradiction|].
  inversion Hnd as [|? ? Ha Hl]; subst.
  cbn [map concat]. rewrite filter_app.
  destruct Hin as [->|Hin].
  - rewrite filter_concat_none; [apply app_nil_r|].
    intros y Hy. apply H; [now right|]. intros ->. contradiction.
  - rewrite (H a) by (now left || (intros ->; contradiction)).
    apply IH; auto. intros y Hy. apply H. now right.
Qed.

Section KernelBreakdownFacts.
Variable kernel_type_of : SymbolTable -> Z -> string.
Variable symbol_name : SymbolTable -> Z -> string.

Local Abbreviation type_rows' := (type_rows symbol_name kernel_type_of).
Local Abbreviation rank_rows' := (rank_rows symbol_name kernel_type_of).

(** The loop over the kernel types, when it does not raise. *)
Lemma kernel_info_loop t dr nk rank gk (types : list string) : forall rows0 rows,
  fold_left
    (fun acc kernel_type =>
       match acc with
       | None => None
       | Some all_kernel_df =>
           match _aggr_gpu_kernel_time
                   (kernels_of_type kernel_type_of symbol_name t gk kernel_type)
                   nk dr None with
           | None => None
           | Some gpu_kernel_time =>
               Some (all_kernel_df
                     ++ map (fun r => {| ki_row := r; ki_kernel_type := kernel_type;
                                         ki_rank := rank |})
                            gpu_kernel_time)
           end
       end)
    types (Some rows0) = Some rows ->
  rows = rows0 ++ concat (map (type_rows' t dr nk rank gk) types).
Proof.
  induction types as [|ty types IH]; intros rows0 rows E; cbn [fold_left] in E.
  - injection E as <-. cbn. now rewrite app_nil_r.
  - unfold type_rows at 1. cbn [map concat].
    destruct (_aggr_gpu_kernel_time _ nk dr None) as [df|].
    + apply IH in E. rewrite E, <- app_assoc. reflexivity.
    + exfalso. clear IH. induction types as [|ty' types IH']; [discriminate|].
      cbn [fold_left] in E. auto.
Qed.

Lemma kernel_info_of_rank_rows t dr nk types rank gk rows :
  kernel_info_of_rank kernel_type_of symbol_name t dr nk types rank gk = Some rows ->
  rows = concat (map (type_rows' t dr nk rank gk) types).
Proof. intros E. apply kernel_info_loop in E. exact E. Qed.

Lemma kernel_info_of_rank_returns t dr nk types rank gk :
  valid_percentile dr = true ->
  kernel_info_of_rank kernel_type_of symbol_name t dr nk types rank gk <> None.
Proof.
  intros Hv. unfold kernel_info_of_rank. generalize (@nil kernel_info).
  induction types as [|ty types IH]; intros rows0; cbn [fold_left]; [discriminate|].
  destruct (_aggr_gpu_kernel_time _ nk dr None) as [df|] eqn:E; [apply IH|].
  exfalso. revert E. now apply aggr_valid_returns.
Qed.

Lemma breakdown_loop_none t dr nk types (l : list (Z * list Event)) :
  fold_left (kernel_breakdown_of_rank kernel_type_of symbol_name t dr nk types) l None
  = None.
Proof. induction l as [|it l IH]; [reflexivity | exact IH]. Qed.

(** The loop over the ranks, when it does not raise. *)
Lemma breakdown_loop t dr nk types (l : list (Z * list Event)) : forall kt0 ak0 kt ak,
  fold_left (kernel_breakdown_of_rank kernel_type_of symbol_name t dr nk types) l
            (Some (kt0, ak0)) = Some (kt, ak) ->
  kt = kt0 ++ concat (map (fun it => rank_type_time kernel_type_of t types (snd it)) l)
  /\ ak = ak0 ++ concat (map (rank_rows' t dr nk types) l).
Proof.
  induction l as [|[rank trace_df] l IH]; intros kt0 ak0 kt ak E; cbn [fold_left] in E.
  - injection E as <- <-. cbn. now rewrite !app_nil_r.
  - cbn [kernel_breakdown_of_rank] in E. cbn [map concat snd].
    unfold rank_type_time at 1, rank_rows at 1. cbn [fst snd].
    fold (gpu_kernels_of trace_df) in E.
    destruct (_get_gpu_kernel_type_time _ (gpu_kernels_of trace_df) types) as [tt|];
      [|now rewrite breakdown_loop_none in E].
    destruct (kernel_info_of_rank _ _ t dr nk types rank (gpu_kernels_of trace_df))
      as [rows|] eqn:Er; [|now rewrite breakdown_loop_none in E].
    apply kernel_info_of_rank_rows in Er. subst rows.
    apply IH in E. destruct E as [-> ->]. now rewrite <- !app_assoc.
Qed.

Lemma breakdown_loop_returns t dr nk types (l : list (Z * list Event)) :
  valid_percentile dr = true ->
  forall st,
    fold_left (kernel_breakdown_of_rank kernel_type_of symbol_name t dr nk types) l
              (Some st) <> None.
Proof.
  intros Hv. induction l as [|[rank trace_df] l IH]; intros [kt0 ak0];
    cbn [fold_left]; [discriminate|].
  cbn [kernel_breakdown_of_rank].
  destruct (overlap_returns
              (map (fun kt =>
                      (kt, merge_kernel_intervals
                             (filter (fun e =>
                                        String.eqb
                                          (kernel_type_of (symbol_table t) (Ev.name e)) kt)
                                     (filter (fun e => negb (Ev.stream e =? -1)) trace_df))))
                   types)) as (tt & Ett).
  unfold _get_gpu_kernel_type_time. rewrite Ett.
  destruct (kernel_info_of_rank _ _ t dr nk types rank _) as [rows|] eqn:Er; [apply IH|].
  exfalso. revert Er. now apply kernel_info_of_rank_returns.
Qed.

Lemma type_rows_keys t dr nk rank gk ty :
  Forall (fun r => ki_rank r = rank /\ ki_kernel_type r = ty)
         (type_rows' t dr nk rank gk ty).
Proof.
  unfold type_rows. destruct (_aggr_gpu_kernel_time _ nk dr None); [|constructor].
  apply Forall_map, Forall_forall. intros r _. split; reflexivity.
Qed.

Lemma rank_rows_rank t dr nk types it :
  Forall (fun r => ki_rank r = fst it) (rank_rows' t dr nk types it).
Proof.
  unfold rank_rows. apply Forall_concat, Forall_map, Forall_forall. intros ty _.
  eapply Forall_impl; [|apply type_rows_keys]. now intros r [H _].
Qed.

Lemma type_rows_total t dr nk rank gk ty :
  int64_safe
    (map Ev.dur
       (filter (fun e => String.eqb (kernel_type_of (symbol_table t) (Ev.name e)) ty) gk)) ->
  _aggr_gpu_kernel_time (kernels_of_type kernel_type_of symbol_name t gk ty) nk dr None
  <> None ->
  Pandas.sum (map (fun r => Agg.sum (ki_row r)) (type_rows' t dr nk rank gk ty))
  = Pandas.sum
      (map Ev.dur
         (filter (fun e => String.eqb (kernel_type_of (symbol_table t) (Ev.name e)) ty) gk)).
Proof.
  intros Hsafe. unfold type_rows.
  destruct (_aggr_gpu_kernel_time _ nk dr None) as [df|] eqn:E; [|congruence].
  intros _. rewrite map_map. cbn [ki_row].
  apply aggr_some_total in E.
  - unfold kernels_of_type in E. rewrite map_map in E. cbn [snd] in E. exact E.
  - unfold kernels_of_type. rewrite map_map. cbn [snd]. exact Hsafe.
Qed.

Lemma kernel_info_of_rank_each t dr nk rank gk (types : list string) : forall rows0 rows,
  fold_left
    (fun acc kernel_type =>
       match acc with
       | None => None
       | Some all_kernel_df =>
           match _aggr_gpu_kernel_time
                   (kernels_of_type kernel_type_of symbol_name t gk kernel_type)
                   nk dr None with
           | None => None
           | Some gpu_kernel_time =>
               Some (all_kernel_df
                     ++ map (fun r => {| ki_row := r; ki_kernel_type := kernel_type;
                                         ki_rank := rank |})
                            gpu_kernel_time)
           end
       end)
    types (Some rows0) = Some rows ->
  forall ty, In ty types ->
    _aggr_gpu_kernel_time (kernels_of_type kernel_type_of symbol_name t gk ty) nk dr None
    <> None.
Proof.
  induction types as [|ty0 types IH]; intros rows0 rows E ty Hty; [contradiction|].
  cbn [fold_left] in E.
  destruct (_aggr_gpu_kernel_time
              (kernels_of_type kernel_type_of symbol_name t gk ty0) nk dr None)
    as [df|] eqn:E0.
  - destruct Hty as [<-|Hty]; [congruence|]. eapply IH; eassumption.
  - exfalso. clear -E. induction types as [|ty' types IH']; [discriminate|].
    cbn [fold_left] in E. auto.
Qed.

Lemma breakdown_loop_each t dr nk types (l : list (Z * list Event)) : forall st kt ak,
  fold_left (kernel_breakdown_of_rank kernel_type_of symbol_name t dr nk types) l
            (Some st) = Some (kt, ak) ->
  forall rank trace_df ty, In (rank, trace_df) l -> In ty types ->
    _aggr_gpu_kernel_time
      (kernels_of_type kernel_type_of symbol_name t (gpu_kernels_of trace_df) ty)
      nk dr None <> None.
Proof.
  induction l as [|[rank0 df0] l IH]; intros [kt0 ak0] kt ak E rank trace_df ty Hin Hty;
    [contradiction|].
  cbn [fold_left] in E. cbn [kernel_breakdown_of_rank] in E.
  fold (gpu_kernels_of df0) in E.
  destruct (_get_gpu_kernel_type_time _ (gpu_kernels_of df0) types) as [tt|];
    [|now rewrite breakdown_loop_none in E].
  destruct (kernel_info_of_rank _ _ t dr nk types rank0 (gpu_kernels_of df0))
    as [rows|] eqn:Er; [|now rewrite breakdown_loop_none in E].
  destruct Hin as [[= -> ->]|Hin].
  - eapply kernel_info_of_rank_each; eassumption.
  - eapply IH; eassumption.
Qed.
End KernelBreakdownFacts.

Lemma sum_concat_map {A} (g : A -> list Z) (l : list A) :
  Pandas.sum (concat (map g l)) = Pandas.sum (map (fun x => Pandas.sum (g x)) l).
Proof.
  induction l as [|x l IH]; [reflexivity|].
  cbn [map concat]. rewrite sum_app, IH. reflexivity.
Qed.

Lemma round1_bounds (q : Q) : (0 <= q)%Q -> (q <= 100)%Q ->
  (0 <= round1 q)%Q /\ (round1 q <= 100)%Q.
Proof.
  intros H0 H100. unfold round1.
  destruct (rint_bounds (q * 10) 1000) as [Hr0 Hr1].
  - apply Qmult_le_0_compat; [exact H0 | discriminate].
  - change (inject_Z 1000) with (100 * 10)%Q.
    apply Qmult_le_compat_r; [exact H100 | discriminate].
  - rewrite !Qred_correct. split.
    + apply Qle_shift_div_l; [reflexivity|]. rewrite Qmult_0_l.
      change 0%Q with (inject_Z 0). now rewrite <- Zle_Qle.
    + apply Qle_shift_div_r; [reflexivity|].
      change (100 * 10)%Q with (inject_Z 1000). now rewrite <- Zle_Qle.
Qed.

Lemma share_is_percentage (x w : Z) :
  0 < w -> 0 <= x <= w ->
  is_percentage (fround1 (Pandas.fscale100 (Pandas.fdiv x w))).
Proof.
  intros Hw Hx. unfold Pandas.fdiv.
  destruct (Z.eqb_spec w 0); [lia|]. cbn [Pandas.fscale100 fround1].
  eexists. split; [reflexivity|].
  apply round1_bounds.
  - apply Qmult_le_0_compat; [discriminate|]. rewrite Qred_correct.
    apply Qle_shift_div_l.
    + change 0%Q with (inject_Z 0). rewrite <- Zlt_Qlt. exact Hw.
    + rewrite Qmult_0_l. change 0%Q with (inject_Z 0). rewrite <- Zle_Qle. lia.
  - rewrite Qred_correct.
    apply Qle_trans with (100 * 1)%Q; [|discriminate].
    apply Qmult_le_l; [reflexivity|].
    apply Qle_shift_div_r.
    + change 0%Q with (inject_Z 0). rewrite <- Zlt_Qlt. exact Hw.
    + rewrite Qmult_1_l. rewrite <- Zle_Qle. lia.
Qed.

Lemma sum_ge_member (l : list Z) x :
  Forall (fun y => 0 <= y) l -> In x l -> x <= Pandas.sum l.
Proof.
  induction 1 as [|y l Hy Hl IH]; intros Hin; [contradiction|].
  pose proof (sum_nonneg l Hl) as Hs. unfold Pandas.sum in *. cbn [fold_right].
  destruct Hin as [->|Hin]; [lia|]. specialize (IH Hin). lia.
Qed.

(** The table [kernel_type_df] before the percentages. *)
Lemma kernel_type_sums_nonneg (kt : list (string * Z)) :
  Forall (fun x => 0 <= snd x) kt ->
  Forall (fun x => 0 <= snd x)
         (Pandas.sort_values_desc snd
            (map (fun '(k, vs) => (k, Pandas.sum vs)) (Pandas.groupby kt))).
Proof.
  intros H. apply Forall_forall. intros x Hx.
  unfold Pandas.sort_values_desc in Hx.
  apply (Permutation_in _ (sort_values_perm _ _)) in Hx.
  apply in_map_iff in Hx. destruct Hx as ([k vs] & <- & Hin). cbn [snd].
  apply sum_nonneg. apply groupby_In in Hin. destruct Hin as [-> _].
  unfold values_of. apply Forall_map, Forall_forall. intros y Hy.
  apply filter_In in Hy. destruct Hy as [Hy _].
  rewrite Forall_forall in H. now apply H.
Qed.

Lemma rank_type_time_nonneg kernel_type_of t types trace_df :
  Forall (fun x => 0 <= snd x) (rank_type_time kernel_type_of t types trace_df).
Proof.
  unfold rank_type_time, _get_gpu_kernel_type_time.
  destruct (overlap_kernel_type_time _) as [tt|] eqn:E; [|constructor].
  now apply overlap_rows in E.
Qed.

(** X20. With a duration ratio between 0 and 1, on a trace whose ranks all
    hold a GPU kernel, [get_gpu_kernel_breakdown] returns its two tables:
    neither the classification of the kernels nor their aggregation raises. *)
Theorem kernel_breakdown_returns_for_a_valid_ratio
    (kernel_type_of symbol_name : SymbolTable -> Z -> string)
    (t : Trace) (duration_ratio : Q) (num_kernels : Z) (include_memory_kernels : bool) :
  valid_percentile duration_ratio = true ->
  Forall (fun it => gpu_kernels_of (snd it) <> []) (traces t) ->
  exists kernel_type_df all_kernel_df,
    get_gpu_kernel_breakdown kernel_type_of symbol_name t duration_ratio num_kernels
      include_memory_kernels
    = Some (kernel_type_df, all_kernel_df).
Proof.
  intros Hv _. unfold get_gpu_kernel_breakdown.
  destruct (fold_left _ (traces t) (Some ([], []))) as [[kt ak]|] eqn:E.
  - eexists. eexists. reflexivity.
  - exfalso. revert E. now apply breakdown_loop_returns.
Qed.

Lemma kernel_breakdown_returns_for_a_valid_ratio_witness :
  exists kernel_type_df all_kernel_df,
    get_gpu_kernel_breakdown Samples.type_of_symbol Samples.name_of_symbol
      Samples.busy_trace (8 # 10) 10 false
    = Some (kernel_type_df, all_kernel_df).
Proof.
  apply (kernel_breakdown_returns_for_a_valid_ratio Samples.type_of_symbol
           Samples.name_of_symbol Samples.busy_trace (8 # 10) 10 false).
  - reflexivity.
  - repeat constructor. vm_compute. discriminate.
Defined.







(* --------------------------------------------------------------------- *)
(** ** [get_gpu_user_annotation_breakdown]: the rows of a rank *)

Lemma annotation_loop (symbol_name : SymbolTable -> Z -> string)
    (t : Trace) (idx : Z) (annotation : string) (dr : Q) (nk : Z)
    (allow : option (list string)) (l : list (Z * list Event)) :
  valid_percentile dr = true ->
  forall log0 df0,
  exists log,
    fold_left
      (fun acc '(rank, trace_df) =>
         let* all_kernel_df := acc in
         let* gpu_kernel_time :=
           annotation_breakdown_of_rank symbol_name t idx annotation dr nk allow
             rank trace_df in
         Call.ret (all_kernel_df ++ gpu_kernel_time))
      l (log0, Call.Returned df0)
    = (log0 ++ log,
       Call.Returned
         (df0 ++ concat (map (annotation_rows symbol_name t idx dr nk allow) l)))
    /\ length log = length l.
Proof.
  intros Hv. induction l as [|[rank trace_df] l IH]; intros log0 df0.
  - exists []. cbn. now rewrite !app_nil_r.
  - cbn [fold_left map concat].
    unfold annotation_breakdown_of_rank at 2, annotation_rows at 1. cbn [fst snd].
    destruct (_aggr_gpu_kernel_time _ nk dr allow) as [out|] eqn:E;
      [|exfalso; revert E; now apply aggr_valid_returns].
    cbn [Call.bind Call.log Call.ret].
    match goal with
    | |- exists log, fold_left _ l (?l1, Call.Returned ?d1) = _ /\ _ =>
        destruct (IH l1 d1) as (log & Elog & Hlen)
    end.
    rewrite Elog. eexists (_ :: log). split.
    + rewrite <- !app_assoc. cbn [app]. reflexivity.
    + cbn [length]. now rewrite Hlen.
Qed.



(* --------------------------------------------------------------------- *)
(** ** [_get_gpu_kernel_type_time]: the time of the kernels *)

Lemma union_length_ext (a b : list interval) :
  (forall t, covered a t = covered b t) -> union_length a = union_length b.
Proof.
  intros H. unfold union_length.
  rewrite (measure_ext (covered a) (covered b)) by (intros; apply H).
  apply measure_window.
  - intros t Ht. rewrite <- H in Ht. now apply covered_window.
  - apply covered_window.
Qed.

Lemma covered_concat (ll : list (list interval)) t :
  covered (concat ll) t = existsb (fun l => covered l t) ll.
Proof.
  induction ll as [|l ll IH]; [reflexivity|].
  cbn [concat existsb]. now rewrite covered_app, IH.
Qed.

Lemma existsb_over_map {A B} (p : B -> bool) (f : A -> B) (l : list A) :
  existsb p (map f l) = existsb (fun x => p (f x)) l.
Proof. induction l as [|x l IH]; cbn; [reflexivity | now rewrite IH]. Qed.



(* --------------------------------------------------------------------- *)
(** ** [_aggr_gpu_kernel_time]: the names of the rows *)

Lemma Forall2_partner_r {A B} (R : A -> B -> Prop) l l' x :
  Forall2 R l l' -> In x l -> exists y, In y l' /\ R x y.
Proof.
  induction 1 as [|a b l l' Hab _ IH]; intros Hin; [contradiction|].
  destruct Hin as [->|Hin]; [exists b; split; [now left | exact Hab]|].
  destruct (IH Hin) as (y & Hy & Hxy). exists y. split; [now right | exact Hxy].
Qed.

Lemma Forall2_partner_l {A B} (R : A -> B -> Prop) l l' y :
  Forall2 R l l' -> In y l' -> exists x, In x l /\ R x y.
Proof.
  induction 1 as [|a b l l' Hab _ IH]; intros Hin; [contradiction|].
  destruct Hin as [->|Hin]; [exists a; split; [now left | exact Hab]|].
  destruct (IH Hin) as (x & Hx & Hxy). exists x. split; [now right | exact Hxy].
Qed.

(** X26. The table names nothing new and loses nothing: every row is named
    after an input name or "others", and every input name has a row of its
    own or is covered by the row "others". *)
Theorem aggr_rows_are_input_names_or_others
    (gpu_kernel_time : list (string * Z)) (num_kernels : Z) (duration_ratio : Q)
    (allowlist_names : option (list string)) (out : list Agg.row) :
  _aggr_gpu_kernel_time gpu_kernel_time num_kernels duration_ratio allowlist_names
  = Some out ->
  (forall r, In r out ->
     Agg.name r = "others" \/ In (Agg.name r) (map fst gpu_kernel_time))
  /\ (forall n, In n (map fst gpu_kernel_time) ->
        In n (map Agg.name out) \/ In "others" (map Agg.name out)).
Proof.
  unfold _aggr_gpu_kernel_time. destruct (num_kernels <? _).
  - destruct (valid_percentile duration_ratio); [|discriminate].
    intros [= <-].
    set (df := aggr_by_name gpu_kernel_time).
    set (df' := rename_others allowlist_names num_kernels _ df).
    pose proof (rename_others_renamed allowlist_names num_kernels
                  (Pandas.quantile (Pandas.cumsum (map Agg.sum df)) duration_ratio) df)
      as Hren. fold df' in Hren.
    assert (Hnames : forall n,
              In n (map Agg.name
                      (fillna_std
                         (map agg
                            (Pandas.groupby (map (fun r => (Agg.name r, Agg.sum r)) df')))))
              <-> In n (map Agg.name df')).
    { intros n. rewrite fillna_std_names, agg_names, groupby_keys, map_map.
      reflexivity. }
    split.
    + intros r Hr. apply (in_map Agg.name) in Hr. apply Hnames in Hr.
      apply in_map_iff in Hr. destruct Hr as (r' & E & Hr').
      destruct (Forall2_partner_l _ _ _ _ Hren Hr') as (r0 & Hr0 & [->| ->]).
      * right. rewrite <- E. now apply aggr_by_name_input_names.
      * left. rewrite <- E. reflexivity.
    + intros n Hn. destruct (aggr_by_name_has _ _ Hn) as (r0 & Hr0 & <-).
      destruct (Forall2_partner_r _ _ _ _ Hren Hr0) as (r' & Hr' & [->| ->]).
      * left. apply Hnames. now apply in_map.
      * right. apply Hnames.
        change "others" with (Agg.name (set_name "others" r0)). now apply in_map.
  - intros [= <-]. split.
    + intros r Hr. right. now apply aggr_by_name_input_names.
    + intros n Hn. left. destruct (aggr_by_name_has _ _ Hn) as (r0 & Hr0 & <-).
      now apply in_map.
Qed.

Lemma aggr_rows_are_input_names_or_others_witness :
  let out :=
    [ {| Agg.name := "a"; Agg.sum := 100; Agg.max := 100; Agg.min := 100;
         Agg.mean := 100; Agg.std := Some (Pandas.Sqrt 0) |};
      {| Agg.name := "others"; Agg.sum := 10; Agg.max := 6; Agg.min := 4;
         Agg.mean := 5; Agg.std := Some (Pandas.Sqrt 2) |} ] in
  (forall r, In r out ->
     Agg.name r = "others" \/ In (Agg.name r) (map fst Samples.three_names))
  /\ (forall n, In n (map fst Samples.three_names) ->
        In n (map Agg.name out) \/ In "others" (map Agg.name out)).
Proof.
  apply (aggr_rows_are_input_names_or_others Samples.three_names 1 (8 # 10) None).
  vm_compute. reflexivity.
Defined.
